(** * Keyword classification, bucket allocation and deduplication
      of the legal-dataset download scripts

    A shallow embedding of the classification / routing logic of
    - [download_cuad_contracts.py]   (module [Cuad]),
    - [download_fund_sec_filings.py] (module [FundFilings]),
    - [download_fund_sec_expanded.py] (module [FundExpanded]),
    - [download_fund_formation.py]   (module [FundFormation]),
    - [download_sec_side_letters.py] (module [SideLetters]),
    together with the properties stated about them. *)

From Stdlib Require Import Ascii String.
From stdpp Require Import base option list strings gmap pretty sorting.

Local Open Scope string_scope.
Local Open Scope nat_scope.
Local Open Scope list_scope.

(** ** Python string operations used by the scripts

    A [str] is modelled as a [string] of 8-bit characters.  [lower] is
    [str.lower] on ASCII text: the letters [A]-[Z] are mapped to [a]-[z], every
    other character is left as it is. *)
Module PyStr.

Definition lower_char (c : ascii) : ascii :=
  let n := nat_of_ascii c in
  if (65 <=? n) && (n <=? 90) then ascii_of_nat (n + 32) else c.

Fixpoint lower (s : string) : string :=
  match s with
  | EmptyString => EmptyString
  | String c s' => String (lower_char c) (lower s')
  end.

(** [startswith s p] is [s.startswith(p)]. *)
Fixpoint startswith (s p : string) : bool :=
  match p, s with
  | EmptyString, _ => true
  | String _ _, EmptyString => false
  | String a p', String b s' => if decide (a = b) then startswith s' p' else false
  end.

(** [str_in kw s] is the Python expression [kw in s]. *)
Fixpoint str_in (kw s : string) : bool :=
  if startswith s kw then true
  else match s with
       | EmptyString => false
       | String _ s' => str_in kw s'
       end.

(** [endswith s p] is [s.endswith(p)]. *)
Definition endswith (s p : string) : bool :=
  startswith (String.rev s) (String.rev p).

(** [replace_char a r s] is [s.replace(a, r)] for a one-character [a]. *)
Fixpoint replace_char (a : ascii) (r : string) (s : string) : string :=
  match s with
  | EmptyString => EmptyString
  | String c s' =>
      if decide (c = a) then r +:+ replace_char a r s'
      else String c (replace_char a r s')
  end.

Fixpoint has_char (a : ascii) (s : string) : bool :=
  match s with
  | EmptyString => false
  | String c s' => if decide (c = a) then true else has_char a s'
  end.

(** [str_take n s] is [s[:n]] and [str_drop n s] is [s[n:]], for [n >= 0]. *)
Fixpoint str_take (n : nat) (s : string) : string :=
  match n, s with
  | S n', String c s' => String c (str_take n' s')
  | _, _ => EmptyString
  end.

Fixpoint str_drop (n : nat) (s : string) : string :=
  match n, s with
  | S n', String _ s' => str_drop n' s'
  | _, _ => s
  end.

(** [read n text] is what [f.read(n)] returns on a file holding [text]. *)
Definition read (n : N) (text : string) : string := str_take (N.to_nat n) text.

(** [rfind a s] is [s.rfind(a)] for a one-character [a]: the index of the
    last occurrence, [-1] when there is none. *)
Fixpoint rfind (a : ascii) (s : string) : Z :=
  match s with
  | EmptyString => (-1)%Z
  | String c s' =>
      let r := rfind a s' in
      if (0 <=? r)%Z then (r + 1)%Z
      else if decide (c = a) then 0%Z else (-1)%Z
  end.

Fixpoint all_dots (s : string) : bool :=
  match s with
  | EmptyString => true
  | String c s' => if decide (c = "."%char) then all_dots s' else false
  end.

(** [os.path.basename] (posixpath): what follows the last slash. *)
Definition basename (p : string) : string :=
  str_drop (Z.to_nat (rfind "/" p + 1)) p.

(** [os.path.splitext] (posixpath): the extension starts at the last dot
    of the last path component, unless only dots precede it there. *)
Definition splitext (p : string) : string * string :=
  let sepIndex := rfind "/" p in
  let dotIndex := rfind "." p in
  if (sepIndex <? dotIndex)%Z
     && negb (all_dots (str_drop (Z.to_nat (sepIndex + 1))
                                 (str_take (Z.to_nat dotIndex) p)))
  then (str_take (Z.to_nat dotIndex) p, str_drop (Z.to_nat dotIndex) p)
  else (p, EmptyString).

(** [os.path.join a b] (posixpath), two components. *)
Definition path_join (a b : string) : string :=
  if startswith b "/" then b
  else if bool_decide (a = EmptyString) || endswith a "/" then a +:+ b
  else a +:+ "/" +:+ b.

End PyStr.

(** ** Python dicts

    A dict is kept as the list of its items in insertion order, which is the
    order in which Python iterates over it.  [get] is the subscript [d[k]]:
    [None] stands for the [KeyError] the subscript raises on a missing key. *)
Module PyDict.
Section dict.
Context {K V : Type} `{EqDecision K}.

Fixpoint get (k : K) (d : list (K * V)) : option V :=
  match d with
  | [] => None
  | (k', v) :: d' => if decide (k' = k) then Some v else get k d'
  end.

(** [d[k] = v]: an existing key keeps its place, a new one goes last. *)
Fixpoint set (k : K) (v : V) (d : list (K * V)) : list (K * V) :=
  match d with
  | [] => [(k, v)]
  | (k', v') :: d' =>
      if decide (k' = k) then (k', v) :: d' else (k', v') :: set k v d'
  end.

(** [k in d] *)
Definition contains (k : K) (d : list (K * V)) : bool :=
  bool_decide (is_Some (get k d)).

Definition keys (d : list (K * V)) : list K := d.*1.
Definition values (d : list (K * V)) : list V := d.*2.
Definition items (d : list (K * V)) : list (K * V) := d.
End dict.
End PyDict.

(** ** The network and the disk of the downloaders

    A request either streams its whole body or raises a
    [requests.exceptions.RequestException]: from [requests.get] or
    [raise_for_status] before the destination is opened ([None]), or from
    [iter_content] after some bytes were written ([Some]).  The answers are
    numbered by the requests made so far. *)
Module Net.

Inductive response :=
  | Body (data : string)
  | RequestException (written : option string).

Inductive event :=
  | Get (url : string)
  | Sleep (milliseconds : nat).

(** [tree] maps a path to the bytes of the file there, [clock] counts the
    requests, [trace] lists the requests and sleeps, oldest first. *)
Record disk := Disk {
  tree : gmap string string;
  clock : nat;
  trace : list event
}.

Definition sleep (milliseconds : nat) (st : disk) : disk :=
  {| tree := tree st; clock := clock st; trace := trace st ++ [Sleep milliseconds] |}.

(** [requests.get] and the [with open(dest_path, 'wb')] block that
    follows it; the response is returned to the handler. *)
Definition fetch (net : nat → response) (url dest_path : string) (st : disk)
  : response * disk :=
  let r := net (clock st) in
  let tree' :=
    match r with
    | Body data => <[dest_path := data]> (tree st)
    | RequestException (Some data) => <[dest_path := data]> (tree st)
    | RequestException None => tree st
    end in
  (r, {| tree := tree'; clock := S (clock st); trace := trace st ++ [Get url] |}).

End Net.

(** ** [download_cuad_contracts.py] *)
Module Cuad.
Import PyStr.

(** The dict literal; a Python dict iterates in insertion order, so the
    literal is the ordered list of its items. *)
Definition PRACTICE_AREA_MAPPINGS : list (string * list string) :=
  [ ("M_and_A",
     ["merger"; "acquisition"; "asset purchase"; "stock purchase";
      "share purchase"; "purchase agreement"; "combination"]);
    ("Corporate",
     ["joint venture"; "collaboration"; "strategic alliance";
      "partnership"; "shareholder"; "voting agreement"; "stockholder"]);
    ("IP_Licensing",
     ["license"; "intellectual property"; "patent"; "software";
      "trademark"; "royalty"; "technology"]);
    ("Commercial",
     ["supply"; "distribution"; "manufacturing"; "service";
      "master service"; "outsourcing"; "hosting"; "maintenance";
      "marketing"; "reseller"; "agency"; "consulting"; "vendor"]);
    ("Employment",
     ["employment"; "non-compete"; "noncompete"; "confidentiality";
      "nda"; "non-disclosure"; "nondisclosure"; "separation"; "severance"]);
    ("Finance",
     ["credit"; "loan"; "security agreement"; "guarantee";
      "note purchase"; "indenture"; "pledge"; "financing"]) ].

Definition TARGET_MATTERS_PER_AREA : nat := 3.
Definition DOCS_PER_MATTER : nat := 15.

(** The inner loop [for keyword in keywords]: [true] when the [return] in
    its body is reached. *)
Fixpoint scan_keywords (keywords : list string) (name_lower : string) : bool :=
  match keywords with
  | [] => false
  | keyword :: keywords' =>
      if str_in keyword name_lower then true
      else scan_keywords keywords' name_lower
  end.

(** The outer loop [for practice_area, keywords in ....items()]: the value
    returned from inside the loops, if any. *)
Fixpoint scan_items (items : list (string * list string)) (name_lower : string)
  : option string :=
  match items with
  | [] => None
  | (practice_area, keywords) :: items' =>
      if scan_keywords keywords name_lower then Some practice_area
      else scan_items items' name_lower
  end.

Definition classify_by_filename (filename : string) : string :=
  let name_lower := lower filename in
  match scan_items PRACTICE_AREA_MAPPINGS name_lower with
  | Some practice_area => practice_area
  | None => "Commercial"
  end.

(** *** The classifier as the specification words it *)

(** [kw] is a case-insensitive substring of [s]. *)
Definition ci_substring (kw s : string) : bool :=
  str_in (lower kw) (lower s).

(** The first category, in declaration order, one of whose keywords is a
    case-insensitive substring of the name; the default otherwise. *)
Definition classify_spec (mapping : list (string * list string))
    (default : string) (name : string) : string :=
  match List.find (λ item, existsb (λ kw, ci_substring kw name) item.2) mapping with
  | Some item => item.1
  | None => default
  end.

(** *** [save_matter]

    The output tree maps a destination path to the source file that was
    copied there ([shutil.copy2 src dest]); the scripts never modify a
    source file, so the source path stands for its bytes.  The tree holds
    the files only: the folders, which [os.makedirs] creates, are left out. *)
Definition OUTPUT_PATH : string := "./cuad_matters".

(** The body of [for i, src_path in enumerate(doc_paths)]. *)
Definition save_doc (save_path : string) (i : nat) (src_path : string)
    (tree : gmap string string) : gmap string string :=
  let filename := basename src_path in
  let dest_path := path_join save_path filename in
  if bool_decide (is_Some (tree !! dest_path)) then
    (* Handle duplicates *)
    let '(base, ext) := splitext filename in
    let filename := base +:+ "_" +:+ pretty i +:+ ext in
    let dest_path := path_join save_path filename in
    <[dest_path := src_path]> tree
  else <[dest_path := src_path]> tree.

Fixpoint save_docs (save_path : string) (i : nat) (doc_paths : list string)
    (tree : gmap string string) : gmap string string :=
  match doc_paths with
  | [] => tree
  | src_path :: doc_paths' =>
      save_docs save_path (S i) doc_paths' (save_doc save_path i src_path tree)
  end.

Definition save_matter (practice_area : string) (matter_num : nat)
    (doc_paths : list string) (output_path : string)
    (tree : gmap string string) : gmap string string :=
  let folder_name := practice_area +:+ "_" +:+ pretty matter_num in
  let save_path := path_join output_path folder_name in
  save_docs save_path 0 doc_paths tree.

(** *** [main]: the bucket allocator

    [saved] is the sequence of the [save_matter] calls made so far, oldest
    first: (practice area, matter number, documents). *)
Record alloc := Alloc {
  matter_counts : list (string * nat);
  matter_docs : list (string * list (nat * list string));
  processed : nat;
  saved : list (string * nat * list string);
  out_tree : gmap string string
}.

Definition init_alloc (tree : gmap string string) : alloc :=
  {| matter_counts := (λ area, (area, 0)) <$> PyDict.keys PRACTICE_AREA_MAPPINGS;
     matter_docs := (λ area, (area, [])) <$> PyDict.keys PRACTICE_AREA_MAPPINGS;
     processed := 0;
     saved := [];
     out_tree := tree |}.

(** [all(c >= TARGET_MATTERS_PER_AREA for c in matter_counts.values())] *)
Definition all_targets_reached (counts : list (string * nat)) : bool :=
  forallb (λ c, TARGET_MATTERS_PER_AREA <=? c) (PyDict.values counts).

(** The loop [for pdf_path in pdf_files]. *)
Fixpoint main_loop (pdf_files : list string) (st : alloc) : option alloc :=
  match pdf_files with
  | [] => Some st
  | pdf_path :: pdf_files' =>
      let processed := S (processed st) in
      let filename := basename pdf_path in
      if all_targets_reached (matter_counts st) then
        (* break *)
        Some {| matter_counts := matter_counts st; matter_docs := matter_docs st;
                processed := processed; saved := saved st; out_tree := out_tree st |}
      else
        let practice_area := classify_by_filename filename in
        count ← PyDict.get practice_area (matter_counts st);
        if TARGET_MATTERS_PER_AREA <=? count then
          (* continue *)
          main_loop pdf_files'
            {| matter_counts := matter_counts st; matter_docs := matter_docs st;
               processed := processed; saved := saved st; out_tree := out_tree st |}
        else
          let current_matter := count + 1 in
          area_docs ← PyDict.get practice_area (matter_docs st);
          let area_docs :=
            if PyDict.contains current_matter area_docs then area_docs
            else PyDict.set current_matter [] area_docs in
          docs ← PyDict.get current_matter area_docs;
          let docs := docs ++ [pdf_path] in
          let area_docs := PyDict.set current_matter docs area_docs in
          let matter_docs := PyDict.set practice_area area_docs (matter_docs st) in
          if DOCS_PER_MATTER <=? length docs then
            (* the matter is complete *)
            main_loop pdf_files'
              {| matter_counts := PyDict.set practice_area (count + 1) (matter_counts st);
                 matter_docs := matter_docs;
                 processed := processed;
                 saved := saved st ++ [(practice_area, current_matter, docs)];
                 out_tree := save_matter practice_area current_matter docs
                               OUTPUT_PATH (out_tree st) |}
          else
            main_loop pdf_files'
              {| matter_counts := matter_counts st; matter_docs := matter_docs;
                 processed := processed; saved := saved st; out_tree := out_tree st |}
  end.

(** The inner loop of "Save any remaining partial matters":
    [for matter_num, docs in matter_docs[practice_area].items()]. *)
Fixpoint flush_area (practice_area : string) (area_items : list (nat * list string))
    (st : alloc) : option alloc :=
  match area_items with
  | [] => Some st
  | (matter_num, docs) :: area_items' =>
      if bool_decide (docs = []) then flush_area practice_area area_items' st
      else
        count ← PyDict.get practice_area (matter_counts st);
        if count <? matter_num then
          flush_area practice_area area_items'
            {| matter_counts := PyDict.set practice_area matter_num (matter_counts st);
               matter_docs := matter_docs st;
               processed := processed st;
               saved := saved st ++ [(practice_area, matter_num, docs)];
               out_tree := save_matter practice_area matter_num docs
                             OUTPUT_PATH (out_tree st) |}
        else flush_area practice_area area_items' st
  end.

(** The outer loop [for practice_area in matter_docs]. *)
Fixpoint flush_areas (areas : list string) (st : alloc) : option alloc :=
  match areas with
  | [] => Some st
  | practice_area :: areas' =>
      area_docs ← PyDict.get practice_area (matter_docs st);
      st' ← flush_area practice_area (PyDict.items area_docs) st;
      flush_areas areas' st'
  end.

Definition flush (st : alloc) : option alloc :=
  flush_areas (PyDict.keys (matter_docs st)) st.

(** [main] from the point where the list of PDF files is known.  With no
    PDF file it returns before the tracking dicts exist and nothing is
    saved. *)
Definition main (pdf_files : list string) (tree : gmap string string)
  : option alloc :=
  if bool_decide (pdf_files = []) then
    Some {| matter_counts := []; matter_docs := []; processed := 0;
            saved := []; out_tree := tree |}
  else
    st ← main_loop pdf_files (init_alloc tree);
    flush st.

(** The documents of the saved matters of one practice area. *)
Definition saved_in (area : string) (calls : list (string * nat * list string))
  : list (nat * list string) :=
  omap (λ call, if decide (call.1.1 = area) then Some (call.1.2, call.2) else None)
       calls.

(** The documents of [pdf_files] that the classifier puts into [area]. *)
Definition classified_into (area : string) (pdf_files : list string) : list string :=
  filter (λ pdf_path, classify_by_filename (basename pdf_path) = area) pdf_files.

(** *** [download_cuad_zip] *)
Definition TEMP_PATH : string := "./cuad_temp".

Definition CUAD_SOURCES : list string :=
  [ "https://github.com/TheAtticusProject/cuad/releases/download/v1/CUAD_v1.zip";
    "https://zenodo.org/records/4595826/files/CUAD_v1.zip?download=1" ].

(** What a call ends in: a returned value, the [Exception] raised at the
    end of [download_cuad_zip], or the [ValueError] of [int] on a text that
    is not an integer literal. *)
Inductive outcome (A : Type) :=
  | Returns (value : A)
  | Raises (message : string)
  | ValueError (literal : string).
Arguments Returns {A} value.
Arguments Raises {A} message.
Arguments ValueError {A} literal.

(** The [content-length] header of an answer as
    [int(response.headers.get('content-length', 0))] reads it: absent, a
    text that [int] accepts, with its value, or a text on which [int]
    raises, such as the merged value [42, 42] of a repeated header. *)
Inductive content_length :=
  | NoHeader
  | Integer (total_size : Z)
  | NotAnInteger (text : string).

(** [os.path.exists(zip_path) and os.path.getsize(zip_path) > 1000000] *)
Definition zip_already_downloaded (zip_path : string) (st : Net.disk) : bool :=
  match Net.tree st !! zip_path with
  | Some data => (1000000 <? N.of_nat (String.length data))%N
  | None => false
  end.

(** [for url in CUAD_SOURCES] with its [try].  [requests.get] and
    [raise_for_status] come first: when they raise, no header is read.
    Then the header is parsed, before the file is opened; the [ValueError]
    of the parse is no [RequestException], so the handler does not catch it
    and it leaves the function.  [headers] gives the header of the answer
    to each request, numbered as the answers are. *)
Fixpoint try_sources (net : nat → Net.response) (headers : nat → content_length)
    (sources : list string) (zip_path : string) (st : Net.disk)
  : outcome string * Net.disk :=
  match sources with
  | [] => (Raises "Could not download CUAD from any source", st)
  | url :: sources' =>
      match net (Net.clock st), headers (Net.clock st) with
      | Net.RequestException None, _ =>
          try_sources net headers sources' zip_path
            (Net.sleep 2000 (Net.fetch net url zip_path st).2)
      | _, NotAnInteger text =>
          (ValueError text,
           {| Net.tree := Net.tree st; Net.clock := S (Net.clock st);
              Net.trace := Net.trace st ++ [Net.Get url] |})
      | _, _ =>
          match Net.fetch net url zip_path st with
          | (Net.Body _, st') => (Returns zip_path, st')
          | (Net.RequestException _, st') =>
              try_sources net headers sources' zip_path (Net.sleep 2000 st')
          end
      end
  end.

Definition download_cuad_zip (net : nat → Net.response)
    (headers : nat → content_length) (st : Net.disk)
  : outcome string * Net.disk :=
  let zip_path := path_join TEMP_PATH "CUAD_v1.zip" in
  if zip_already_downloaded zip_path st then (Returns zip_path, st)
  else try_sources net headers CUAD_SOURCES zip_path st.

End Cuad.

(** ** Found documents of a filing directory

    [os.walk filing_path] is given as the list of its directories, each with
    its root path and its files; a file carries what [open] and [read] give:
    [None] when they raise, the text otherwise. *)
Module Walk.
Definition file : Type := string * option string.
Definition walk : Type := list (string * list file).
End Walk.

(** ** [download_fund_sec_filings.py] *)
Module FundFilings.
Import PyStr Walk.

Definition OUTPUT_PATH : string := "./fund_formation_matters".
Definition TEMP_PATH : string := "./sec_fund_filings".

Definition INVESTMENT_COMPANIES : list string :=
  [ "KKR"; "BX"; "APO"; "CG"; "ARES"; "OWL"; "TPG";
    "ARCC"; "MAIN"; "GBDC"; "HTGC"; "BXSL"; "OBDC"; "PSEC";
    "OAK"; "ORCC"; "TPVG" ].

Definition FILING_TYPES : list string := [ "8-K"; "10-K"; "S-1"; "S-11" ].

(** The local dict [keywords] of [find_fund_docs_in_filing]. *)
Definition keywords : list (string * list string) :=
  [ ("side_letter", ["side letter"; "side-letter"; "sideletter"]);
    ("lpa", ["limited partnership agreement"; "lp agreement"; "partnership agreement"]);
    ("subscription", ["subscription agreement"; "subscription document"]);
    ("ppm", ["private placement"; "offering memorandum"; "confidential memorandum"]);
    ("investment_mgmt", ["investment management agreement"; "advisory agreement"]) ].

(** [for kw in kw_list: if kw in content: ...; break]: [true] when the
    body is reached. *)
Fixpoint kw_list_hit (kw_list : list string) (content : string) : bool :=
  match kw_list with
  | [] => false
  | kw :: kw_list' => if str_in kw content then true else kw_list_hit kw_list' content
  end.

(** [for doc_type, kw_list in keywords.items()]: the [break] leaves the
    keyword loop only, the loop over the document types goes on. *)
Fixpoint scan_doc_types (items : list (string * list string))
    (filepath filename content : string)
    (fund_docs : list (string * string * string)) : list (string * string * string) :=
  match items with
  | [] => fund_docs
  | (doc_type, kw_list) :: items' =>
      if kw_list_hit kw_list content
      then scan_doc_types items' filepath filename content
             (fund_docs ++ [(filepath, doc_type, filename)])
      else scan_doc_types items' filepath filename content fund_docs
  end.

(** [for filename in files] *)
Fixpoint scan_files (root : string) (files : list file)
    (fund_docs : list (string * string * string)) : list (string * string * string) :=
  match files with
  | [] => fund_docs
  | (filename, data) :: files' =>
      let filepath := path_join root filename in
      if negb (endswith filename ".htm" || endswith filename ".html"
               || endswith filename ".txt")
      then scan_files root files' fund_docs
      else
        match data with
        | None => scan_files root files' fund_docs          (* except: continue *)
        | Some text =>
            let content := lower (read 50000 text) in
            scan_files root files'
              (scan_doc_types keywords filepath filename content fund_docs)
        end
  end.

(** [for root, dirs, files in os.walk(filing_path)] *)
Fixpoint scan_walk (w : walk) (fund_docs : list (string * string * string))
  : list (string * string * string) :=
  match w with
  | [] => fund_docs
  | (root, files) :: w' => scan_walk w' (scan_files root files fund_docs)
  end.

Definition find_fund_docs_in_filing (filing : walk) : list (string * string * string) :=
  scan_walk filing [].

(** *** [download_and_extract_fund_docs]

    What one [dl.get(filing_type, ticker, ...)] leaves on disk. *)
Inductive listing :=
  | GetRaises                 (* [dl.get] raises: caught, next filing type *)
  | NoTickerPath              (* [ticker_path] does not exist *)
  | Accessions (accessions : list (string * option walk)).
      (* [os.listdir]: each name with its walk when it is a directory *)

(** The output tree maps a destination path to the source file copied
    there; [total_found] is the dict of the counters. *)
Record extract := Extract {
  out_tree : gmap string string;
  total_found : list (string * nat)
}.

Definition init_total_found : list (string * nat) :=
  [ ("side_letter", 0); ("lpa", 0); ("subscription", 0); ("ppm", 0);
    ("investment_mgmt", 0) ].

(** The [if]/[elif] chain; [None] is the [else: continue]. *)
Definition out_folder_of (doc_type : string) : option string :=
  if decide (doc_type = "side_letter") then Some "Side_Letters"
  else if decide (doc_type = "lpa") then Some "LPAs"
  else if decide (doc_type = "subscription") then Some "Subscription_Agreements"
  else if decide (doc_type = "investment_mgmt") then Some "Investment_Mgmt_Agreements"
  else None.

Definition out_path_of (ticker accession out_folder filename : string) : string :=
  let out_name := ticker +:+ "_" +:+ str_take 10 accession +:+ "_" +:+ filename in
  path_join (path_join OUTPUT_PATH out_folder) out_name.

(** [for filepath, doc_type, filename in fund_docs].  The boolean tells
    whether an exception left the loop (the [KeyError] of
    [total_found[doc_type] += 1]); the state is the one reached by then. *)
Fixpoint copy_fund_docs (ticker accession : string)
    (fund_docs : list (string * string * string)) (st : extract) : extract * bool :=
  match fund_docs with
  | [] => (st, false)
  | (filepath, doc_type, filename) :: fund_docs' =>
      match out_folder_of doc_type with
      | None => copy_fund_docs ticker accession fund_docs' st
      | Some out_folder =>
          let out_path := out_path_of ticker accession out_folder filename in
          if bool_decide (is_Some (out_tree st !! out_path))
          then copy_fund_docs ticker accession fund_docs' st
          else
            let tree := <[out_path := filepath]> (out_tree st) in
            match PyDict.get doc_type (total_found st) with
            | None => ({| out_tree := tree; total_found := total_found st |}, true)
            | Some n =>
                copy_fund_docs ticker accession fund_docs'
                  {| out_tree := tree;
                     total_found := PyDict.set doc_type (n + 1) (total_found st) |}
            end
      end
  end.

(** [for accession in os.listdir(ticker_path)] *)
Fixpoint process_accessions (ticker : string)
    (accessions : list (string * option walk)) (st : extract) : extract * bool :=
  match accessions with
  | [] => (st, false)
  | (accession, None) :: accessions' => process_accessions ticker accessions' st
  | (accession, Some filing) :: accessions' =>
      let fund_docs := find_fund_docs_in_filing filing in
      let '(st', raised) := copy_fund_docs ticker accession fund_docs st in
      if raised then (st', true) else process_accessions ticker accessions' st'
  end.

(** The body of [for filing_type in FILING_TYPES], a [try] whose handler
    goes on with the next filing type. *)
Definition process_filing_type (disk : string → string → listing)
    (ticker filing_type : string) (st : extract) : extract :=
  match disk ticker filing_type with
  | GetRaises => st
  | NoTickerPath => st
  | Accessions accessions => (process_accessions ticker accessions st).1
  end.

Definition process_ticker (disk : string → string → listing)
    (ticker : string) (st : extract) : extract :=
  foldl (λ st filing_type, process_filing_type disk ticker filing_type st)
        st FILING_TYPES.

Definition download_and_extract_fund_docs (disk : string → string → listing)
    (tree : gmap string string) : extract :=
  foldl (λ st ticker, process_ticker disk ticker st)
        {| out_tree := tree; total_found := init_total_found |}
        INVESTMENT_COMPANIES.

End FundFilings.

(** ** [download_fund_sec_expanded.py] *)
Module FundExpanded.
Import PyStr Walk.

Definition FUND_DOC_KEYWORDS : list (string * list string) :=
  [ ("side_letter",
     ["side letter"; "side-letter"; "sideletter";
      "letter agreement"; "investor letter";
      "supplemental agreement"; "letter of understanding";
      "preferential terms"; "mfn"; "most favored nation"]);
    ("lpa",
     ["limited partnership agreement"; "lp agreement";
      "partnership agreement"; "agreement of limited partnership";
      "amended and restated limited partnership";
      "llc agreement"; "operating agreement of";
      "limited liability company agreement"]);
    ("subscription",
     ["subscription agreement"; "subscription document";
      "investor subscription"; "capital commitment agreement";
      "commitment agreement"; "joinder agreement"]);
    ("investment_mgmt",
     ["investment management agreement"; "investment advisory agreement";
      "advisory agreement"; "management agreement";
      "sub-advisory agreement"; "portfolio management"]);
    ("fund_admin",
     ["administration agreement"; "fund administration";
      "custodian agreement"; "custody agreement";
      "prime brokerage agreement"; "transfer agent"]);
    ("ppm",
     ["private placement memorandum"; "confidential memorandum";
      "offering memorandum"; "private offering";
      "confidential offering"; "information memorandum"]) ].

(** [for kw in kw_list: if ...: ...; break]: [true] when the body is
    reached. *)
Fixpoint kw_list_hit (kw_list : list string) (content filename_lower : string) : bool :=
  match kw_list with
  | [] => false
  | kw :: kw_list' =>
      if str_in kw content
         || str_in (replace_char " " "" kw) filename_lower
         || str_in (replace_char " " "-" kw) filename_lower
      then true
      else kw_list_hit kw_list' content filename_lower
  end.

(** [for doc_type, kw_list in FUND_DOC_KEYWORDS.items()] with its
    [else: continue] and [break  # Only classify as one type]. *)
Fixpoint scan_doc_types (items : list (string * list string))
    (filepath filename content filename_lower : string)
    (fund_docs : list (string * string * string)) : list (string * string * string) :=
  match items with
  | [] => fund_docs
  | (doc_type, kw_list) :: items' =>
      if kw_list_hit kw_list content filename_lower
      then if (5000 <? N.of_nat (String.length content))%N
           then fund_docs ++ [(filepath, doc_type, filename)]
           else fund_docs
      else scan_doc_types items' filepath filename content filename_lower fund_docs
  end.

Fixpoint scan_files (root : string) (files : list file)
    (fund_docs : list (string * string * string)) : list (string * string * string) :=
  match files with
  | [] => fund_docs
  | (filename, data) :: files' =>
      let filepath := path_join root filename in
      if negb (existsb (λ ext, endswith (lower filename) ext)
                       [".htm"; ".html"; ".txt"; ".xml"])
      then scan_files root files' fund_docs
      else if str_in "index" (lower filename) || startswith filename "."
      then scan_files root files' fund_docs
      else
        match data with
        | None => scan_files root files' fund_docs          (* except: continue *)
        | Some text =>
            let content := lower (read 100000 text) in
            let filename_lower := lower filename in
            scan_files root files'
              (scan_doc_types FUND_DOC_KEYWORDS filepath filename content
                 filename_lower fund_docs)
        end
  end.

Fixpoint scan_walk (w : walk) (fund_docs : list (string * string * string))
  : list (string * string * string) :=
  match w with
  | [] => fund_docs
  | (root, files) :: w' => scan_walk w' (scan_files root files fund_docs)
  end.

Definition find_fund_docs_in_filing (filing : walk) : list (string * string * string) :=
  scan_walk filing [].

End FundExpanded.

(** ** [download_fund_formation.py] *)
Module FundFormation.
Import PyStr Net.

Definition OUTPUT_PATH : string := "./fund_formation_matters".
Definition UVA_BASE_URL : string :=
  "https://legaldatalab.law.virginia.edu/hedge_funds/pdf".

Definition UVA_DOCUMENTS : list (string * list (string * string)) :=
  [ ("Operating_Agreements",
     [
       ("Amaranth_Partners", "oa/Amaranth_2003.pdf");
       ("Bear_Stearns_High_Grade_Structured_Credit", "oa/Bear_Stearns_High-Grade_Structured_Credit_Strategies_Master_Fund.pdf");
       ("Bear_Stearns_Leveraged_2x", "oa/Bear_Stearns_High-Grade_Structured_Credit_Strategies_Leveraged_2x_Master_Fund.pdf");
       ("Exponential_Returns", "oa/Exponential_Returns.pdf");
       ("FM_Multi_Strategy", "oa/FM_MULTI-STRATEGY_INVESTMENT_FUND.pdf");
       ("Genesis_Market_Neutral", "oa/Genesis_Market_Neutral_Index_Fund.pdf");
       ("Integral_Arbitrage", "oa/Integral_Arbitrage.pdf");
       ("Integral_Hedging", "oa/Integral_Hedging.pdf");
       ("Jade_Trading", "oa/Jade_Trading.pdf");
       ("Lancer_Offshore", "oa/Lancer_Offshore.pdf");
       ("Last_Atlantis", "oa/Last_Atlantis.pdf");
       ("Lipco_Partners", "oa/Lipco_Partners.pdf");
       ("LSPV", "oa/LSPV.pdf");
       ("Mercator_Momentum", "oa/Mercator_Momentum_Fund.pdf");
       ("Paramount_Partners", "oa/Paramount_Partners.pdf");
       ("Rye_Select_Broad_Market_XL_Fund", "oa/Rye_Select_Broad_Market_XL_Fund.pdf");
       ("Rye_Select_Broad_Market_XL_Portfolio", "oa/Rye_Select_Broad_Market_XL_Portfolio_Ltd.pdf");
       ("Securion_I", "oa/Securion_I.pdf");
       ("Sum_It_Investments", "oa/Sum-It_Investments.pdf");
       ("Vestium_Equity_Funds", "oa/Vestium_Equity_Funds.pdf") ]);
    ("Private_Placement_Memos",
     [
       ("Amaranth_Partners_2006", "ppm/Amaranth_2006.pdf");
       ("Apex_Equity_Options", "ppm/Apex_Equity_Option_Funds.pdf");
       ("Ark_Discovery_Fund", "ppm/Ark_Discovery_Fund.pdf");
       ("Exponential_Returns_1996", "ppm/Exponential_Returns.pdf");
       ("Fairfield_Sentry_2003", "ppm/Fairfield_Sentry_2003.pdf");
       ("Fairfield_Sentry_2004", "ppm/Fairfield_Sentry_2004.pdf");
       ("Fairfield_Sentry_2006", "ppm/Fairfield_Sentry.pdf");
       ("Fairfield_Sigma_2008", "ppm/Fairfield_Sigma.pdf");
       ("Finvest_Primer_2005", "ppm/Finvest_Primer.pdf");
       ("Finvest_Yankee_2007", "ppm/Finvest_Yankee.pdf");
       ("First_Frontier_1999", "ppm/First_Frontier.pdf");
       ("FM_Multi_Strategy_2000", "ppm/FM_MULTI-STRATEGY_INVESTMENT_FUND.pdf");
       ("Genesis_Market_Neutral_1998", "ppm/Genesis_Market_Neutral_Index_Fund.pdf");
       ("Greenwich_Sentry_Partners_2006", "ppm/Greenwich_Sentry_Partners.pdf");
       ("Greenwich_Sentry_1998", "ppm/Greenwich_Sentry_1998.pdf");
       ("Greenwich_Sentry_2006", "ppm/Greenwich_Sentry_2006.pdf");
       ("Income_Plus_2003", "ppm/Income-Plus_Investment_Fund_2003.pdf");
       ("Income_Plus_1993", "ppm/Income-Plus_Investment_Fund.pdf");
       ("Integral_Arbitrage_2001", "ppm/Integral_Arbitrage.pdf");
       ("Integral_Hedging_1999", "ppm/Integral_Hedging.pdf");
       ("Lancer_Offshore_2002", "ppm/Lancer Offshore.pdf");
       ("Lancer_Partners_2001", "ppm/Lancer_Partners.pdf");
       ("Last_Atlantis_2007", "ppm/Last_Atlantis.pdf");
       ("Lipper_Convertibles_1997", "ppm/Lipper_Convertibles_1997.pdf");
       ("Lipper_Convertibles_2000", "ppm/Lipper_Convertibles_2000.pdf");
       ("Mayur_2008", "ppm/Mayur.pdf");
       ("MDL_Active_Duration_2003", "ppm/MDL_Active_Duration_Fund_2003-1.pdf");
       ("Mercator_Momentum_2006", "ppm/Mercator_Momentum_Fund.pdf");
       ("Omnifund_2002", "ppm/Omnifund.pdf");
       ("Paramount_Partners_2005", "ppm/Paramount_Partners_2005.pdf");
       ("Paramount_Partners_2007", "ppm/Paramount_Partners_2007.pdf");
       ("Rye_Select_XL_Fund_2007", "ppm/Rye_Select_Broad_Market_XL_Fund.pdf");
       ("Rye_Select_XL_Portfolio_2008", "ppm/Rye_Select_Broad_Market_XL_Portfolio_Ltd.pdf");
       ("Securion_I_2007", "ppm/Securion_I.pdf");
       ("Sum_It_Investments_2000", "ppm/Sum-It_Investments.pdf");
       ("Vestium_Equity_2008", "ppm/Vestium_Equity_Funds.pdf") ]) ].

(** [for attempt in range(max_retries)]; [url] is reassigned in the
    body, so it is carried from one attempt to the next. *)
Fixpoint download_attempts (net : nat → response) (max_retries : nat)
    (attempts : list nat) (url dest_path : string) (st : disk) : bool * disk :=
  match attempts with
  | [] => (false, st)
  | attempt :: attempts' =>
      let url := if has_char " " url then replace_char " " "%20" url else url in
      match fetch net url dest_path st with
      | (Body _, st') => (true, st')
      | (RequestException _, st') =>
          if attempt <? max_retries - 1
          then download_attempts net max_retries attempts' url dest_path
                 (sleep 2000 st')
          else (false, st')
      end
  end.

Definition download_file (net : nat → response) (url dest_path : string)
    (st : disk) : bool * disk :=
  let max_retries := 3 in
  download_attempts net max_retries (seq 0 max_retries) url dest_path st.

(** The body of [for name, path in documents]. *)
Definition download_uva_document (net : nat → response) (folder_path : string)
    (document : string * string) (acc : nat * disk) : nat * disk :=
  let '(name, path) := document in
  let '(total_downloaded, st) := acc in
  let url := UVA_BASE_URL +:+ "/" +:+ path in
  let ext := (splitext path).2 in
  let dest_file := path_join folder_path (name +:+ ext) in
  if bool_decide (is_Some (tree st !! dest_file)) then
    (total_downloaded + 1, st)                                  (* continue *)
  else
    let '(ok, st') := download_file net url dest_file st in
    ((if ok then total_downloaded + 1 else total_downloaded), sleep 500 st').

(** [for doc_type, documents in table.items()] *)
Definition download_documents (net : nat → response)
    (table : list (string * list (string * string))) (st : disk) : nat * disk :=
  foldl (λ acc item,
           let folder_path := path_join OUTPUT_PATH item.1 in
           foldl (λ acc document, download_uva_document net folder_path document acc)
                 acc item.2)
        (0, st) table.

Definition download_uva_documents (net : nat → response) (st : disk) : nat * disk :=
  download_documents net UVA_DOCUMENTS st.

End FundFormation.

(** ** [download_sec_side_letters.py] *)
Module SideLetters.

(** One search result, the dict with the keys ['url'], ['company'], ['form']. *)
Record result := Result { url : string; company : string; form : string }.

(** [for r in all_results] of "Deduplicate by URL". *)
Fixpoint dedupe_loop (all_results : list result) (seen_urls : gset string)
    (unique_results : list result) : gset string * list result :=
  match all_results with
  | [] => (seen_urls, unique_results)
  | r :: all_results' =>
      if decide (url r ∈ seen_urls)
      then dedupe_loop all_results' seen_urls unique_results
      else dedupe_loop all_results' ({[url r]} ∪ seen_urls) (unique_results ++ [r])
  end.

Definition dedupe (all_results : list result) : list result :=
  (dedupe_loop all_results ∅ []).2.

(** The first occurrence of every distinct URL, in the order of the
    first occurrences. *)
Fixpoint first_occurrences (results : list result) : list result :=
  match results with
  | [] => []
  | r :: results' =>
      r :: filter (λ r', url r' ≠ url r) (first_occurrences results')
  end.

End SideLetters.

(** ** What the statements about the allocator of [main] speak of *)
Module Allocator.
Import PyStr Cuad.

(** The practice areas, in the order of the dict. *)
Definition AREAS : list string := PyDict.keys PRACTICE_AREA_MAPPINGS.

(** At most this many documents are allocated to one practice area. *)
Definition AREA_CAPACITY : nat := TARGET_MATTERS_PER_AREA * DOCS_PER_MATTER.

(** The items of a dict of matters numbered from [start]. *)
Fixpoint numbered (start : nat) (buckets : list (list string))
  : list (nat * list string) :=
  match buckets with
  | [] => []
  | b :: buckets' => (start, b) :: numbered (S start) buckets'
  end.

(** The matter that is being filled, if a document is in it. *)
Definition open_bucket (partial : list string) : list (list string) :=
  match partial with [] => [] | _ => [partial] end.

(** What the loop maintains for one practice area: [full] are the matters
    closed and saved so far, [partial] is the content of the open one and
    [allocated] are the documents appended to the matters of the area. *)
Record area_ok (area : string) (st : alloc) (allocated : list string)
    (full : list (list string)) (partial : list string) : Prop := {
  ok_count : PyDict.get area (matter_counts st) = Some (length full);
  ok_docs : PyDict.get area (matter_docs st)
            = Some (numbered 1 (full ++ open_bucket partial));
  ok_saved : saved_in area (saved st) = numbered 1 full;
  ok_full : Forall (λ b, length b = DOCS_PER_MATTER) full;
  ok_partial : length partial < DOCS_PER_MATTER;
  ok_target : length full ≤ TARGET_MATTERS_PER_AREA;
  ok_closed : length full = TARGET_MATTERS_PER_AREA → partial = [];
  ok_allocated : concat full ++ partial = allocated
}.

(** The invariant of [for pdf_path in pdf_files], after the files [pre]. *)
Definition loop_inv (pre : list string) (st : alloc) : Prop :=
  PyDict.keys (matter_counts st) = AREAS ∧
  PyDict.keys (matter_docs st) = AREAS ∧
  (∀ area, area ∉ AREAS → saved_in area (saved st) = []) ∧
  ∀ area, area ∈ AREAS →
    ∃ full partial,
      area_ok area st (take AREA_CAPACITY (classified_into area pre)) full partial.

(** The state after the open matter of [area], if any, was flushed. *)
Definition flushed_area (area : string) (full : list (list string))
    (partial : list string) (st : alloc) : alloc :=
  match partial with
  | [] => st
  | _ =>
      {| matter_counts := PyDict.set area (S (length full)) (matter_counts st);
         matter_docs := matter_docs st;
         processed := processed st;
         saved := saved st ++ [(area, S (length full), partial)];
         out_tree := save_matter area (S (length full)) partial OUTPUT_PATH
                       (out_tree st) |}
  end.

(** The number of documents in the saved matters of a practice area. *)
Definition documents_saved (area : string) (fin : alloc) : nat :=
  sum_list (length <$> (saved_in area (saved fin)).*2).

(** Forty-six PDF files that no keyword matches. *)
Definition forty_six_documents : list string :=
  (λ i, "CUAD_v1/doc" +:+ pretty i +:+ ".pdf") <$> seq 0 46.

(** A CUAD folder with two documents, saved twice. *)
Definition two_documents : list string := ["CUAD_v1/doc0.pdf"; "CUAD_v1/doc1.pdf"].

(** Two documents of one matter, the second named as [save_matter] would
    rename the first. *)
Definition colliding_documents : list string := ["d/x.pdf"; "d/x_0.pdf"].

End Allocator.

(** ** The copies a run of the extractor asks for *)
Module Rerun.
Import PyStr Walk FundFilings.

(** [if not os.path.exists(out_path): shutil.copy2(filepath, out_path)] *)
Definition gated_copy (tree : gmap string string) (op : string * string)
  : gmap string string :=
  if bool_decide (is_Some (tree !! op.1)) then tree else <[op.1 := op.2]> tree.

(** The copies (destination, source) that a list of found documents asks for. *)
Definition planned_docs (ticker accession : string)
    (fund_docs : list (string * string * string)) : list (string * string) :=
  omap (λ doc, (λ out_folder,
                  (out_path_of ticker accession out_folder doc.2, doc.1.1))
               <$> out_folder_of doc.1.2) fund_docs.

Definition planned_accessions (ticker : string)
    (accessions : list (string * option walk)) : list (string * string) :=
  mjoin ((λ acc, match acc.2 with
                 | Some filing =>
                     planned_docs ticker acc.1 (find_fund_docs_in_filing filing)
                 | None => []
                 end) <$> accessions).

Definition planned_filing_type (disk : string → string → listing)
    (ticker filing_type : string) : list (string * string) :=
  match disk ticker filing_type with
  | Accessions accessions => planned_accessions ticker accessions
  | _ => []
  end.

Definition planned (disk : string → string → listing) : list (string * string) :=
  mjoin ((λ ticker, mjoin (planned_filing_type disk ticker <$> FILING_TYPES))
         <$> INVESTMENT_COMPANIES).

(** [f] performs the gated copies [ops], keeps the keys of the counters
    and changes nothing when every destination exists. *)
Definition copies (f : extract → extract) (ops : list (string * string)) : Prop :=
  ∀ st, PyDict.keys (total_found st) = PyDict.keys init_total_found →
        out_tree (f st) = foldl gated_copy (out_tree st) ops ∧
        PyDict.keys (total_found (f st)) = PyDict.keys init_total_found ∧
        (Forall (λ op, is_Some (out_tree st !! op.1)) ops → f st = st).

End Rerun.

(** ** The files of a filing directory *)
Module Filing.
Import PyStr Walk.

(** The paths of the files of a filing directory, as [os.walk] lists them. *)
Definition walk_paths (filing : walk) : list string :=
  mjoin ((λ dir, path_join dir.1 <$> dir.2.*1) <$> filing).

(** An exhibit that mentions two kinds of fund documents. *)
Definition side_letter_exhibit : walk :=
  [ ("./sec_fund_filings/sec-edgar-filings/KKR/8-K/0001193125-22-057998",
     [ ("ex10-3.htm",
        Some "This Side Letter supplements the Subscription Agreement of the Investor.") ]) ].

End Filing.

(** ** First occurrences *)
Module FirstOccurrence.
Import SideLetters.

(** [r] stands in [results] at a place before which its URL does not occur. *)
Definition first_with_its_url (results : list result) (r : result) : Prop :=
  ∃ i, results !! i = Some r ∧
       ∀ j r', j < i → results !! j = Some r' → url r' ≠ url r.

End FirstOccurrence.

(** ** Attempts and their trace *)
Module Retry.
Import PyStr Net.

Definition is_body (r : response) : bool :=
  match r with Body _ => true | RequestException _ => false end.

(** The number of failed attempts before the first one that succeeds,
    among the [attempts] answers from request [request] on. *)
Fixpoint first_success (net : nat → response) (request attempts : nat) : option nat :=
  match attempts with
  | 0 => None
  | S attempts' =>
      if is_body (net request) then Some 0
      else S <$> first_success net (S request) attempts'
  end.

(** A request, then [retries] times a sleep of two seconds and a request. *)
Definition retry_trace (url : string) (retries : nat) : list event :=
  Get url :: mjoin (replicate retries [Sleep 2000; Get url]).

(** [if ' ' in url: url = url.replace(' ', '%20')] *)
Definition quote_spaces (url : string) : string :=
  if has_char " " url then replace_char " " "%20" url else url.

(** The header is absent or a text that [int] accepts. *)
Definition int_accepts (header : Cuad.content_length) : bool :=
  match header with
  | Cuad.NotAnInteger _ => false
  | _ => true
  end.

(** The first answer carries the header twice, which reaches the script
    as the text [42, 42]; the other answers carry an integer. *)
Definition repeated_length (request : nat) : Cuad.content_length :=
  if request =? 0 then Cuad.NotAnInteger "42, 42" else Cuad.Integer 42.

End Retry.

(** ** The rest of [download_cuad_contracts.py] *)
Module CuadFiles.
Import PyStr Cuad.

(** *** [sanitize_filename]

    The character classes are those of [re] on the code points below 256. *)

(** The class of the first [re.sub]: less-than, greater-than, colon, double
    quote, slash, backslash, bar, question mark and asterisk. *)
Definition is_forbidden (c : ascii) : bool :=
  bool_decide (c ∈ [ "<"; ">"; ":"; ascii_of_nat 34; "/"; "\"; "|"; "?"; "*" ]%char).

(** The class [\s]. *)
Definition is_space (c : ascii) : bool :=
  bool_decide (nat_of_ascii c ∈ [9; 10; 11; 12; 13; 28; 29; 30; 31; 32; 133; 160]).

(** [re.sub(class, '', s)] *)
Fixpoint remove_chars (class : ascii → bool) (s : string) : string :=
  match s with
  | EmptyString => EmptyString
  | String c s' =>
      if class c then remove_chars class s' else String c (remove_chars class s')
  end.

(** [re.sub(r'\s+', '_', s)]: a run of white space becomes one underscore;
    [in_run] tells that the character before was white space. *)
Fixpoint collapse_spaces (in_run : bool) (s : string) : string :=
  match s with
  | EmptyString => EmptyString
  | String c s' =>
      if is_space c
      then if in_run then collapse_spaces true s' else String "_" (collapse_spaces true s')
      else String c (collapse_spaces false s')
  end.

Fixpoint lstrip_char (a : ascii) (s : string) : string :=
  match s with
  | EmptyString => EmptyString
  | String c s' => if decide (c = a) then lstrip_char a s' else s
  end.

(** [s.strip(a)] for a one-character [a]. *)
Definition strip_char (a : ascii) (s : string) : string :=
  String.rev (lstrip_char a (String.rev (lstrip_char a s))).

Definition sanitize_filename (name : string) : string :=
  let safe := remove_chars is_forbidden name in
  let safe := collapse_spaces false safe in
  let safe := strip_char "_" safe in
  if bool_decide (safe = EmptyString) then "contract" else str_take 80 safe.

(** *** [find_files]

    [os.walk(extract_path)] is given as the list of its directories, each
    with its root and the names of its files. *)

(** [sorted(files)]: strings are compared character by character. *)
Definition sorted (files : list string) : list string := merge_sort String.le files.

(** [for filename in filenames] *)
Fixpoint find_in_dir (root : string) (filenames extensions files : list string)
  : list string :=
  match filenames with
  | [] => files
  | filename :: filenames' =>
      let ext := lower (splitext filename).2 in
      if bool_decide (ext ∈ extensions)
      then find_in_dir root filenames' extensions (files ++ [path_join root filename])
      else find_in_dir root filenames' extensions files
  end.

(** [for root, dirs, filenames in os.walk(extract_path)] *)
Fixpoint find_in_walk (w : list (string * list string)) (extensions files : list string)
  : list string :=
  match w with
  | [] => files
  | (root, filenames) :: w' =>
      find_in_walk w' extensions (find_in_dir root filenames extensions files)
  end.

Definition find_files (w : list (string * list string))
    (extensions : option (list string)) : list string :=
  let extensions :=
    match extensions with
    | None => [".pdf"; ".docx"; ".doc"; ".txt"]
    | Some extensions => extensions
    end in
  sorted (find_in_walk w extensions []).

(** *** The summary of [main]

    [for area, count in matter_counts.items()]: the documents of the areas
    with a matter are added up into [total_docs]. *)
Fixpoint summary_total (counts : list (string * nat)) (st : alloc) (total_docs : nat)
  : option nat :=
  match counts with
  | [] => Some total_docs
  | (area, count) :: counts' =>
      if 0 <? count then
        area_docs ← PyDict.get area (matter_docs st);
        summary_total counts' st
          (total_docs + sum_list (length <$> PyDict.values area_docs))
      else summary_total counts' st total_docs
  end.

Definition total_documents (st : alloc) : option nat :=
  summary_total (PyDict.items (matter_counts st)) st 0.

(** *** What the statements speak of *)

(** The files that [find_files] is to return, in the order of the walk. *)
Definition matching_files (w : list (string * list string)) (extensions : list string)
  : list string :=
  mjoin ((λ dir, path_join dir.1
                   <$> filter (λ filename, lower (splitext filename).2 ∈ extensions)
                              dir.2) <$> w).

(** The output tree after the calls of [save_matter], oldest first. *)
Definition replay (calls : list (string * nat * list string))
    (tree : gmap string string) : gmap string string :=
  foldl (λ tree call, save_matter call.1.1 call.1.2 call.2 OUTPUT_PATH tree) tree calls.

(** Every character of [s] satisfies [P]. *)
Fixpoint str_all (P : ascii → bool) (s : string) : bool :=
  match s with
  | EmptyString => true
  | String c s' => P c && str_all P s'
  end.

(** Three documents of one folder. *)
Definition three_documents : list string :=
  ["CUAD_v1/Part_I/License.pdf"; "CUAD_v1/Part_I/Supply.pdf"; "CUAD_v1/Part_II/Loan.pdf"].

End CuadFiles.

(** ** The rest of [download_fund_sec_expanded.py]: [get_output_folder] *)
Module ExpandedFolders.
Import PyStr Walk FundExpanded.

(** The local dict [mapping]. *)
Definition mapping : list (string * string) :=
  [ ("side_letter", "Side_Letters");
    ("lpa", "LPAs");
    ("subscription", "Subscription_Agreements");
    ("investment_mgmt", "Investment_Mgmt_Agreements");
    ("fund_admin", "Fund_Admin_Agreements");
    ("ppm", "Private_Placement_Memos_SEC") ].

(** [mapping.get(doc_type, 'Other_Fund_Docs')] *)
Definition get_output_folder (doc_type : string) : string :=
  default "Other_Fund_Docs" (PyDict.get doc_type mapping).

(** The entry of a found document stems from a file of the walk that was
    read, passed the filters on its name and gave more than 5000
    characters, and its type is a key of [FUND_DOC_KEYWORDS]. *)
Definition found_in (filing : walk) (entry : string * string * string) : Prop :=
  ∃ root files text,
    (root, files) ∈ filing ∧ (entry.2, Some text) ∈ files ∧
    entry.1.1 = path_join root entry.2 ∧
    existsb (λ ext, endswith (lower entry.2) ext) [".htm"; ".html"; ".txt"; ".xml"] = true ∧
    str_in "index" (lower entry.2) = false ∧
    startswith entry.2 "." = false ∧
    (5000 < N.of_nat (String.length (lower (read 100000 text))))%N ∧
    entry.1.2 ∈ PyDict.keys FUND_DOC_KEYWORDS.

End ExpandedFolders.

(** ** The rest of [download_fund_formation.py] *)
Module FormationRuns.
Import PyStr Net FundFormation.

Definition SEC_EDGAR_DOCUMENTS : list (string * list (string * string)) :=
  [ ("Side_Letters",
     [ ("Side_Letter_Example_1",
        "https://www.sec.gov/Archives/edgar/data/1096934/000072174816001857/site1229168kex10_2.htm");
       ("Side_Letter_TPG",
        "https://www.sec.gov/Archives/edgar/data/1880661/000119312522057998/d278498dex103.htm") ]);
    ("LPAs",
     [ ("LPA_Master_Fund_Example",
        "https://www.sec.gov/Archives/edgar/data/1597218/000119312514060638/d667770dex99a1.htm");
       ("LPA_Fund_Example_2",
        "https://www.sec.gov/Archives/edgar/data/1597220/000119312514060680/d667850dex99a1.htm") ]);
    ("Subscription_Agreements", []) ].

Definition ILPA_DOCUMENTS : list (string * list (string * string)) :=
  [ ("Model_LPAs",
     [ ("ILPA_Model_LPA_Whole_of_Fund",
        "https://ilpa.org/wp-content/uploads/2023/09/ILPA-Model-LPA-Whole-of-Fund-Word.docx");
       ("ILPA_Model_LPA_Deal_by_Deal",
        "https://ilpa.org/wp-content/uploads/2023/09/ILPA-Model-LPA-Deal-by-Deal-Word.docx") ]) ].

(** The body of [for name, url in documents] of [download_sec_documents]. *)
Definition download_sec_document (net : nat → response) (folder_path : string)
    (document : string * string) (acc : nat * disk) : nat * disk :=
  let '(name, url) := document in
  let '(total_downloaded, st) := acc in
  let ext :=
    if endswith url ".htm" || endswith url ".html" then ".html"
    else if endswith url ".pdf" then ".pdf"
    else ".html" in
  let dest_file := path_join folder_path (name +:+ ext) in
  if bool_decide (is_Some (tree st !! dest_file)) then
    (total_downloaded + 1, st)                                  (* continue *)
  else
    let '(ok, st') := download_file net url dest_file st in
    ((if ok then total_downloaded + 1 else total_downloaded), sleep 1000 st').

(** [for doc_type, documents in SEC_EDGAR_DOCUMENTS.items()], with its
    [if not documents: continue]. *)
Definition download_sec_documents (net : nat → response) (st : disk) : nat * disk :=
  foldl (λ acc item,
           if bool_decide (item.2 = []) then acc
           else
             let folder_path := path_join OUTPUT_PATH item.1 in
             foldl (λ acc document, download_sec_document net folder_path document acc)
                   acc item.2)
        (0, st) SEC_EDGAR_DOCUMENTS.

(** The body of [for name, url in documents] of [download_ilpa_documents]. *)
Definition download_ilpa_document (net : nat → response) (folder_path : string)
    (document : string * string) (acc : nat * disk) : nat * disk :=
  let '(name, url) := document in
  let '(total_downloaded, st) := acc in
  let ext := (splitext url).2 in
  let dest_file := path_join folder_path (name +:+ ext) in
  if bool_decide (is_Some (tree st !! dest_file)) then
    (total_downloaded + 1, st)                                  (* continue *)
  else
    let '(ok, st') := download_file net url dest_file st in
    ((if ok then total_downloaded + 1 else total_downloaded), sleep 500 st').

Definition download_ilpa_documents (net : nat → response) (st : disk) : nat * disk :=
  foldl (λ acc item,
           let folder_path := path_join OUTPUT_PATH item.1 in
           foldl (λ acc document, download_ilpa_document net folder_path document acc)
                 acc item.2)
        (0, st) ILPA_DOCUMENTS.

(** [main]: the three downloads one after the other; the number is the
    total that the summary prints. *)
Definition main (net : nat → response) (st : disk) : nat * disk :=
  let '(uva_count, st) := download_uva_documents net st in
  let '(sec_count, st) := download_sec_documents net st in
  let '(ilpa_count, st) := download_ilpa_documents net st in
  (uva_count + sec_count + ilpa_count, st).

(** *** What the statements speak of *)

(** What a failed request leaves at the destination. *)
Definition written (dest_path : string) (answer : response)
    (tree : gmap string string) : gmap string string :=
  match answer with
  | RequestException (Some data) => <[dest_path := data]> tree
  | _ => tree
  end.

(** A listed document as the loops treat it: the pause after a download,
    the URL and the destination. *)
Definition uva_jobs (table : list (string * list (string * string)))
  : list (nat * string * string) :=
  mjoin ((λ item,
            (λ document,
               (500, UVA_BASE_URL +:+ "/" +:+ document.2,
                path_join (path_join OUTPUT_PATH item.1)
                          (document.1 +:+ (splitext document.2).2)))
            <$> item.2) <$> table).

Definition sec_jobs (table : list (string * list (string * string)))
  : list (nat * string * string) :=
  mjoin ((λ item,
            (λ document,
               (1000, document.2,
                path_join (path_join OUTPUT_PATH item.1)
                          (document.1 +:+
                             (if endswith document.2 ".pdf"
                                 && negb (endswith document.2 ".htm"
                                          || endswith document.2 ".html")
                              then ".pdf" else ".html"))))
            <$> item.2) <$> table).

Definition ilpa_jobs (table : list (string * list (string * string)))
  : list (nat * string * string) :=
  mjoin ((λ item,
            (λ document,
               (500, document.2,
                path_join (path_join OUTPUT_PATH item.1)
                          (document.1 +:+ (splitext document.2).2)))
            <$> item.2) <$> table).

(** All the documents that [main] goes through, in its order. *)
Definition all_jobs : list (nat * string * string) :=
  uva_jobs UVA_DOCUMENTS ++ sec_jobs SEC_EDGAR_DOCUMENTS ++ ilpa_jobs ILPA_DOCUMENTS.

(** One listed document: skipped and counted when its destination exists,
    else fetched, counted when the download succeeds, and followed by the
    pause. *)
Definition download_job (net : nat → response) (job : nat * string * string)
    (acc : nat * disk) : nat * disk :=
  if bool_decide (is_Some (tree acc.2 !! job.2)) then (acc.1 + 1, acc.2)
  else
    let result := download_file net job.1.2 job.2 acc.2 in
    ((if result.1 then acc.1 + 1 else acc.1), sleep job.1.1 result.2).

Definition run_jobs (net : nat → response) (jobs : list (nat * string * string))
    (acc : nat * disk) : nat * disk :=
  foldl (λ acc job, download_job net job acc) acc jobs.

(** The destinations of [jobs] that exist in [tree], and those that do not. *)
Definition on_disk (tree : gmap string string) (jobs : list (nat * string * string))
  : list (nat * string * string) :=
  filter (λ job, is_Some (tree !! job.2)) jobs.

Definition missing (tree : gmap string string) (jobs : list (nat * string * string))
  : list (nat * string * string) :=
  filter (λ job, tree !! job.2 = None) jobs.

(** A disk on which every listed document is there. *)
Definition complete_disk : disk :=
  {| tree := list_to_map ((λ job, (job.2, "%PDF")) <$> all_jobs);
     clock := 0; trace := [] |}.

End FormationRuns.

(** ** The rest of [download_sec_side_letters.py]

    The answer to a search is given by a second oracle on the same request
    clock.  A hit is read through the three keys of its [_source] that the
    code uses; [None] is a key that is absent (a hit without [_source] has
    all three absent), and [display_names] is a list of strings. *)
Module Edgar.
Import PyStr Net SideLetters CuadFiles.

Definition OUTPUT_PATH : string := "./fund_formation_matters".

Record hit := Hit {
  file_url : option string;
  hit_form : option string;
  display_names : option (list string)
}.

(** [requests.get] or [response.json()] raises, or the answer has a status
    code and, read as JSON, the list [data.get('hits', {}).get('hits', [])]. *)
Inductive search_answer :=
  | SearchRaises
  | SearchStatus (status_code : nat) (hits : list hit).

(** [for hit in hits]; the subscript [0] of an empty [display_names] raises
    IndexError, which the handler around the loop catches: the function
    then returns the results it has. *)
Fixpoint collect_hits (hits : list hit) (results : list result) : list result :=
  match hits with
  | [] => results
  | hit :: hits' =>
      let file_url := default EmptyString (file_url hit) in
      let form_type := default EmptyString (hit_form hit) in
      match default [EmptyString] (display_names hit) with
      | [] => results
      | company :: _ =>
          collect_hits hits'
            (if bool_decide (file_url = EmptyString) then results
             else results ++ [ {| url := "https://www.sec.gov" +:+ file_url;
                                  company := company;
                                  form := form_type |} ])
      end
  end.

Definition search_url : string := "https://efts.sec.gov/LATEST/search-index".

(** One request; its parameters ([query], the form types, the size) are
    not recorded in the trace. *)
Definition search_edgar_fulltext (search : nat → search_answer) (query : string)
    (st : disk) : list result * disk :=
  let st' := {| tree := tree st; clock := S (clock st);
                trace := trace st ++ [Get search_url] |} in
  match search (clock st) with
  | SearchStatus status_code hits =>
      if bool_decide (status_code = 200) then (collect_hits hits [], st')
      else ([], st')
  | SearchRaises => ([], st')
  end.

(** [response.content] is read before the file is opened: a request that
    fails writes nothing. *)
Definition download_with_sec_headers (net : nat → response) (url dest_path : string)
    (st : disk) : bool * disk :=
  match net (clock st) with
  | Body data =>
      (true, {| tree := <[dest_path := data]> (tree st); clock := S (clock st);
                trace := trace st ++ [Get url] |})
  | RequestException _ =>
      (false, {| tree := tree st; clock := S (clock st);
                 trace := trace st ++ [Get url] |})
  end.

(** The class [\w] of [re] on the code points below 256. *)
Definition is_word (c : ascii) : bool :=
  let n := nat_of_ascii c in
  ((48 <=? n) && (n <=? 57)) || ((65 <=? n) && (n <=? 90)) || (n =? 95)
  || ((97 <=? n) && (n <=? 122))
  || bool_decide (n ∈ [170; 178; 179; 181; 185; 186; 188; 189; 190])
  || ((192 <=? n) && (n <=? 214)) || ((216 <=? n) && (n <=? 246))
  || ((248 <=? n) && (n <=? 255)).

(** [result['company'][:30].replace(' ', '_').replace(',', '')] and then
    [re.sub] of every character that is neither in [\w] nor a hyphen. *)
Definition clean_company (company : string) : string :=
  let company := replace_char "," EmptyString
                   (replace_char " " "_" (str_take 30 company)) in
  remove_chars (λ c, negb (is_word c || bool_decide (c = "-"%char))) company.

(** [for query in queries]: the results are appended, a second of sleep
    follows every search. *)
Definition search_queries (search : nat → search_answer) (queries : list string)
    (st : disk) : list result * disk :=
  foldl (λ acc query,
           let '(results, st') := search_edgar_fulltext search query acc.2 in
           (acc.1 ++ results, sleep 1000 st'))
        ([], st) queries.

(** [enumerate(l)] *)
Fixpoint enumerate {A} (start : nat) (l : list A) : list (nat * A) :=
  match l with
  | [] => []
  | x :: l' => (start, x) :: enumerate (S start) l'
  end.

(** The body of [for i, result in enumerate(unique_results[:top])]. *)
Definition download_result (net : nat → response) (folder_path prefix : string)
    (acc : nat * disk) (numbered : nat * result) : nat * disk :=
  let '(i, result) := numbered in
  let '(downloaded, st) := acc in
  let company := clean_company (company result) in
  let filename := prefix +:+ company +:+ "_" +:+ pretty (i + 1) +:+ ".html" in
  let dest_path := path_join folder_path filename in
  let '(ok, st') := download_with_sec_headers net (url result) dest_path st in
  ((if ok then downloaded + 1 else downloaded), sleep 1000 st').

(** The three functions [search_and_download_...] have this body, each
    with its folder, its file name prefix, its queries and the number of
    results it downloads. *)
Definition search_and_download (search : nat → search_answer) (net : nat → response)
    (folder prefix : string) (queries : list string) (top : nat) (st : disk)
  : nat * disk :=
  let folder_path := path_join OUTPUT_PATH folder in
  let '(all_results, st) := search_queries search queries st in
  let unique_results := dedupe all_results in
  foldl (download_result net folder_path prefix) (0, st)
        (enumerate 0 (take top unique_results)).

(** A phrase of a query, between double quotes. *)
Definition quoted (phrase : string) : string :=
  String (ascii_of_nat 34) (phrase +:+ String (ascii_of_nat 34) EmptyString).

Definition search_and_download_side_letters (search : nat → search_answer)
    (net : nat → response) (st : disk) : nat * disk :=
  search_and_download search net "Side_Letters" "Side_Letter_"
    [ quoted "side letter" +:+ " " +:+ quoted "limited partner";
      quoted "form of side letter";
      quoted "side letter agreement" +:+ " investor" ] 20 st.

Definition search_and_download_lpas (search : nat → search_answer)
    (net : nat → response) (st : disk) : nat * disk :=
  search_and_download search net "LPAs" "LPA_"
    [ quoted "limited partnership agreement" +:+ " " +:+ quoted "private equity";
      quoted "limited partnership agreement" +:+ " " +:+ quoted "hedge fund";
      quoted "agreement of limited partnership" +:+ " fund" ] 20 st.

Definition search_and_download_subscription_docs (search : nat → search_answer)
    (net : nat → response) (st : disk) : nat * disk :=
  search_and_download search net "Subscription_Agreements" "Subscription_"
    [ quoted "subscription agreement" +:+ " " +:+ quoted "limited partner";
      quoted "form of subscription" +:+ " fund investor" ] 15 st.

(** [main]; the number is the total that it prints. *)
Definition main (search : nat → search_answer) (net : nat → response) (st : disk)
  : nat * disk :=
  let '(side_letters, st) := search_and_download_side_letters search net st in
  let '(lpas, st) := search_and_download_lpas search net st in
  let '(subscriptions, st) := search_and_download_subscription_docs search net st in
  (side_letters + lpas + subscriptions, st).

(** *** What the statements speak of *)

(** The hits that the loop reads: those before the first one whose
    [display_names] is the empty list. *)
Fixpoint hits_read (hits : list hit) : list hit :=
  match hits with
  | [] => []
  | hit :: hits' =>
      if bool_decide (display_names hit = Some []) then []
      else hit :: hits_read hits'
  end.

(** The result made of a hit, if it has a non-empty [file_url]. *)
Definition result_of_hit (hit : hit) : option result :=
  match file_url hit with
  | Some file_url =>
      if bool_decide (file_url = EmptyString) then None
      else Some {| url := "https://www.sec.gov" +:+ file_url;
                   company := hd EmptyString (default [EmptyString] (display_names hit));
                   form := default EmptyString (hit_form hit) |}
  | None => None
  end.

(** The destination of the result numbered [i] (from 0). *)
Definition dest_of (folder prefix : string) (i : nat) (r : result) : string :=
  path_join (path_join OUTPUT_PATH folder)
            (prefix +:+ clean_company (company r) +:+ "_" +:+ pretty (i + 1)
             +:+ ".html").

(** The results that a run downloads: the first [top] distinct URLs found
    by the searches. *)
Definition to_download (search : nat → search_answer) (queries : list string)
    (top : nat) (st : disk) : list result :=
  take top (dedupe (search_queries search queries st).1).

(** The number of bodies among the [n] answers from request [request] on. *)
Fixpoint answered (net : nat → response) (request n : nat) : nat :=
  match n with
  | 0 => 0
  | S n' => (if Retry.is_body (net request) then 1 else 0) + answered net (S request) n'
  end.

End Edgar.

(** ** [download_and_extract] of [download_fund_sec_expanded.py]

    As for the first extractor, what [dl.get] leaves on disk is a
    [FundFilings.listing], the output tree maps a destination to the source
    copied there, and the pauses are left out. *)
Module ExpandedRun.
Import PyStr Walk FundExpanded ExpandedFolders CuadFiles.

Definition OUTPUT_PATH : string := "./fund_formation_matters".

Definition INVESTMENT_COMPANIES : list (string * list string) :=
  [ ("PE_Firms",
     [ "KKR"; "BX"; "APO"; "CG"; "ARES"; "TPG"; "EQT"; "BAM"; "BN" ]);
    ("BDCs",
     [ "ARCC"; "MAIN"; "GBDC"; "HTGC"; "BXSL"; "OBDC"; "PSEC"; "FSK"; "TPVG";
       "GSBD"; "NMFC"; "TCPC"; "CSWC"; "GLAD"; "GAIN"; "FDUS"; "PNNT"; "PFLT";
       "SLRC"; "MFIC"; "BBDC"; "OCSL"; "TRIN"; "CCAP" ]);
    ("Asset_Managers",
     [ "BLK"; "SCHW"; "TROW"; "IVZ"; "BEN"; "AMG"; "VCTR"; "AB"; "JHG"; "CNS";
       "APAM"; "VRTS"; "STEP"; "HLI"; "EVR"; "PJT"; "GHL"; "MC"; "LAZ" ]);
    ("SPACs", [ "IPOF"; "PSTH"; "CCIV" ]);
    ("Insurance_Alt", [ "AMP"; "PFG"; "VOYA"; "EQH"; "ATH" ]) ].

Definition FILING_TYPES : list string :=
  [ "8-K"; "10-K"; "10-Q"; "S-1"; "S-11"; "N-2"; "485BPOS"; "DEF 14A" ].

(** [re.sub(class, r, s)] for a class of single characters. *)
Fixpoint replace_chars (class : ascii → bool) (r : string) (s : string) : string :=
  match s with
  | EmptyString => EmptyString
  | String c s' =>
      if class c then r +:+ replace_chars class r s'
      else String c (replace_chars class r s')
  end.

Definition out_path_of (ticker filing_type accession out_folder filename : string)
  : string :=
  let out_name := ticker +:+ "_" +:+ filing_type +:+ "_" +:+ str_take 10 accession
                  +:+ "_" +:+ filename in
  let out_name := replace_chars is_forbidden "_" out_name in
  path_join (path_join OUTPUT_PATH out_folder) out_name.

(** [{k: 0 for k in FUND_DOC_KEYWORDS.keys()}] *)
Definition init_total_found : list (string * nat) :=
  (λ k, (k, 0)) <$> PyDict.keys FUND_DOC_KEYWORDS.

(** [for filepath, doc_type, filename in fund_docs].  The boolean tells
    whether the [KeyError] of [total_found[doc_type] += 1] left the loop. *)
Fixpoint copy_fund_docs (ticker filing_type accession : string)
    (fund_docs : list (string * string * string)) (st : FundFilings.extract)
  : FundFilings.extract * bool :=
  match fund_docs with
  | [] => (st, false)
  | (filepath, doc_type, filename) :: fund_docs' =>
      let out_folder := get_output_folder doc_type in
      let out_path := out_path_of ticker filing_type accession out_folder filename in
      if bool_decide (is_Some (FundFilings.out_tree st !! out_path))
      then copy_fund_docs ticker filing_type accession fund_docs' st
      else
        let tree := <[out_path := filepath]> (FundFilings.out_tree st) in
        match PyDict.get doc_type (FundFilings.total_found st) with
        | None =>
            ({| FundFilings.out_tree := tree;
                FundFilings.total_found := FundFilings.total_found st |}, true)
        | Some n =>
            copy_fund_docs ticker filing_type accession fund_docs'
              {| FundFilings.out_tree := tree;
                 FundFilings.total_found :=
                   PyDict.set doc_type (n + 1) (FundFilings.total_found st) |}
        end
  end.

(** [for accession in os.listdir(ticker_path)] *)
Fixpoint process_accessions (ticker filing_type : string)
    (accessions : list (string * option walk)) (st : FundFilings.extract)
  : FundFilings.extract * bool :=
  match accessions with
  | [] => (st, false)
  | (accession, None) :: accessions' =>
      process_accessions ticker filing_type accessions' st
  | (accession, Some filing) :: accessions' =>
      let fund_docs := find_fund_docs_in_filing filing in
      let '(st', raised) := copy_fund_docs ticker filing_type accession fund_docs st in
      if raised then (st', true)
      else process_accessions ticker filing_type accessions' st'
  end.

(** The body of [for filing_type in FILING_TYPES], a [try] whose handler
    goes on with the next filing type. *)
Definition process_filing_type (disk : string → string → FundFilings.listing)
    (ticker filing_type : string) (st : FundFilings.extract) : FundFilings.extract :=
  match disk ticker filing_type with
  | FundFilings.GetRaises => st
  | FundFilings.NoTickerPath => st
  | FundFilings.Accessions accessions =>
      (process_accessions ticker filing_type accessions st).1
  end.

Definition process_ticker (disk : string → string → FundFilings.listing)
    (ticker : string) (st : FundFilings.extract) : FundFilings.extract :=
  foldl (λ st filing_type, process_filing_type disk ticker filing_type st)
        st FILING_TYPES.

(** [for category, tickers in INVESTMENT_COMPANIES.items()] *)
Definition download_and_extract (disk : string → string → FundFilings.listing)
    (tree : gmap string string) : FundFilings.extract :=
  foldl (λ st item, foldl (λ st ticker, process_ticker disk ticker st) st item.2)
        {| FundFilings.out_tree := tree;
           FundFilings.total_found := init_total_found |}
        INVESTMENT_COMPANIES.

(** *** What the statements speak of *)

(** A path directly inside one of the six folders of the mapping. *)
Definition in_folder (path : string) : Prop :=
  ∃ folder name,
    folder ∈ mapping.*2 ∧ has_char "/" name = false ∧
    path = path_join (path_join OUTPUT_PATH folder) name.

(** What a run keeps true of its state, [tree0] being the tree of the
    start. *)
Definition run_inv (tree0 : gmap string string) (st : FundFilings.extract) : Prop :=
  PyDict.keys (FundFilings.total_found st) = PyDict.keys FUND_DOC_KEYWORDS
  ∧ sum_list (PyDict.values (FundFilings.total_found st)) + size tree0
    = size (FundFilings.out_tree st)
  ∧ (∀ path data, tree0 !! path = Some data →
                  FundFilings.out_tree st !! path = Some data)
  ∧ (∀ path, is_Some (FundFilings.out_tree st !! path) → tree0 !! path = None →
             in_folder path).

End ExpandedRun.

(** * Properties *)

Section classifier_refinement.
Import PyStr Cuad.

Lemma scan_keywords_existsb keywords name_lower :
  scan_keywords keywords name_lower = existsb (λ kw, str_in kw name_lower) keywords.
Proof.
  induction keywords as [|kw kws IH]; simpl; [done|].
  destruct (str_in kw name_lower); simpl; [done|apply IH].
Qed.

(** On a table whose keywords are already lower-case the two loops find
    what [List.find] finds. *)
Lemma scan_items_find items name :
  Forall (λ item, Forall (λ kw, lower kw = kw) item.2) items →
  scan_items items (lower name)
  = fst <$> List.find (λ item, existsb (λ kw, ci_substring kw name) item.2) items.
Proof.
  induction 1 as [|[area kws] items Hkws _ IH]; simpl; [done|].
  rewrite scan_keywords_existsb.
  assert (existsb (λ kw, str_in kw (lower name)) kws
          = existsb (λ kw, ci_substring kw name) kws) as ->.
  { clear -Hkws. simpl in Hkws. induction Hkws as [|kw kws Hkw _ IH]; simpl; [done|].
    unfold ci_substring at 1. by rewrite Hkw, IH. }
  destruct (existsb _ kws); [done|apply IH].
Qed.

Lemma keywords_lower_case :
  Forall (λ item, Forall (λ kw, lower kw = kw) item.2) PRACTICE_AREA_MAPPINGS.
Proof. repeat (constructor; try done). Qed.

(** The declarative reading of [classify_spec]: the result is the category
    of the first item that has a matching keyword. *)
Lemma classify_spec_first_match mapping default name area :
  classify_spec mapping default name = area ↔
  (∃ before kws after,
      mapping = before ++ (area, kws) :: after ∧
      Exists (λ kw, ci_substring kw name = true) kws ∧
      Forall (λ item, Forall (λ kw, ci_substring kw name = false) item.2) before)
  ∨ (Forall (λ item, Forall (λ kw, ci_substring kw name = false) item.2) mapping
     ∧ area = default).
Proof.
  unfold classify_spec. induction mapping as [|[a kws] mapping IH]; simpl.
  - split; [intros <-; right; by split|].
    intros [(before & ? & ? & Heq & _)|[_ ->]]; [by destruct before|done].
  - destruct (existsb _ kws) eqn:Hex; simpl.
    + apply existsb_exists in Hex as (kw & Hin & Hkw).
      assert (Exists (λ kw, ci_substring kw name = true) kws) as HE.
      { apply Exists_exists. exists kw. by rewrite list_elem_of_In. }
      split.
      * intros <-. left. exists [], kws, mapping. by repeat split.
      * intros [(before & kws' & after & Heq & _ & Hbefore)|[Hall _]].
        -- destruct before as [|b before]; simplify_eq/=; [done|].
           apply Forall_cons_1 in Hbefore as [Hb _]. simpl in Hb.
           rewrite Forall_forall in Hb. apply list_elem_of_In, Hb in Hin. congruence.
        -- apply Forall_cons_1 in Hall as [Hb _]. simpl in Hb.
           rewrite Forall_forall in Hb. apply list_elem_of_In, Hb in Hin. congruence.
    + assert (Forall (λ kw, ci_substring kw name = false) kws) as Hnone.
      { apply Forall_forall. intros kw Hin.
        destruct (ci_substring kw name) eqn:Hkw; [|done].
        assert (existsb (λ kw, ci_substring kw name) kws = true); [|congruence].
        apply existsb_exists. exists kw. by rewrite <-list_elem_of_In. }
      rewrite IH. split.
      * intros [(before & kws' & after & -> & HE & Hbefore)|[Hall ->]].
        -- left. exists ((a, kws) :: before), kws', after. repeat split; try done.
           by constructor.
        -- right. split; [by constructor|done].
      * intros [(before & kws' & after & Heq & HE & Hbefore)|[Hall ->]].
        -- destruct before as [|b before]; simplify_eq/=.
           ++ exfalso. apply Exists_exists in HE as (kw & Hin & Hkw).
              rewrite Forall_forall in Hnone. apply Hnone in Hin. congruence.
           ++ left. exists before, kws', after. repeat split; try done.
              by apply Forall_cons_1 in Hbefore as [_ ?].
        -- right. split; [|done]. by apply Forall_cons_1 in Hall as [_ ?].
Qed.

(** C1: for every filename, [classify_by_filename] returns what the
    reference definition returns: the first category of
    [PRACTICE_AREA_MAPPINGS], in declaration order, one of whose keywords is
    a case-insensitive substring of the filename, and ["Commercial"] when no
    keyword of any category matches. *)
Theorem classify_by_filename_refines_spec (filename : string) :
  classify_by_filename filename
  = classify_spec PRACTICE_AREA_MAPPINGS "Commercial" filename.
Proof.
  unfold classify_by_filename, classify_spec.
  rewrite (scan_items_find _ _ keywords_lower_case).
  by destruct (List.find _ _).
Qed.

End classifier_refinement.

(** ** Dicts as item lists *)
Section dict_lemmas.
Context {K V : Type} `{EqDecision K}.
Implicit Types (k : K) (v : V) (d : list (K * V)).

Lemma get_set_eq k v d : PyDict.get k (PyDict.set k v d) = Some v.
Proof.
  induction d as [|[k' v'] d IH]; simpl.
  - by rewrite decide_True.
  - destruct (decide (k' = k)) as [->|Hne]; simpl.
    + by rewrite decide_True.
    + by rewrite decide_False.
Qed.

Lemma get_set_ne k k' v d : k ≠ k' → PyDict.get k' (PyDict.set k v d) = PyDict.get k' d.
Proof.
  intros Hne. induction d as [|[k0 v0] d IH]; simpl.
  - by rewrite decide_False.
  - destruct (decide (k0 = k)) as [->|Hne0]; simpl.
    + by rewrite !decide_False.
    + by rewrite IH.
Qed.

Lemma get_is_Some k d : is_Some (PyDict.get k d) ↔ k ∈ PyDict.keys d.
Proof.
  unfold PyDict.keys. induction d as [|[k' v'] d IH]; simpl.
  - split; [by intros [? ?]|by intros ?%elem_of_nil].
  - rewrite elem_of_cons. destruct (decide (k' = k)) as [->|Hne].
    + split; [by left|by eexists].
    + rewrite IH. split; [by right|]. by intros [?|?].
Qed.

Lemma get_None k d : PyDict.get k d = None ↔ k ∉ PyDict.keys d.
Proof. rewrite <-get_is_Some, eq_None_not_Some. done. Qed.

Lemma keys_set k v d :
  is_Some (PyDict.get k d) → PyDict.keys (PyDict.set k v d) = PyDict.keys d.
Proof.
  unfold PyDict.keys. induction d as [|[k' v'] d IH]; simpl.
  - by intros [? ?].
  - destruct (decide (k' = k)) as [->|Hne]; simpl; [done|].
    intros Hk. f_equal. by apply IH.
Qed.

Lemma get_app k d1 d2 :
  PyDict.get k (d1 ++ d2)
  = match PyDict.get k d1 with Some v => Some v | None => PyDict.get k d2 end.
Proof.
  induction d1 as [|[k' v'] d1 IH]; simpl; [done|].
  by destruct (decide (k' = k)).
Qed.

Lemma set_app_absent k v d1 d2 :
  PyDict.get k d1 = None → PyDict.set k v (d1 ++ d2) = d1 ++ PyDict.set k v d2.
Proof.
  induction d1 as [|[k' v'] d1 IH]; simpl; [done|].
  destruct (decide (k' = k)); [done|]. intros Hk. by rewrite IH.
Qed.

Lemma set_absent k v d :
  PyDict.get k d = None → PyDict.set k v d = d ++ [(k, v)].
Proof.
  intros Hk. rewrite <-(app_nil_r d) at 1. by rewrite set_app_absent.
Qed.

Lemma get_item k v d : NoDup (PyDict.keys d) → (k, v) ∈ d → PyDict.get k d = Some v.
Proof.
  unfold PyDict.keys. induction d as [|[k' v'] d IH]; simpl.
  - by intros _ ?%elem_of_nil.
  - intros [Hk' Hnd]%NoDup_cons [Heq|Hin]%elem_of_cons.
    + simplify_eq. by rewrite decide_True.
    + destruct (decide (k' = k)) as [->|Hne]; [|by apply IH].
      destruct Hk'. apply list_elem_of_fmap. by exists (k, v).
Qed.

Lemma get_keyed (f : K → V) (ks : list K) k :
  k ∈ ks → PyDict.get k ((λ a, (a, f a)) <$> ks) = Some (f k).
Proof.
  induction ks as [|k' ks IH]; simpl; [by intros ?%elem_of_nil|].
  intros Hin. destruct (decide (k' = k)) as [->|Hne]; [done|].
  apply IH. by apply elem_of_cons in Hin as [?|?].
Qed.

Lemma keys_keyed (f : K → V) (ks : list K) :
  PyDict.keys ((λ a, (a, f a)) <$> ks) = ks.
Proof.
  unfold PyDict.keys. rewrite <-list_fmap_compose. induction ks; simpl; [done|].
  by f_equal.
Qed.
End dict_lemmas.

(** ** The allocator of [download_cuad_contracts.main] *)
Section allocator.
Import PyStr Cuad Allocator.

Lemma numbered_app start bs1 bs2 :
  numbered start (bs1 ++ bs2)
  = numbered start bs1 ++ numbered (start + length bs1) bs2.
Proof.
  revert start. induction bs1 as [|b bs1 IH]; intros start; simpl.
  - by rewrite Nat.add_0_r.
  - rewrite IH. do 3 f_equal. lia.
Qed.

Lemma numbered_keys start bs : (numbered start bs).*1 = seq start (length bs).
Proof. revert start. induction bs; intros; simpl; [done|]. by f_equal. Qed.

Lemma numbered_values start bs : (numbered start bs).*2 = bs.
Proof. revert start. induction bs; intros; simpl; [done|]. by f_equal. Qed.

Lemma get_numbered_outside start bs n :
  n < start ∨ start + length bs ≤ n → PyDict.get n (numbered start bs) = None.
Proof.
  intros Hn. apply get_None. unfold PyDict.keys. rewrite numbered_keys.
  rewrite elem_of_seq. lia.
Qed.

(** Lines 229-233 on the dict of one practice area: the document goes to
    the end of the open matter, which is created when there is none. *)
Lemma add_to_matter (full : list (list string)) (partial : list string) pdf_path :
  let area_docs := numbered 1 (full ++ open_bucket partial) in
  let current_matter := length full + 1 in
  let area_docs' :=
    if PyDict.contains current_matter area_docs then area_docs
    else PyDict.set current_matter [] area_docs in
  PyDict.get current_matter area_docs' = Some partial ∧
  PyDict.set current_matter (partial ++ [pdf_path]) area_docs'
  = numbered 1 (full ++ [partial ++ [pdf_path]]).
Proof.
  simpl. rewrite !numbered_app. simpl.
  replace (length full + 1) with (S (length full)) by lia.
  assert (PyDict.get (S (length full)) (numbered 1 full) = None) as Hout.
  { apply get_numbered_outside. lia. }
  assert (∀ docs tail,
    PyDict.set (S (length full)) docs (numbered 1 full ++ [(S (length full), tail)])
    = numbered 1 full ++ [(S (length full), docs)]) as Hset.
  { intros docs tail. rewrite set_app_absent by done. simpl.
    by rewrite decide_True. }
  assert (∀ tail,
    PyDict.get (S (length full)) (numbered 1 full ++ [(S (length full), tail)])
    = Some tail) as Hget.
  { intros tail. rewrite get_app, Hout. simpl. by rewrite decide_True. }
  unfold PyDict.contains. destruct partial as [|x partial]; simpl.
  - rewrite app_nil_r, Hout.
    rewrite bool_decide_false by (by intros [? ?]).
    rewrite (set_absent _ _ _ Hout).
    by rewrite Hget, Hset.
  - rewrite Hget. rewrite bool_decide_true by by eexists.
    by rewrite Hget, Hset.
Qed.

Lemma open_bucket_snoc (partial : list string) pdf_path :
  open_bucket (partial ++ [pdf_path]) = [partial ++ [pdf_path]].
Proof. by destruct partial. Qed.

Lemma get_value {V} (k : string) (v : V) (d : list (string * V)) :
  PyDict.get k d = Some v → v ∈ PyDict.values d.
Proof.
  unfold PyDict.values. induction d as [|[k' v'] d IH]; simpl; [done|].
  destruct (decide (k' = k)); [intros [= ->]; by left|].
  intros Hk. right. by apply IH.
Qed.

Lemma saved_in_snoc area calls (call : string * nat * list string) :
  saved_in area (calls ++ [call])
  = saved_in area calls
    ++ (if decide (call.1.1 = area) then [(call.1.2, call.2)] else []).
Proof.
  unfold saved_in. rewrite omap_app. simpl. by destruct (decide _).
Qed.

Lemma classified_into_snoc area pre pdf_path :
  classified_into area (pre ++ [pdf_path])
  = classified_into area pre
    ++ (if decide (classify_by_filename (basename pdf_path) = area)
        then [pdf_path] else []).
Proof.
  unfold classified_into. rewrite filter_app, filter_cons, filter_nil.
  by destruct (decide _).
Qed.

Lemma take_saturated (n : nat) (l more : list string) :
  length (take n l) = n → take n (l ++ more) = take n l.
Proof. rewrite length_take. intros Hn. apply take_app_le. lia. Qed.

Lemma take_unsaturated (n : nat) (l : list string) x :
  length (take n l) < n → take n (l ++ [x]) = take n l ++ [x].
Proof.
  rewrite length_take. intros Hn.
  rewrite !take_ge by (rewrite ?length_app; simpl; lia). done.
Qed.

Lemma length_concat_full (n : nat) (full : list (list string)) :
  Forall (λ b, length b = n) full → length (concat full) = length full * n.
Proof.
  induction 1 as [|b full Hb _ IH]; simpl; [done|].
  rewrite length_app. lia.
Qed.

Lemma area_ok_length area st allocated full partial :
  area_ok area st allocated full partial →
  length allocated = length full * DOCS_PER_MATTER + length partial.
Proof.
  intros [_ _ _ Hfull _ _ _ <-].
  by rewrite length_app, (length_concat_full _ _ Hfull).
Qed.

Lemma scan_items_key items name_lower area :
  scan_items items name_lower = Some area → area ∈ PyDict.keys items.
Proof.
  unfold PyDict.keys. induction items as [|[a kws] items IH]; simpl; [done|].
  destruct (scan_keywords kws name_lower); [intros [= ->]; by left|].
  intros Hk. right. by apply IH.
Qed.

Lemma classify_by_filename_area filename : classify_by_filename filename ∈ AREAS.
Proof.
  unfold classify_by_filename.
  destruct (scan_items _ _) as [area|] eqn:Hscan.
  - by apply scan_items_key in Hscan.
  - by apply (bool_decide_unpack _).
Qed.

Lemma NoDup_AREAS : NoDup AREAS.
Proof. by apply (bool_decide_unpack _). Qed.

Lemma loop_inv_init tree : loop_inv [] (init_alloc tree).
Proof.
  unfold loop_inv, init_alloc. cbn [matter_counts matter_docs saved].
  rewrite !keys_keyed. fold AREAS.
  split; [done|]. split; [done|]. split; [done|].
  intros area Harea. exists [], [].
  split; cbn [matter_counts matter_docs saved]; try done.
  - by rewrite (get_keyed (λ _, 0)).
  - by rewrite (get_keyed (λ _, [])).
  - unfold DOCS_PER_MATTER. simpl. lia.
  - unfold TARGET_MATTERS_PER_AREA. simpl. lia.
Qed.

Lemma loop_inv_frame pre st st' :
  matter_counts st' = matter_counts st →
  matter_docs st' = matter_docs st →
  saved st' = saved st →
  loop_inv pre st → loop_inv pre st'.
Proof.
  intros Hc Hd Hs (K1 & K2 & K3 & K4). unfold loop_inv. rewrite Hc, Hd, Hs.
  do 3 (split; [done|]). intros area Harea.
  destruct (K4 area Harea) as (full & partial & []).
  exists full, partial. split; rewrite ?Hc, ?Hd, ?Hs; done.
Qed.

(** A document of a practice area that has all its matters is skipped. *)
Lemma loop_inv_skip pre st pdf_path :
  (∀ count, PyDict.get (classify_by_filename (basename pdf_path)) (matter_counts st)
            = Some count → TARGET_MATTERS_PER_AREA ≤ count) →
  loop_inv pre st → loop_inv (pre ++ [pdf_path]) st.
Proof.
  intros Hfull (K1 & K2 & K3 & K4). do 3 (split; [done|]). intros area Harea.
  destruct (K4 area Harea) as (full & partial & Hok).
  exists full, partial. rewrite classified_into_snoc.
  destruct (decide _) as [<-|_]; [|by rewrite app_nil_r].
  rewrite take_saturated; [done|].
  rewrite (area_ok_length _ _ _ _ _ Hok).
  destruct Hok as [Hcount _ _ _ _ Htarget Hclosed _].
  apply Hfull in Hcount.
  unfold AREA_CAPACITY, TARGET_MATTERS_PER_AREA, DOCS_PER_MATTER in *.
  rewrite Hclosed by lia. simpl. lia.
Qed.

Lemma loop_inv_all_reached rest : ∀ pre st,
  all_targets_reached (matter_counts st) = true →
  loop_inv pre st → loop_inv (pre ++ rest) st.
Proof.
  induction rest as [|pdf_path rest IH]; intros pre st Hall Hinv.
  - by rewrite app_nil_r.
  - rewrite cons_middle, app_assoc. apply IH; [done|].
    apply loop_inv_skip; [|done]. intros count Hcount%get_value.
    unfold all_targets_reached in Hall. rewrite forallb_forall in Hall.
    apply list_elem_of_In, Hall in Hcount. by apply Nat.leb_le.
Qed.

(** One turn of the loop that does not [break]. *)
Lemma main_loop_step pre st pdf_path :
  loop_inv pre st →
  all_targets_reached (matter_counts st) = false →
  ∃ st1, (∀ rest, main_loop (pdf_path :: rest) st = main_loop rest st1)
         ∧ loop_inv (pre ++ [pdf_path]) st1.
Proof.
  intros Hinv Hnot. pose proof Hinv as (K1 & K2 & K3 & K4).
  set (area := classify_by_filename (basename pdf_path)).
  assert (area ∈ AREAS) as Harea by apply classify_by_filename_area.
  destruct (K4 area Harea) as (full & partial & Hok).
  pose proof (area_ok_length _ _ _ _ _ Hok) as Hlen.
  destruct Hok as [Hcount Hdocs Hsaved Hfull Hpartial Htarget Hclosed Halloc].
  cbn [main_loop]. rewrite Hnot. fold area. rewrite Hcount. cbn [mbind option_bind].
  destruct (TARGET_MATTERS_PER_AREA <=? length full) eqn:Hle.
  { (* continue *)
    apply Nat.leb_le in Hle. eexists. split; [done|].
    apply loop_inv_skip.
    - cbn [matter_counts]. fold area. rewrite Hcount. by intros ? [= <-].
    - by eapply loop_inv_frame; [..|exact Hinv]. }
  apply Nat.leb_gt in Hle. rewrite Hdocs. cbn [mbind option_bind].
  destruct (add_to_matter full partial pdf_path) as [Hget Hset].
  cbn zeta in Hget, Hset. rewrite Hget. cbn [mbind option_bind]. rewrite Hset.
  assert (take AREA_CAPACITY (classified_into area (pre ++ [pdf_path]))
          = concat full ++ partial ++ [pdf_path]) as Halloc'.
  { rewrite classified_into_snoc. fold area. rewrite decide_True by done.
    rewrite take_unsaturated; [by rewrite <-Halloc, <-app_assoc|].
    rewrite Hlen. unfold AREA_CAPACITY, TARGET_MATTERS_PER_AREA, DOCS_PER_MATTER in *.
    lia. }
  assert (∀ other, other ≠ area →
            classified_into other (pre ++ [pdf_path]) = classified_into other pre)
    as Hother.
  { intros other Hne. rewrite classified_into_snoc. fold area.
    rewrite decide_False by done. by rewrite app_nil_r. }
  destruct (DOCS_PER_MATTER <=? length (partial ++ [pdf_path])) eqn:Hcomplete.
  - (* the matter is complete: it is saved and the count goes up *)
    apply Nat.leb_le in Hcomplete. rewrite length_app in Hcomplete. simpl in Hcomplete.
    eexists. split; [done|].
    unfold loop_inv. cbn [matter_counts matter_docs saved].
    rewrite !keys_set by (rewrite ?Hcount, ?Hdocs; by eexists).
    do 2 (split; [done|]). split.
    + intros other Hother'. rewrite saved_in_snoc. cbn [fst snd].
      rewrite decide_False by (intros ->; done). rewrite app_nil_r. by apply K3.
    + intros other Hother'. destruct (decide (other = area)) as [->|Hne].
      * exists (full ++ [partial ++ [pdf_path]]), [].
        split; cbn [matter_counts matter_docs saved].
        -- rewrite get_set_eq, length_app. done.
        -- rewrite get_set_eq. cbn [open_bucket]. by rewrite app_nil_r.
        -- rewrite saved_in_snoc. cbn [fst snd]. rewrite decide_True by done.
           rewrite Hsaved, numbered_app. cbn [numbered].
           do 3 f_equal. lia.
        -- apply Forall_app. split; [done|]. apply Forall_singleton.
           rewrite length_app. simpl. lia.
        -- unfold DOCS_PER_MATTER. simpl. lia.
        -- rewrite length_app. simpl. lia.
        -- done.
        -- rewrite Halloc', concat_app. simpl. by rewrite !app_nil_r.
      * destruct (K4 other Hother') as (full' & partial' & []).
        exists full', partial'. split; cbn [matter_counts matter_docs saved];
          rewrite ?Hother by done; try done.
        -- by rewrite get_set_ne.
        -- by rewrite get_set_ne.
        -- rewrite saved_in_snoc. cbn [fst snd].
           rewrite decide_False by done. by rewrite app_nil_r.
  - (* the matter stays open *)
    apply Nat.leb_gt in Hcomplete.
    eexists. split; [done|].
    unfold loop_inv. cbn [matter_counts matter_docs saved].
    rewrite !keys_set by (rewrite ?Hcount, ?Hdocs; by eexists).
    do 3 (split; [done|]).
    intros other Hother'. destruct (decide (other = area)) as [->|Hne].
    + exists full, (partial ++ [pdf_path]).
      split; cbn [matter_counts matter_docs saved]; try done.
      * rewrite get_set_eq. by rewrite open_bucket_snoc.
      * intros Hfull'. lia.
    + destruct (K4 other Hother') as (full' & partial' & []).
      exists full', partial'. split; cbn [matter_counts matter_docs saved];
        rewrite ?Hother by done; try done.
      by rewrite get_set_ne.
Qed.

Lemma main_loop_inv pdf_files : ∀ pre st,
  loop_inv pre st →
  ∃ st', main_loop pdf_files st = Some st' ∧ loop_inv (pre ++ pdf_files) st'.
Proof.
  induction pdf_files as [|pdf_path rest IH]; intros pre st Hinv.
  - exists st. by rewrite app_nil_r.
  - destruct (all_targets_reached (matter_counts st)) eqn:Hall.
    + cbn [main_loop]. rewrite Hall. eexists. split; [done|].
      eapply loop_inv_frame; [..|by apply loop_inv_all_reached]; done.
    + destruct (main_loop_step pre st pdf_path Hinv Hall) as (st1 & Hstep & Hinv1).
      rewrite Hstep. destruct (IH _ _ Hinv1) as (st' & Hrun & Hinv').
      exists st'. split; [done|]. by rewrite cons_middle, app_assoc.
Qed.

(** *** The final loop, "Save any remaining partial matters" *)

Lemma flush_area_app area items1 : ∀ items2 st,
  flush_area area (items1 ++ items2) st
  = flush_area area items1 st ≫= flush_area area items2.
Proof.
  induction items1 as [|[n docs] items1 IH]; intros items2 st; [done|].
  cbn [app flush_area]. destruct (bool_decide (docs = [])); [apply IH|].
  destruct (PyDict.get area (matter_counts st)) as [count|]; [|done].
  cbn [mbind option_bind]. destruct (count <? n); apply IH.
Qed.

(** A matter that was saved when it became full is not saved again. *)
Lemma flush_area_closed area items st count :
  PyDict.get area (matter_counts st) = Some count →
  Forall (λ item, item.1 ≤ count) items →
  flush_area area items st = Some st.
Proof.
  intros Hcount. induction 1 as [|[n docs] items Hn _ IH]; [done|].
  cbn [flush_area]. destruct (bool_decide (docs = [])); [done|].
  rewrite Hcount. cbn [mbind option_bind].
  simpl in Hn. apply Nat.ltb_ge in Hn. by rewrite Hn.
Qed.

Lemma flush_area_ok area st allocated full partial :
  area_ok area st allocated full partial →
  flush_area area (numbered 1 (full ++ open_bucket partial)) st
  = Some (flushed_area area full partial st).
Proof.
  intros [Hcount _ _ _ _ _ _ _]. rewrite numbered_app, flush_area_app.
  rewrite (flush_area_closed _ _ _ _ Hcount).
  - cbn [mbind option_bind]. destruct partial as [|x partial]; [done|].
    cbn [open_bucket numbered flush_area]. rewrite bool_decide_false by done.
    rewrite Hcount. cbn [mbind option_bind].
    replace (1 + length full) with (S (length full)) by lia.
    by rewrite (proj2 (Nat.ltb_lt _ _)) by lia.
  - apply Forall_forall. intros [n docs] Hin. simpl.
    assert (n ∈ (numbered 1 full).*1) as Hn.
    { apply list_elem_of_fmap. by exists (n, docs). }
    rewrite numbered_keys, elem_of_seq in Hn. lia.
Qed.

Lemma flushed_area_frame area full partial st other allocated full' partial' :
  other ≠ area →
  area_ok other st allocated full' partial' →
  area_ok other (flushed_area area full partial st) allocated full' partial'.
Proof.
  intros Hne Hok. destruct partial as [|x partial]; [done|].
  destruct Hok. split; cbn [flushed_area matter_counts matter_docs saved]; try done.
  - by rewrite get_set_ne.
  - rewrite saved_in_snoc. cbn [fst snd]. rewrite decide_False by done.
    by rewrite app_nil_r.
Qed.

Lemma saved_in_app area calls1 calls2 :
  saved_in area (calls1 ++ calls2) = saved_in area calls1 ++ saved_in area calls2.
Proof. unfold saved_in. apply omap_app. Qed.

Lemma flush_areas_spec (allocated : string → list string) areas : ∀ st,
  NoDup areas →
  (∀ area, area ∈ areas →
     ∃ full partial, area_ok area st (allocated area) full partial) →
  ∃ fin flushed,
    flush_areas areas st = Some fin ∧
    matter_docs fin = matter_docs st ∧
    saved fin = saved st ++ flushed ∧
    (∀ area, area ∉ areas →
       PyDict.get area (matter_counts fin) = PyDict.get area (matter_counts st)
       ∧ saved_in area flushed = []) ∧
    (∀ area, area ∈ areas →
       ∃ full partial,
         area_ok area st (allocated area) full partial ∧
         PyDict.get area (matter_counts fin)
         = Some (length (full ++ open_bucket partial)) ∧
         saved_in area flushed = numbered (S (length full)) (open_bucket partial)).
Proof.
  induction areas as [|area areas IH]; intros st Hnd Hareas.
  - exists st, []. rewrite app_nil_r. repeat split; try done.
    by intros area ?%elem_of_nil.
  - apply NoDup_cons in Hnd as [Hfresh Hnd].
    destruct (Hareas area) as (full & partial & Hok); [by left|].
    set (st1 := flushed_area area full partial st).
    assert (matter_docs st1 = matter_docs st) as Hdocs1.
    { unfold st1. by destruct partial. }
    assert (saved st1 = saved st
              ++ ((λ docs, (area, S (length full), docs)) <$> open_bucket partial))
      as Hsaved1.
    { unfold st1. destruct partial; simpl; [by rewrite app_nil_r|done]. }
    assert (PyDict.get area (matter_counts st1)
            = Some (length (full ++ open_bucket partial))) as Hcount1.
    { unfold st1. destruct partial; cbn [flushed_area matter_counts open_bucket].
      - rewrite app_nil_r. by destruct Hok.
      - rewrite get_set_eq, length_app. simpl. f_equal. lia. }
    assert (∀ other, other ≠ area →
              PyDict.get other (matter_counts st1)
              = PyDict.get other (matter_counts st)) as Hcounts1.
    { intros other Hne. unfold st1. destruct partial; [done|].
      cbn [flushed_area matter_counts]. by rewrite get_set_ne. }
    destruct (IH st1 Hnd) as (fin & flushed & Hrun & Hdocs & Hsaved & Hout & Hin).
    { intros other Hother. destruct (Hareas other) as (full' & partial' & Hok');
        [by right|].
      exists full', partial'. apply flushed_area_frame; [|done].
      intros ->. done. }
    exists fin, (((λ docs, (area, S (length full), docs)) <$> open_bucket partial)
                 ++ flushed).
    split; [|split; [|split; [|split]]].
    + cbn [flush_areas]. rewrite (ok_docs _ _ _ _ _ Hok).
      cbn [mbind option_bind]. unfold PyDict.items.
      rewrite (flush_area_ok _ _ _ _ _ Hok). cbn [mbind option_bind]. exact Hrun.
    + by rewrite Hdocs.
    + by rewrite Hsaved, Hsaved1, <-app_assoc.
    + intros other Hother. apply not_elem_of_cons in Hother as [Hne Hother].
      destruct (Hout other Hother) as [-> Hnone]. split; [by apply Hcounts1|].
      rewrite saved_in_app, Hnone, app_nil_r.
      destruct partial; simpl; [done|]. by rewrite decide_False by done.
    + intros other [->|Hother]%elem_of_cons.
      * exists full, partial. split; [done|].
        destruct (Hout area Hfresh) as [-> Hnone]. split; [done|].
        rewrite saved_in_app, Hnone, app_nil_r.
        destruct partial; simpl; [done|]. by rewrite decide_True by done.
      * assert (other ≠ area) as Hne by (intros ->; done).
        destruct (Hin other Hother) as (full' & partial' & Hok' & Hc & Hs).
        destruct (Hareas other) as (full0 & partial0 & Hok0); [by right|].
        exists full', partial'. split; [|split; [done|]].
        -- destruct Hok'. split; rewrite <-?Hcounts1, <-?Hdocs1 by done; try done.
           rewrite Hsaved1, saved_in_app in ok_saved0.
           destruct partial; simpl in ok_saved0;
             [by rewrite app_nil_r in ok_saved0|].
           rewrite decide_False in ok_saved0 by done.
           by rewrite app_nil_r in ok_saved0.
        -- rewrite saved_in_app, Hs.
           destruct partial; simpl; [done|]. by rewrite decide_False by done.
Qed.

(** *** The whole run *)

Lemma flush_keys st :
  PyDict.keys (matter_docs st) = AREAS → flush st = flush_areas AREAS st.
Proof. unfold flush. by intros ->. Qed.

Lemma main_run pdf_files tree :
  ∃ st fin flushed,
    main_loop pdf_files (init_alloc tree) = Some st ∧
    flush st = Some fin ∧
    (pdf_files = [] ∨ main pdf_files tree = Some fin) ∧
    matter_docs fin = matter_docs st ∧
    saved fin = saved st ++ flushed ∧
    PyDict.keys (matter_counts st) = AREAS ∧
    PyDict.keys (matter_docs st) = AREAS ∧
    (∀ area, area ∉ AREAS → saved_in area (saved fin) = []) ∧
    (∀ area, area ∈ AREAS →
       ∃ full partial,
         area_ok area st (take AREA_CAPACITY (classified_into area pdf_files))
                 full partial ∧
         PyDict.get area (matter_counts fin)
         = Some (length (full ++ open_bucket partial)) ∧
         saved_in area flushed = numbered (S (length full)) (open_bucket partial)).
Proof.
  destruct (main_loop_inv pdf_files [] _ (loop_inv_init tree))
    as (st & Hloop & K1 & K2 & K3 & K4).
  rewrite app_nil_l in K4.
  destruct (flush_areas_spec
              (λ area, take AREA_CAPACITY (classified_into area pdf_files))
              AREAS st NoDup_AREAS K4)
    as (fin & flushed & Hflush & Hdocs & Hsaved & Hout & Hin).
  rewrite <-(flush_keys _ K2) in Hflush.
  exists st, fin, flushed. do 2 (split; [done|]). split.
  { destruct pdf_files; [by left|right]. unfold main.
    rewrite bool_decide_false by done. rewrite Hloop. exact Hflush. }
  do 4 (split; [done|]). split; [|done].
  intros area Harea. rewrite Hsaved, saved_in_app.
  destruct (Hout area Harea) as [_ ->]. by rewrite K3.
Qed.

Lemma main_empty tree :
  main [] tree = Some {| matter_counts := []; matter_docs := []; processed := 0;
                         saved := []; out_tree := tree |}.
Proof. done. Qed.

(** The matters of one practice area that the whole run saves. *)
Lemma saved_in_run area st fin flushed allocated full partial :
  saved fin = saved st ++ flushed →
  area_ok area st allocated full partial →
  saved_in area flushed = numbered (S (length full)) (open_bucket partial) →
  saved_in area (saved fin) = numbered 1 (full ++ open_bucket partial).
Proof.
  intros -> Hok Hflushed. rewrite saved_in_app, Hflushed, (ok_saved _ _ _ _ _ Hok).
  by rewrite numbered_app.
Qed.

Lemma open_bucket_concat partial : concat (open_bucket partial) = partial.
Proof. destruct partial; simpl; [done|]. by rewrite app_nil_r. Qed.

Lemma open_bucket_bounds partial :
  length partial < DOCS_PER_MATTER →
  Forall (λ b, 1 ≤ length b ≤ DOCS_PER_MATTER) (open_bucket partial).
Proof.
  intros Hlt. destruct partial; [by apply Forall_nil|].
  apply Forall_singleton. simpl in *. lia.
Qed.

Lemma buckets_bounds area st allocated full partial :
  area_ok area st allocated full partial →
  Forall (λ b, 1 ≤ length b ≤ DOCS_PER_MATTER) (full ++ open_bucket partial).
Proof.
  intros Hok. apply Forall_app. split.
  - eapply Forall_impl; [exact (ok_full _ _ _ _ _ Hok)|].
    intros b Hb. simpl in Hb. rewrite Hb. unfold DOCS_PER_MATTER. lia.
  - apply open_bucket_bounds, (ok_partial _ _ _ _ _ Hok).
Qed.

Lemma elem_of_saved_in (call : string * nat * list string) calls :
  call ∈ calls → (call.1.2, call.2) ∈ saved_in call.1.1 calls.
Proof.
  intros Hin. unfold saved_in. apply list_elem_of_omap.
  exists call. split; [done|]. by rewrite decide_True.
Qed.

Lemma NoDup_saved_folders (calls : list (string * nat * list string)) :
  (∀ area, NoDup (saved_in area calls).*1) → NoDup calls.*1.
Proof.
  induction calls as [|[[area n] docs] calls IH]; intros Hnd; [apply NoDup_nil_2|].
  simpl. apply NoDup_cons. split.
  - intros ([[a' n'] docs'] & Heq & Hin)%list_elem_of_fmap. simpl in Heq.
    injection Heq as Ha Hn. subst a' n'. specialize (Hnd area). simpl in Hnd.
    rewrite decide_True in Hnd by done. simpl in Hnd.
    apply NoDup_cons in Hnd as [Hfresh _]. apply Hfresh.
    apply (elem_of_saved_in (area, n, docs')) in Hin. simpl in Hin.
    apply list_elem_of_fmap. by exists (n, docs').
  - apply IH. intros a. specialize (Hnd a). simpl in Hnd.
    destruct (decide (area = a)); simpl in Hnd; [|done].
    by apply NoDup_cons in Hnd as [_ ?].
Qed.

Lemma NoDup_numbered start buckets : NoDup (numbered start buckets).*1.
Proof. rewrite numbered_keys. apply NoDup_seq. Qed.





(** [save_matter] makes one copy per document, so the folder of a matter
    receives at most as many files as the matter has documents. *)
Lemma save_docs_size save_path doc_paths : ∀ i (tree : gmap string string),
  size (save_docs save_path i doc_paths tree) ≤ size tree + length doc_paths.
Proof.
  induction doc_paths as [|src_path doc_paths IH]; intros i tree; simpl; [lia|].
  etrans; [apply IH|].
  assert (∀ path, size (<[path := src_path]> tree) ≤ S (size tree)) as Hput.
  { intros path. rewrite map_size_insert. destruct (tree !! path); simpl; lia. }
  unfold save_doc. destruct (bool_decide _); [destruct (splitext _)|];
    (etrans; [apply Nat.add_le_mono_r, Hput|lia]).
Qed.

Lemma save_matter_size practice_area matter_num doc_paths output_path
    (tree : gmap string string) :
  size (save_matter practice_area matter_num doc_paths output_path tree)
  ≤ size tree + length doc_paths.
Proof. apply save_docs_size. Qed.

Lemma sum_lengths_concat (buckets : list (list string)) :
  sum_list (length <$> buckets) = length (concat buckets).
Proof.
  induction buckets as [|b buckets IH]; [done|].
  rewrite fmap_cons. change (length b + sum_list (length <$> buckets)
                             = length (b ++ concat buckets)).
  by rewrite length_app, IH.
Qed.

End allocator.

(** ** The claims about the allocator *)
Section allocator_claims.
Import PyStr Cuad Allocator.

(** C10: for every input string [classify_by_filename] returns (the model
    is a total function) one of the six keys of [PRACTICE_AREA_MAPPINGS],
    the default ["Commercial"] being one of them; the subscripts
    [matter_counts[practice_area]] and [matter_docs[practice_area]] are
    defined in every state the loop reaches, and [main] never ends in a
    [KeyError]. *)
Theorem classify_by_filename_in_keys :
  (∀ filename,
     classify_by_filename filename
     ∈ ["M_and_A"; "Corporate"; "IP_Licensing"; "Commercial"; "Employment"; "Finance"])
  ∧ PyDict.keys PRACTICE_AREA_MAPPINGS
    = ["M_and_A"; "Corporate"; "IP_Licensing"; "Commercial"; "Employment"; "Finance"]
  ∧ (∀ pdf_files tree,
       (∃ st, main_loop pdf_files (init_alloc tree) = Some st ∧
              ∀ filename,
                is_Some (PyDict.get (classify_by_filename filename) (matter_counts st))
                ∧ is_Some (PyDict.get (classify_by_filename filename) (matter_docs st)))
       ∧ is_Some (main pdf_files tree)).
Proof.
  split; [apply classify_by_filename_area|]. split; [done|].
  intros pdf_files tree.
  destruct (main_run pdf_files tree)
    as (st & fin & flushed & Hloop & _ & Hmain & _ & _ & Hk1 & Hk2 & _).
  split.
  - exists st. split; [done|]. intros filename.
    rewrite !get_is_Some, Hk1, Hk2. split; apply classify_by_filename_area.
  - destruct Hmain as [-> | Hmain]; [by eexists|]. rewrite Hmain. by eexists.
Qed.

Lemma classified_into_outside area pdf_files :
  area ∉ AREAS → classified_into area pdf_files = [].
Proof.
  intros Harea. unfold classified_into.
  induction pdf_files as [|pdf_path pdf_files IH]; [done|].
  rewrite filter_cons, IH. rewrite decide_False; [done|].
  intros <-. apply Harea, classify_by_filename_area.
Qed.

(** C2, as stated, fails: of 46 documents classified into ["Commercial"]
    only 45 are in its saved matters, the 46th is skipped because the area
    has its [TARGET_MATTERS_PER_AREA] matters. *)
Lemma documents_beyond_target_not_saved :
  length (classified_into "Commercial" forty_six_documents) = 46 ∧
  documents_saved "Commercial" <$> main forty_six_documents ∅ = Some 45 ∧
  documents_saved "Commercial" <$> main forty_six_documents ∅
  ≠ Some (length (classified_into "Commercial" forty_six_documents)).
Proof. by vm_compute. Qed.

(** C2, amended: for every list of documents and every category, the
    documents in the saved matters of the category are as many as the
    documents classified into it, up to the 45 that its
    [TARGET_MATTERS_PER_AREA] matters of [DOCS_PER_MATTER] documents hold:
    what is classified into a category beyond that is skipped. *)
Theorem documents_saved_up_to_capacity (pdf_files : list string)
    (tree : gmap string string) (area : string) :
  ∃ fin, main pdf_files tree = Some fin ∧
         documents_saved area fin
         = length (classified_into area pdf_files)
             `min` (TARGET_MATTERS_PER_AREA * DOCS_PER_MATTER).
Proof.
  destruct (main_run pdf_files tree)
    as (st & fin & flushed & _ & _ & Hmain & _ & Hsaved & _ & _ & Hout & Hin).
  destruct Hmain as [-> | Hmain].
  { eexists. split; [apply main_empty|]. done. }
  exists fin. split; [done|]. unfold documents_saved.
  destruct (decide (area ∈ AREAS)) as [Harea|Harea].
  - destruct (Hin area Harea) as (full & partial & Hok & _ & Hflushed).
    rewrite (saved_in_run _ _ _ _ _ _ _ Hsaved Hok Hflushed).
    rewrite numbered_values, sum_lengths_concat, concat_app, open_bucket_concat.
    rewrite (ok_allocated _ _ _ _ _ Hok), length_take. apply Nat.min_comm.
  - rewrite (Hout area Harea), (classified_into_outside _ _ Harea). done.
Qed.

(** C3: for every list of documents no matter holds more than
    [DOCS_PER_MATTER] documents: not in the tracking dict when the loop is
    left (so after every document, the loop over a prefix of the input
    being the loop up to there), and not in any call of [save_matter], be
    it for a full matter or for a partial one flushed at the end; every
    saved matter has a folder of its own. *)
Theorem no_matter_exceeds_capacity (pdf_files : list string)
    (tree : gmap string string) :
  (∃ st, main_loop pdf_files (init_alloc tree) = Some st ∧
         Forall (λ area_docs,
                   Forall (λ item, length item.2 ≤ DOCS_PER_MATTER) area_docs.2)
                (matter_docs st) ∧
         Forall (λ call, length call.2 ≤ DOCS_PER_MATTER) (saved st))
  ∧ (∃ fin, main pdf_files tree = Some fin ∧
            Forall (λ area_docs,
                      Forall (λ item, length item.2 ≤ DOCS_PER_MATTER) area_docs.2)
                   (matter_docs fin) ∧
            Forall (λ call, 1 ≤ length call.2 ≤ DOCS_PER_MATTER) (saved fin) ∧
            NoDup ((λ call, call.1) <$> saved fin)).
Proof.
  destruct (main_run pdf_files tree)
    as (st & fin & flushed & Hloop & _ & Hmain & Hdocs & Hsaved & _ & Hk2 & Hout & Hin).
  assert (NoDup (PyDict.keys (matter_docs st))) as Hnd.
  { rewrite Hk2. apply NoDup_AREAS. }
  assert (Forall (λ area_docs,
                    Forall (λ item, length item.2 ≤ DOCS_PER_MATTER) area_docs.2)
                 (matter_docs st)) as Hbuckets.
  { apply Forall_forall. intros [area area_docs] Hitem. simpl.
    assert (area ∈ AREAS) as Harea.
    { rewrite <-Hk2. apply list_elem_of_fmap. by exists (area, area_docs). }
    destruct (Hin area Harea) as (full & partial & Hok & _).
    apply (get_item _ _ _ Hnd) in Hitem.
    rewrite (ok_docs _ _ _ _ _ Hok) in Hitem. injection Hitem as <-.
    apply Forall_fmap with (f := snd) (P := λ b, length b ≤ DOCS_PER_MATTER).
    rewrite numbered_values.
    eapply Forall_impl; [exact (buckets_bounds _ _ _ _ _ Hok)|].
    simpl. lia. }
  assert (Forall (λ call : string * nat * list string,
                    1 ≤ length call.2 ≤ DOCS_PER_MATTER) (saved fin)) as Hcalls.
  { apply Forall_forall. intros call Hcall.
    apply elem_of_saved_in in Hcall.
    destruct (decide (call.1.1 ∈ AREAS)) as [Harea|Harea];
      [|by rewrite (Hout _ Harea) in Hcall; apply elem_of_nil in Hcall].
    destruct (Hin _ Harea) as (full & partial & Hok & _ & Hflushed).
    rewrite (saved_in_run _ _ _ _ _ _ _ Hsaved Hok Hflushed) in Hcall.
    assert (call.2 ∈ full ++ open_bucket partial) as Hb.
    { rewrite <-(numbered_values 1). apply list_elem_of_fmap. by eexists (_, _). }
    pose proof (buckets_bounds _ _ _ _ _ Hok) as Hall.
    rewrite Forall_forall in Hall. by apply Hall. }
  split.
  - exists st. do 2 (split; [done|]).
    rewrite Hsaved in Hcalls. apply Forall_app in Hcalls as [Hcalls _].
    eapply Forall_impl; [exact Hcalls|]. simpl. lia.
  - destruct Hmain as [-> | Hmain].
    { eexists. split; [apply main_empty|]. simpl.
      repeat split; try by apply Forall_nil. apply NoDup_nil_2. }
    exists fin. split; [done|]. rewrite Hdocs. do 2 (split; [done|]).
    apply NoDup_saved_folders. intros area.
    destruct (decide (area ∈ AREAS)) as [Harea|Harea];
      [|rewrite (Hout _ Harea); apply NoDup_nil_2].
    destruct (Hin _ Harea) as (full & partial & Hok & _ & Hflushed).
    rewrite (saved_in_run _ _ _ _ _ _ _ Hsaved Hok Hflushed).
    apply NoDup_numbered.
Qed.


End allocator_claims.

(** ** Re-running the extractor of [download_fund_sec_filings.py] *)
Section fund_filings_rerun.
Import PyStr Walk FundFilings Rerun Allocator.

Lemma copies_nil : copies (λ st, st) [].
Proof. by intros st Hkeys. Qed.

Lemma copies_compose f g ops1 ops2 :
  copies f ops1 → copies g ops2 → copies (λ st, g (f st)) (ops1 ++ ops2).
Proof.
  intros Hf Hg st Hkeys. destruct (Hf st Hkeys) as (Hf1 & Hf2 & Hf3).
  destruct (Hg (f st) Hf2) as (Hg1 & Hg2 & Hg3).
  split; [by rewrite foldl_app, Hg1, Hf1|]. split; [done|].
  intros [H1 H2]%Forall_app. rewrite Hf3 in * by done. by apply Hg3.
Qed.

Lemma copies_foldl {A} (step : A → extract → extract) (ops : A → list (string * string))
    (xs : list A) :
  (∀ x, copies (step x) (ops x)) →
  copies (λ st, foldl (λ st x, step x st) st xs) (mjoin (ops <$> xs)).
Proof.
  intros Hstep. induction xs as [|x xs IH] using rev_ind.
  - apply copies_nil.
  - rewrite fmap_app, join_app. simpl. rewrite app_nil_r.
    intros st. rewrite foldl_app. simpl.
    by apply (copies_compose _ (step x) _ _ IH (Hstep x)).
Qed.

(** The subscript [total_found[doc_type]] of a routed document type is
    defined. *)
Lemma routed_doc_type_counted doc_type out_folder (counters : list (string * nat)) :
  out_folder_of doc_type = Some out_folder →
  PyDict.keys counters = PyDict.keys init_total_found →
  is_Some (PyDict.get doc_type counters).
Proof.
  intros Hroute Hkeys. apply get_is_Some. rewrite Hkeys.
  unfold out_folder_of in Hroute.
  repeat (destruct (decide _) as [->|_] in Hroute;
          [by apply (bool_decide_unpack _)|]).
  done.
Qed.

Lemma copy_fund_docs_copies ticker accession fund_docs : ∀ st,
  PyDict.keys (total_found st) = PyDict.keys init_total_found →
  ∃ st', copy_fund_docs ticker accession fund_docs st = (st', false) ∧
         out_tree st' = foldl gated_copy (out_tree st)
                              (planned_docs ticker accession fund_docs) ∧
         PyDict.keys (total_found st') = PyDict.keys init_total_found ∧
         (Forall (λ op, is_Some (out_tree st !! op.1))
                 (planned_docs ticker accession fund_docs) → st' = st).
Proof.
  induction fund_docs as [|[[filepath doc_type] filename] fund_docs IH];
    intros st Hkeys.
  - by exists st.
  - cbn [copy_fund_docs]. unfold planned_docs. cbn [omap list_omap fst snd].
    fold (planned_docs ticker accession fund_docs).
    destruct (out_folder_of doc_type) as [out_folder|] eqn:Hroute;
      cbn [fmap option_fmap option_map]; [|by apply IH].
    cbn [foldl]. unfold gated_copy at 2. cbn [fst snd].
    destruct (bool_decide _) eqn:Hexists.
    + destruct (IH st Hkeys) as (st' & Hrun & Htree & Hkeys' & Hsame).
      exists st'. do 3 (split; [done|]).
      intros [_ Hall]%Forall_cons_1. by apply Hsame.
    + destruct (routed_doc_type_counted _ _ _ Hroute Hkeys) as [n Hn].
      rewrite Hn.
      edestruct IH as (st' & Hrun & Htree & Hkeys' & Hsame); last first.
      * exists st'. split; [exact Hrun|]. split; [exact Htree|].
        split; [exact Hkeys'|].
        intros [Hdone _]%Forall_cons_1. simpl in Hdone.
        apply bool_decide_eq_false in Hexists. done.
      * cbn [total_found]. rewrite keys_set by by eexists. done.
Qed.

Lemma process_accessions_copies ticker accessions : ∀ st,
  PyDict.keys (total_found st) = PyDict.keys init_total_found →
  ∃ st', process_accessions ticker accessions st = (st', false) ∧
         out_tree st' = foldl gated_copy (out_tree st)
                              (planned_accessions ticker accessions) ∧
         PyDict.keys (total_found st') = PyDict.keys init_total_found ∧
         (Forall (λ op, is_Some (out_tree st !! op.1))
                 (planned_accessions ticker accessions) → st' = st).
Proof.
  induction accessions as [|[accession [filing|]] accessions IH]; intros st Hkeys.
  - by exists st.
  - cbn [process_accessions]. unfold planned_accessions.
    rewrite fmap_cons. cbn [mjoin list_join fst snd].
    fold (planned_accessions ticker accessions).
    destruct (copy_fund_docs_copies ticker accession
                (find_fund_docs_in_filing filing) st Hkeys)
      as (st1 & -> & Htree1 & Hkeys1 & Hsame1).
    destruct (IH st1 Hkeys1) as (st' & Hrun & Htree & Hkeys' & Hsame).
    exists st'. split; [done|]. split; [by rewrite foldl_app, Htree, Htree1|].
    split; [done|]. intros [H1 H2]%Forall_app.
    rewrite Hsame1 in * by done. by apply Hsame.
  - cbn [process_accessions]. unfold planned_accessions.
    rewrite fmap_cons. cbn [mjoin list_join fst snd app].
    by apply IH.
Qed.

Lemma process_filing_type_copies disk ticker filing_type :
  copies (process_filing_type disk ticker filing_type)
         (planned_filing_type disk ticker filing_type).
Proof.
  intros st Hkeys. unfold process_filing_type, planned_filing_type.
  destruct (disk ticker filing_type) as [| |accessions]; [done..|].
  destruct (process_accessions_copies ticker accessions st Hkeys)
    as (st' & -> & Htree & Hkeys' & Hsame). done.
Qed.

Lemma run_copies disk :
  copies (λ st, foldl (λ st ticker, process_ticker disk ticker st) st
                      INVESTMENT_COMPANIES)
         (planned disk).
Proof.
  apply (copies_foldl (process_ticker disk)). intros ticker.
  apply (copies_foldl (process_filing_type disk ticker)). intros filing_type.
  apply process_filing_type_copies.
Qed.

Lemma gated_copy_keeps tree op path :
  is_Some (tree !! path) → is_Some (gated_copy tree op !! path).
Proof.
  intros Hpath. unfold gated_copy. destruct (bool_decide _); [done|].
  destruct (decide (op.1 = path)) as [->|Hne].
  - rewrite lookup_insert_eq. by eexists.
  - by rewrite lookup_insert_ne.
Qed.

Lemma gated_copies_keep ops : ∀ tree path,
  is_Some (tree !! path) → is_Some (foldl gated_copy tree ops !! path).
Proof.
  induction ops as [|op ops IH]; intros tree path Hpath; [done|].
  simpl. by apply IH, gated_copy_keeps.
Qed.

(** After the gated copies every destination exists. *)
Lemma gated_copies_done ops : ∀ tree,
  Forall (λ op, is_Some (foldl gated_copy tree ops !! op.1)) ops.
Proof.
  induction ops as [|op ops IH]; intros tree; [by apply Forall_nil|].
  simpl. apply Forall_cons. split; [|apply IH].
  apply gated_copies_keep. unfold gated_copy.
  destruct (bool_decide _) eqn:Hexists.
  - by apply bool_decide_eq_true in Hexists.
  - rewrite lookup_insert_eq. by eexists.
Qed.

(** A second run over the same two documents finds their names taken and
    adds the copies [doc0_0.pdf] and [doc1_1.pdf] to the output tree. *)
Lemma second_cuad_run_adds_renamed_copies :
  (first ← Cuad.main two_documents ∅;
   second ← Cuad.main two_documents (Cuad.out_tree first);
   Some (map_to_list (Cuad.out_tree first), map_to_list (Cuad.out_tree second)))
  = Some ([("./cuad_matters/Commercial_1/doc1.pdf", "CUAD_v1/doc1.pdf");
           ("./cuad_matters/Commercial_1/doc0.pdf", "CUAD_v1/doc0.pdf")],
          [("./cuad_matters/Commercial_1/doc1_1.pdf", "CUAD_v1/doc1.pdf");
           ("./cuad_matters/Commercial_1/doc1.pdf", "CUAD_v1/doc1.pdf");
           ("./cuad_matters/Commercial_1/doc0_0.pdf", "CUAD_v1/doc0.pdf");
           ("./cuad_matters/Commercial_1/doc0.pdf", "CUAD_v1/doc0.pdf")]).
Proof. by vm_compute. Qed.

(** C5 fails in [download_cuad_contracts.py]: [save_matter] does not skip
    a destination that exists.  On the documents [d/x.pdf] and [d/x_0.pdf]
    the first run saves both under their names; the second run, on the
    tree that the first one left, writes [d/x.pdf] over the copy of
    [d/x_0.pdf] and adds [x_0_1.pdf]. *)
Theorem second_cuad_run_overwrites_saved_document :
  (first ← Cuad.main colliding_documents ∅;
   second ← Cuad.main colliding_documents (Cuad.out_tree first);
   Some (map_to_list (Cuad.out_tree first), map_to_list (Cuad.out_tree second)))
  = Some ([("./cuad_matters/Commercial_1/x_0.pdf", "d/x_0.pdf");
           ("./cuad_matters/Commercial_1/x.pdf", "d/x.pdf")],
          [("./cuad_matters/Commercial_1/x_0_1.pdf", "d/x_0.pdf");
           ("./cuad_matters/Commercial_1/x_0.pdf", "d/x.pdf");
           ("./cuad_matters/Commercial_1/x.pdf", "d/x.pdf")]).
Proof. by vm_compute. Qed.

(** X19: a second run of [download_and_extract_fund_docs] over the same
    filings, on the output tree the first run left, changes no file of the
    tree and counts no document as found: a copy is made only to a path
    that does not exist. *)
Theorem fund_extractor_rerun_changes_nothing
    (disk : string → string → listing) (tree : gmap string string) :
  let first := download_and_extract_fund_docs disk tree in
  download_and_extract_fund_docs disk (out_tree first)
  = {| out_tree := out_tree first; total_found := init_total_found |}.
Proof.
  intros first. unfold first, download_and_extract_fund_docs.
  destruct (run_copies disk {| out_tree := tree; total_found := init_total_found |}
              eq_refl) as (Htree & _ & _).
  cbn beta in Htree. rewrite Htree. cbn [out_tree].
  destruct (run_copies disk
              {| out_tree := foldl gated_copy tree (planned disk);
                 total_found := init_total_found |} eq_refl) as (_ & _ & Hsame).
  apply Hsame. cbn [out_tree]. apply gated_copies_done.
Qed.

End fund_filings_rerun.

(** ** One document type per scanned file *)
Section one_type_per_file.
Import PyStr Walk Filing.

(** C4 fails in [download_fund_sec_filings.py]: the [break] leaves only
    the loop over the keywords, so a file whose text has a keyword of two
    document types is listed once for each of them. *)
Theorem filings_lists_file_once_per_type :
  FundFilings.find_fund_docs_in_filing side_letter_exhibit
  = [ ("./sec_fund_filings/sec-edgar-filings/KKR/8-K/0001193125-22-057998/ex10-3.htm",
       "side_letter", "ex10-3.htm");
      ("./sec_fund_filings/sec-edgar-filings/KKR/8-K/0001193125-22-057998/ex10-3.htm",
       "subscription", "ex10-3.htm") ].
Proof. by vm_compute. Qed.

Lemma expanded_scan_doc_types items filepath filename content filename_lower :
  ∀ fund_docs,
  ∃ found,
    FundExpanded.scan_doc_types items filepath filename content filename_lower fund_docs
    = fund_docs ++ found
    ∧ found.*1.*1 `sublist_of` [filepath].
Proof.
  induction items as [|[doc_type kw_list] items IH]; intros fund_docs.
  - exists []. rewrite app_nil_r. split; [done|]. apply sublist_nil_l.
  - cbn [FundExpanded.scan_doc_types].
    destruct (FundExpanded.kw_list_hit _ _ _); [|apply IH].
    destruct (_ <? _)%N.
    + by exists [(filepath, doc_type, filename)].
    + exists []. rewrite app_nil_r. split; [done|]. apply sublist_nil_l.
Qed.

Lemma expanded_scan_files root files : ∀ fund_docs,
  ∃ found,
    FundExpanded.scan_files root files fund_docs = fund_docs ++ found
    ∧ found.*1.*1 `sublist_of` (path_join root <$> files.*1).
Proof.
  induction files as [|[filename data] files IH]; intros fund_docs.
  - exists []. by rewrite app_nil_r.
  - cbn [FundExpanded.scan_files]. rewrite !fmap_cons. cbn [fst].
    assert (∃ found,
              FundExpanded.scan_files root files fund_docs = fund_docs ++ found
              ∧ found.*1.*1 `sublist_of`
                  (path_join root filename :: (path_join root <$> files.*1)))
      as Hskip.
    { destruct (IH fund_docs) as (found & Hrun & Hsub).
      exists found. split; [done|]. by apply sublist_cons. }
    destruct (negb _); [done|]. destruct (_ || _); [done|].
    destruct data as [text|]; [|done].
    destruct (expanded_scan_doc_types FundExpanded.FUND_DOC_KEYWORDS
                (path_join root filename) filename
                (lower (read 100000 text)) (lower filename) fund_docs)
      as (found1 & -> & Hsub1).
    destruct (IH (fund_docs ++ found1)) as (found2 & -> & Hsub2).
    exists (found1 ++ found2). split; [by rewrite app_assoc|].
    rewrite !fmap_app. by apply (sublist_app _ [_]).
Qed.

Lemma expanded_scan_walk filing : ∀ fund_docs,
  ∃ found,
    FundExpanded.scan_walk filing fund_docs = fund_docs ++ found
    ∧ found.*1.*1 `sublist_of` walk_paths filing.
Proof.
  induction filing as [|[root files] filing IH]; intros fund_docs.
  - exists []. by rewrite app_nil_r.
  - cbn [FundExpanded.scan_walk].
    destruct (expanded_scan_files root files fund_docs) as (found1 & -> & Hsub1).
    destruct (IH (fund_docs ++ found1)) as (found2 & -> & Hsub2).
    exists (found1 ++ found2). split; [by rewrite app_assoc|].
    unfold walk_paths. rewrite fmap_cons. cbn [mjoin list_join fst snd].
    rewrite !fmap_app. by apply sublist_app.
Qed.

(** [download_fund_sec_expanded.py] does what C4 says: the files of the
    returned entries are a sublist of the files of the directory, so a file
    is listed at most once. *)
Lemma expanded_lists_file_at_most_once (filing : walk) :
  (FundExpanded.find_fund_docs_in_filing filing).*1.*1 `sublist_of` walk_paths filing.
Proof.
  unfold FundExpanded.find_fund_docs_in_filing.
  by destruct (expanded_scan_walk filing []) as (found & -> & Hsub).
Qed.

End one_type_per_file.

(** ** The deduplication gates *)
Section deduplication.
Import PyStr Net SideLetters FundFormation FirstOccurrence.

Lemma dedupe_loop_first_occurrences all_results : ∀ seen_urls unique_results,
  (dedupe_loop all_results seen_urls unique_results).2
  = unique_results
    ++ filter (λ r, url r ∉ seen_urls) (first_occurrences all_results).
Proof.
  induction all_results as [|r results IH]; intros seen_urls unique_results.
  - simpl. by rewrite app_nil_r.
  - cbn [dedupe_loop first_occurrences].
    destruct (decide (url r ∈ seen_urls)) as [Hseen|Hnew]; rewrite IH.
    + f_equal. rewrite filter_cons_False by (intros Hnot; by apply Hnot).
      symmetry. apply list_filter_filter_l. intros r' Hr' Heq.
      apply Hr'. by rewrite Heq.
    + rewrite <-app_assoc. cbn [app]. f_equal.
      rewrite filter_cons_True by done. f_equal.
      rewrite list_filter_filter. apply list_filter_iff. intros r'.
      rewrite not_elem_of_union, not_elem_of_singleton. tauto.
Qed.

(** The set ends up holding the URLs seen before and those of the results. *)
Lemma dedupe_loop_seen all_results : ∀ seen_urls unique_results,
  (dedupe_loop all_results seen_urls unique_results).1
  = list_to_set (url <$> all_results) ∪ seen_urls.
Proof.
  induction all_results as [|r results IH]; intros seen_urls unique_results.
  - simpl. by rewrite (left_id_L ∅ (∪)).
  - cbn [dedupe_loop]. rewrite fmap_cons. cbn [list_to_set].
    destruct (decide (url r ∈ seen_urls)) as [Hseen|Hnew]; rewrite IH.
    + rewrite <-(assoc_L (∪) {[url r]}). symmetry. apply subseteq_union_1_L.
      apply singleton_subseteq_l, elem_of_union. by right.
    + by rewrite (assoc_L (∪)), (comm_L (∪) _ {[url r]}).
Qed.

Lemma dedupe_first_occurrences all_results :
  dedupe all_results = first_occurrences all_results.
Proof.
  unfold dedupe. rewrite dedupe_loop_first_occurrences. cbn [app].
  induction (first_occurrences all_results) as [|r l IH]; [done|].
  rewrite filter_cons_True by apply not_elem_of_empty. by f_equal.
Qed.

Lemma first_occurrences_sublist results :
  first_occurrences results `sublist_of` results.
Proof.
  induction results as [|r results IH]; [done|]. cbn [first_occurrences].
  apply sublist_skip. etrans; [apply sublist_filter|done].
Qed.

Lemma first_occurrences_NoDup results : NoDup (url <$> first_occurrences results).
Proof.
  induction results as [|r results IH]; [apply NoDup_nil_2|].
  cbn [first_occurrences]. rewrite fmap_cons. apply NoDup_cons. split.
  - intros (r' & Heq & [Hne _]%list_elem_of_filter)%list_elem_of_fmap. done.
  - eapply sublist_NoDup; [exact IH|apply fmap_sublist, sublist_filter].
Qed.

Lemma first_occurrences_elem results r :
  r ∈ first_occurrences results ↔ first_with_its_url results r.
Proof.
  induction results as [|r0 results IH].
  - split; [by intros ?%elem_of_nil|]. by intros (i & Hi & _).
  - cbn [first_occurrences]. rewrite elem_of_cons, list_elem_of_filter, IH. split.
    + intros [->|[Hne (i & Hi & Hfirst)]].
      * exists 0. split; [done|]. intros j r' Hj. lia.
      * exists (S i). split; [done|]. intros [|j] r' Hj Hr'.
        -- by injection Hr' as <-.
        -- apply (Hfirst j); [lia|done].
    + intros ([|i] & Hi & Hfirst).
      * left. by injection Hi as <-.
      * right. split.
        -- intros Heq. by apply (Hfirst 0 r0); [lia| |].
        -- exists i. split; [done|]. intros j r' Hj Hr'.
           apply (Hfirst (S j)); [lia|done].
Qed.

(** [download_file] writes to its destination only. *)
Lemma download_attempts_other_path net max_retries attempts dest_path path :
  path ≠ dest_path → ∀ url st,
  tree (download_attempts net max_retries attempts url dest_path st).2 !! path
  = tree st !! path.
Proof.
  intros Hne.
  induction attempts as [|attempt attempts IH]; intros url st; [done|].
  cbn [download_attempts]. unfold fetch.
  assert (∀ data, <[dest_path := data]> (tree st) !! path = tree st !! path) as Hput.
  { intros data. by rewrite lookup_insert_ne. }
  destruct (net (clock st)) as [data|[data|]]; cbn [snd tree]; try done;
    destruct (attempt <? max_retries - 1); cbn [snd tree];
    rewrite ?IH; cbn [sleep tree]; done.
Qed.

Lemma download_uva_document_keeps net folder_path document acc path data :
  tree acc.2 !! path = Some data →
  tree (download_uva_document net folder_path document acc).2 !! path = Some data.
Proof.
  destruct document as [name doc_path], acc as [total st]. cbn [snd].
  intros Hpath. unfold download_uva_document.
  destruct (bool_decide _) eqn:Hexists; [done|].
  apply bool_decide_eq_false in Hexists.
  destruct (download_file _ _ _ _) as [ok st'] eqn:Hrun. cbn [snd sleep tree].
  change st' with (ok, st').2. rewrite <-Hrun. unfold download_file.
  rewrite download_attempts_other_path; [done|].
  intros ->. apply Hexists. by eexists.
Qed.

Lemma download_documents_keep net table st path data :
  tree st !! path = Some data →
  tree (download_documents net table st).2 !! path = Some data.
Proof.
  intros Hpath. unfold download_documents.
  assert (tree (0, st).2 !! path = Some data) as Hacc by done.
  revert Hacc. generalize (0, st).
  induction table as [|[doc_type documents] table IH]; intros acc Hacc; [done|].
  cbn [foldl]. apply IH. cbn [fst snd]. revert acc Hacc.
  induction documents as [|document documents IHd]; intros acc Hacc; [done|].
  cbn [foldl]. by apply IHd, download_uva_document_keeps.
Qed.

(** C7: the gate keeps a result when its URL is not among the URLs seen
    and records the URL, so the deduplicated list is the list of the first
    occurrences of the distinct URLs, in their order: no URL twice, the
    order of the input kept, and a result is in it exactly when it stands
    where its URL occurs first.  Likewise [download_uva_documents] skips a
    document whose destination exists, without a request or a write, and a
    run leaves every file that exists as it is. *)
Theorem dedupe_gate_keeps_first_occurrences (all_results : list result) :
  dedupe all_results = first_occurrences all_results
  ∧ (dedupe_loop all_results ∅ []).1 = list_to_set (url <$> all_results)
  ∧ NoDup (url <$> dedupe all_results)
  ∧ dedupe all_results `sublist_of` all_results
  ∧ (∀ r, r ∈ dedupe all_results ↔ first_with_its_url all_results r)
  ∧ (∀ net folder_path name path total_downloaded st,
       is_Some (tree st !! path_join folder_path (name +:+ (splitext path).2)) →
       download_uva_document net folder_path (name, path) (total_downloaded, st)
       = (total_downloaded + 1, st))
  ∧ (∀ net st path data,
       tree st !! path = Some data →
       tree (download_uva_documents net st).2 !! path = Some data).
Proof.
  rewrite dedupe_first_occurrences.
  split; [done|].
  split; [by rewrite dedupe_loop_seen, (right_id_L ∅ (∪))|].
  split; [apply first_occurrences_NoDup|].
  split; [apply first_occurrences_sublist|].
  split; [apply first_occurrences_elem|]. split.
  - intros net folder_path name path total st Hexists.
    unfold download_uva_document. by rewrite bool_decide_true.
  - intros net st path data. apply download_documents_keep.
Qed.

End deduplication.

(** ** Retries and the fall-back source *)
Section downloads.
Import PyStr Net Cuad FundFormation Retry.

Lemma replace_char_no_space url : has_char " " (replace_char " " "%20" url) = false.
Proof.
  induction url as [|c url IH]; [done|]. cbn [replace_char].
  destruct (decide (c = " "%char)) as [->|Hne]; [exact IH|].
  cbn [has_char]. by rewrite decide_False.
Qed.

Lemma quote_spaces_idemp url : quote_spaces (quote_spaces url) = quote_spaces url.
Proof.
  unfold quote_spaces at 2 3. destruct (has_char " " url) eqn:Hspace.
  - unfold quote_spaces. by rewrite replace_char_no_space.
  - unfold quote_spaces. by rewrite Hspace.
Qed.

Lemma download_attempts_quoted net max_retries attempts url dest_path st :
  download_attempts net max_retries attempts url dest_path st
  = download_attempts net max_retries attempts (quote_spaces url) dest_path st.
Proof.
  destruct attempts as [|attempt attempts]; [done|]. cbn [download_attempts].
  fold (quote_spaces url). fold (quote_spaces (quote_spaces url)).
  by rewrite quote_spaces_idemp.
Qed.

Lemma download_attempts_step net max_retries attempt attempts url dest_path st :
  quote_spaces url = url →
  download_attempts net max_retries (attempt :: attempts) url dest_path st
  = match fetch net url dest_path st with
    | (Body _, st') => (true, st')
    | (RequestException _, st') =>
        if attempt <? max_retries - 1
        then download_attempts net max_retries attempts url dest_path (sleep 2000 st')
        else (false, st')
    end.
Proof.
  intros Hquoted. cbn [download_attempts]. fold (quote_spaces url).
  by rewrite Hquoted.
Qed.

(** C9: [download_file] makes at most [max_retries = 3] attempts, sleeps
    the same two seconds between two attempts and not after the last one,
    returns [True] at the first attempt that succeeds and [False], a value
    and not an exception, when the three attempts fail. *)
Theorem download_file_retries (net : nat → response) (url dest_path : string)
    (st : disk) :
  let result := download_file net url dest_path st in
  match first_success net (clock st) 3 with
  | Some failed =>
      failed < 3 ∧
      result.1 = true ∧
      clock result.2 = clock st + S failed ∧
      trace result.2 = trace st ++ retry_trace (quote_spaces url) failed
  | None =>
      result.1 = false ∧
      clock result.2 = clock st + 3 ∧
      trace result.2 = trace st ++ retry_trace (quote_spaces url) 2
  end.
Proof.
  intros result. pose proof (eq_refl result) as Hrun. unfold result at 2 in Hrun.
  clearbody result. unfold download_file in Hrun. cbn [seq] in Hrun.
  rewrite download_attempts_quoted in Hrun.
  pose proof (quote_spaces_idemp url) as Hquoted.
  unfold retry_trace. cbn [first_success].
  rewrite (download_attempts_step _ _ _ _ _ _ _ Hquoted) in Hrun.
  unfold fetch in Hrun.
  destruct (net (clock st)) as [data0|written0]; cbn [is_body].
  { subst result. cbn [fst snd clock trace].
    split; [lia|]. split; [done|]. split; [lia|]. done. }
  cbn [Nat.ltb Nat.leb Nat.sub] in Hrun.
  rewrite (download_attempts_step _ _ _ _ _ _ _ Hquoted) in Hrun.
  unfold fetch in Hrun. cbn [sleep clock trace tree] in Hrun.
  destruct (net (S (clock st))) as [data1|written1];
    cbn [is_body fmap option_fmap option_map].
  { subst result. cbn [fst snd clock trace].
    split; [lia|]. split; [done|]. split; [lia|]. by rewrite <-!app_assoc. }
  cbn [Nat.ltb Nat.leb Nat.sub] in Hrun.
  rewrite (download_attempts_step _ _ _ _ _ _ _ Hquoted) in Hrun.
  unfold fetch in Hrun. cbn [sleep clock trace tree] in Hrun.
  destruct (net (S (S (clock st)))) as [data2|written2];
    cbn [is_body fmap option_fmap option_map].
  { subst result. cbn [fst snd clock trace].
    split; [lia|]. split; [done|]. split; [lia|]. by rewrite <-!app_assoc. }
  cbn [Nat.ltb Nat.leb Nat.sub] in Hrun. subst result. cbn [fst snd clock trace].
  split; [done|]. split; [lia|]. by rewrite <-!app_assoc.
Qed.

(** With a header that [int] accepts, a source is a request that ends
    the loop with the path or is followed by a sleep and the next source. *)
Lemma try_sources_step net headers url sources zip_path st :
  int_accepts (headers (clock st)) = true →
  try_sources net headers (url :: sources) zip_path st
  = match fetch net url zip_path st with
    | (Body _, st') => (Returns zip_path, st')
    | (RequestException _, st') =>
        try_sources net headers sources zip_path (sleep 2000 st')
    end.
Proof.
  intros Haccepts. cbn [try_sources]. unfold fetch.
  destruct (headers (clock st)) as [|total_size|text];
    [| |cbn in Haccepts; discriminate Haccepts];
    by destruct (net (clock st)) as [data|[written|]].
Qed.

Lemma download_cuad_zip_cases net headers st :
  int_accepts (headers (clock st)) = true →
  int_accepts (headers (S (clock st))) = true →
  ∃ st',
    download_cuad_zip net headers st
    = (if zip_already_downloaded (path_join TEMP_PATH "CUAD_v1.zip") st
          || is_body (net (clock st)) || is_body (net (S (clock st)))
       then Returns (path_join TEMP_PATH "CUAD_v1.zip")
       else Raises "Could not download CUAD from any source", st')
    ∧ (zip_already_downloaded (path_join TEMP_PATH "CUAD_v1.zip") st = true →
       st' = st).
Proof.
  intros Hfirst Hsecond. unfold download_cuad_zip.
  destruct (zip_already_downloaded _ st); [by exists st|].
  unfold CUAD_SOURCES. rewrite (try_sources_step _ _ _ _ _ _ Hfirst).
  unfold fetch.
  destruct (net (clock st)) as [data0|written0]; cbn [is_body orb];
    [eexists; split; [reflexivity|done]|].
  rewrite try_sources_step by exact Hsecond.
  unfold fetch. cbn [sleep clock trace tree try_sources].
  destruct (net (S (clock st))) as [data1|written1]; cbn [is_body];
    eexists; (split; [reflexivity|done]).
Qed.

(** C8 fails on an answer whose [content-length] is not an integer: the
    first source answers with a body and the header text [42, 42]; the
    parse raises ValueError, which the handler does not catch, so
    [download_cuad_zip] raises after one request, with nothing written,
    though the second source would have answered. *)
Theorem download_cuad_zip_malformed_length_is_fatal :
  let net := λ _ : nat, Body "PK" in
  let result := download_cuad_zip net repeated_length
                  {| tree := ∅; clock := 0; trace := [] |} in
  result.1 = ValueError "42, 42"
  ∧ clock result.2 = 1
  ∧ trace result.2
    = [Get "https://github.com/TheAtticusProject/cuad/releases/download/v1/CUAD_v1.zip"]
  ∧ tree result.2 = ∅
  ∧ is_body (net 1) = true.
Proof. by vm_compute. Qed.

(** X20: when the [content-length] header of every answer is absent or an
    integer, [download_cuad_zip] raises exactly when no ZIP of more than
    1000000 bytes is there and the request to every source of
    [CUAD_SOURCES] fails, and then it is the [Exception] of its last line;
    it returns the path of the ZIP exactly when such a ZIP is there, and
    then without a request, or a source answers. *)
Theorem download_cuad_zip_raises_iff_all_sources_fail (net : nat → response)
    (headers : nat → content_length) (st : disk) :
  (∀ i, i < length CUAD_SOURCES → int_accepts (headers (clock st + i)) = true) →
  let zip_path := path_join TEMP_PATH "CUAD_v1.zip" in
  let result := download_cuad_zip net headers st in
  ((∃ message, result.1 = Raises message) ↔
     zip_already_downloaded zip_path st = false ∧
     ∀ i, i < length CUAD_SOURCES → is_body (net (clock st + i)) = false)
  ∧ (result.1 = Returns zip_path ↔
       zip_already_downloaded zip_path st = true ∨
       ∃ i, i < length CUAD_SOURCES ∧ is_body (net (clock st + i)) = true)
  ∧ (zip_already_downloaded zip_path st = true → result = (Returns zip_path, st))
  ∧ (∀ literal, result.1 ≠ ValueError literal).
Proof.
  intros Hheaders. cbn zeta.
  assert (int_accepts (headers (clock st)) = true) as Hfirst.
  { rewrite <-(Nat.add_0_r (clock st)). apply Hheaders. cbn. lia. }
  assert (int_accepts (headers (S (clock st))) = true) as Hsecond.
  { rewrite <-(Nat.add_1_r (clock st)). apply Hheaders. cbn. lia. }
  clear Hheaders.
  assert (∀ P : nat → Prop, (∀ i, i < length CUAD_SOURCES → P (clock st + i))
                            ↔ P (clock st) ∧ P (S (clock st))) as Hall.
  { intros P. change (length CUAD_SOURCES) with 2. split.
    - intros HP. split; [specialize (HP 0)|specialize (HP 1)].
      + rewrite Nat.add_0_r in HP. apply HP. lia.
      + rewrite Nat.add_1_r in HP. apply HP. lia.
    - intros [H0 H1] [|[|i]] Hi; [by rewrite Nat.add_0_r|by rewrite Nat.add_1_r|lia]. }
  assert (∀ P : nat → Prop, (∃ i, i < length CUAD_SOURCES ∧ P (clock st + i))
                            ↔ P (clock st) ∨ P (S (clock st))) as Hex.
  { intros P. change (length CUAD_SOURCES) with 2. split.
    - intros ([|[|i]] & Hi & HP); [left; by rewrite Nat.add_0_r in HP
                                  |right; by rewrite Nat.add_1_r in HP|lia].
    - intros [H0|H1]; [exists 0; rewrite Nat.add_0_r|exists 1; rewrite Nat.add_1_r];
        (split; [lia|done]). }
  rewrite (Hall (λ n, is_body (net n) = false)).
  rewrite (Hex (λ n, is_body (net n) = true)). clear Hall Hex.
  destruct (download_cuad_zip_cases net headers st Hfirst Hsecond)
    as (st' & -> & Hst). cbn [fst].
  generalize dependent (path_join TEMP_PATH "CUAD_v1.zip"). intros zip_path Hst.
  destruct (zip_already_downloaded zip_path st).
  { rewrite Hst by done. cbn [orb]. split; [|split; [|split; [done|done]]].
    - split; [by intros [? ?]|by intros [? _]].
    - split; [by left|done]. }
  destruct (is_body (net (clock st))); cbn [orb].
  { split; [|split; [|split; [done|done]]].
    - split; [by intros [? ?]|by intros [_ [? _]]].
    - split; [intros _; right; by left|done]. }
  destruct (is_body (net (S (clock st)))).
  { split; [|split; [|split; [done|done]]].
    - split; [by intros [? ?]|by intros [_ [_ ?]]].
    - split; [intros _; right; by right|done]. }
  split; [|split; [|split; [done|done]]].
  - split; [done|]. intros _. by eexists.
  - split; [done|]. by intros [?|[?|?]].
Qed.

Lemma download_cuad_zip_raises_iff_all_sources_fail_witness :
  let net := λ request, if request =? 0 then RequestException None else Body "PK" in
  let st := {| tree := ∅; clock := 0; trace := [] |} in
  let zip_path := path_join TEMP_PATH "CUAD_v1.zip" in
  let result := download_cuad_zip net (λ _, NoHeader) st in
  ((∃ message, result.1 = Raises message) ↔
     zip_already_downloaded zip_path st = false ∧
     ∀ i, i < length CUAD_SOURCES → is_body (net (clock st + i)) = false)
  ∧ (result.1 = Returns zip_path ↔
       zip_already_downloaded zip_path st = true ∨
       ∃ i, i < length CUAD_SOURCES ∧ is_body (net (clock st + i)) = true)
  ∧ (zip_already_downloaded zip_path st = true → result = (Returns zip_path, st))
  ∧ (∀ literal, result.1 ≠ ValueError literal).
Proof.
  apply (download_cuad_zip_raises_iff_all_sources_fail
           (λ request, if request =? 0 then RequestException None else Body "PK")
           (λ _, NoHeader) {| tree := ∅; clock := 0; trace := [] |}).
  intros i _. reflexivity.
Defined.

End downloads.

(** ** The scripts on small inputs *)
Section examples.
Import PyStr Net Cuad Allocator SideLetters FundFormation.

Example classify_merger_agreement :
  classify_by_filename "Merger_Agreement_2020.pdf" = "M_and_A".
Proof. by vm_compute. Qed.

Example classify_vendor_contract :
  classify_by_filename "Generic_Vendor_Contract.pdf" = "Commercial".
Proof. by vm_compute. Qed.

(** No keyword matches: the default. *)
Example classify_unmatched : classify_by_filename "Exhibit_10.pdf" = "Commercial".
Proof. by vm_compute. Qed.

(** The first category wins: "license" (IP_Licensing) and "supply"
    (Commercial) both occur. *)
Example classify_first_category :
  classify_by_filename "SUPPLY and License Agreement.PDF" = "IP_Licensing".
Proof. by vm_compute. Qed.

(** Seventeen documents of one practice area: a full matter saved in the
    loop and a matter of two flushed at the end. *)
Example seventeen_documents :
  (λ fin, (PyDict.get "Commercial" (matter_counts fin),
           (λ call, (call.1, length call.2)) <$> saved fin,
           processed fin))
  <$> main (take 17 forty_six_documents) ∅
  = Some (Some 2, [("Commercial", 1, 15); ("Commercial", 2, 2)], 17).
Proof. by vm_compute. Qed.

Example splitext_examples :
  splitext "CUAD_v1/Part.I/Agreement.v2.pdf" = ("CUAD_v1/Part.I/Agreement.v2", ".pdf")
  ∧ splitext ".hidden" = (".hidden", "")
  ∧ splitext "a.b/c" = ("a.b/c", "")
  ∧ basename "CUAD_v1/Part.I/Agreement.v2.pdf" = "Agreement.v2.pdf"
  ∧ path_join "./cuad_matters" "Finance_1" = "./cuad_matters/Finance_1".
Proof. by vm_compute. Qed.

Example dedupe_example :
  dedupe [Result "u1" "A" "8-K"; Result "u2" "B" "8-K"; Result "u1" "C" "S-1";
          Result "u3" "D" "10-K"; Result "u2" "E" "S-1"]
  = [Result "u1" "A" "8-K"; Result "u2" "B" "8-K"; Result "u3" "D" "10-K"].
Proof. by vm_compute. Qed.

(** Two failures, the second one after some bytes were written, then a
    body: three requests, two sleeps, and the destination holds the body. *)
Example download_file_third_attempt :
  let net n := match n with
               | 0 => RequestException None
               | 1 => RequestException (Some "%PD")
               | _ => Body "%PDF-1.4"
               end in
  let result := download_file net "https://host/Lancer Offshore.pdf" "out/Lancer.pdf"
                  {| tree := ∅; clock := 0; trace := [] |} in
  result.1 = true
  ∧ tree result.2 !! "out/Lancer.pdf" = Some "%PDF-1.4"
  ∧ trace result.2 = [Get "https://host/Lancer%20Offshore.pdf"; Sleep 2000;
                      Get "https://host/Lancer%20Offshore.pdf"; Sleep 2000;
                      Get "https://host/Lancer%20Offshore.pdf"].
Proof. by vm_compute. Qed.

(** Both sources fail: the exception, after a sleep behind each of them. *)
Example download_cuad_zip_no_source :
  let result := download_cuad_zip (λ _, RequestException None) (λ _, NoHeader)
                  {| tree := ∅; clock := 0; trace := [] |} in
  result.1 = Raises "Could not download CUAD from any source"
  ∧ (λ e, match e with Get _ => 0 | Sleep ms => ms end) <$> trace result.2
    = [0; 2000; 0; 2000].
Proof. by vm_compute. Qed.

End examples.

(** ** More of [download_cuad_contracts.py]: the files found, the matters
    saved, the summary *)
Section cuad_files.
Import PyStr Cuad Allocator CuadFiles.

Lemma find_in_dir_spec root filenames extensions : ∀ files,
  find_in_dir root filenames extensions files
  = files ++ (path_join root
                <$> filter (λ filename, lower (splitext filename).2 ∈ extensions)
                           filenames).
Proof.
  induction filenames as [|filename filenames IH]; intros files.
  - simpl. by rewrite app_nil_r.
  - cbn [find_in_dir]. rewrite filter_cons. cbn zeta.
    destruct (decide (lower (splitext filename).2 ∈ extensions)) as [Hin|Hout].
    + rewrite bool_decide_true by done. rewrite IH, <-app_assoc. done.
    + rewrite bool_decide_false by done. apply IH.
Qed.

Lemma find_in_walk_spec w extensions : ∀ files,
  find_in_walk w extensions files = files ++ matching_files w extensions.
Proof.
  induction w as [|[root filenames] w IH]; intros files.
  - simpl. by rewrite app_nil_r.
  - cbn [find_in_walk]. rewrite IH, find_in_dir_spec, <-app_assoc. done.
Qed.

(** X1: [find_files] returns the paths [os.path.join(root, filename)] of
    the files of the walk for which [os.path.splitext(filename)[1].lower()]
    is a member of the extensions asked for, compared as they are given
    (the four default ones when none is given), each as often as the walk
    lists it, in ascending order. *)
Theorem find_files_sorted_matches (w : list (string * list string))
    (extensions : option (list string)) :
  let wanted := default [".pdf"; ".docx"; ".doc"; ".txt"] extensions in
  Sorted String.le (find_files w extensions)
  ∧ find_files w extensions ≡ₚ matching_files w wanted
  ∧ ∀ path, path ∈ find_files w extensions ↔
            ∃ root filenames filename,
              (root, filenames) ∈ w ∧ filename ∈ filenames ∧
              lower (splitext filename).2 ∈ wanted ∧
              path = path_join root filename.
Proof.
  intros wanted.
  assert (find_files w extensions ≡ₚ matching_files w wanted) as Hperm.
  { unfold find_files, sorted. rewrite merge_sort_Permutation, find_in_walk_spec.
    by destruct extensions. }
  split; [apply Sorted_merge_sort, _|]. split; [done|].
  intros path. rewrite Hperm. unfold matching_files.
  rewrite list_elem_of_join. split.
  - intros (paths & Hpath & ([root filenames] & -> & Hdir)%list_elem_of_fmap).
    cbn [fst snd] in Hpath.
    apply list_elem_of_fmap in Hpath as (filename & -> & [Hext Hin]%list_elem_of_filter).
    by exists root, filenames, filename.
  - intros (root & filenames & filename & Hdir & Hin & Hext & ->).
    eexists. split; [|apply list_elem_of_fmap; exists (root, filenames); split; [done|exact Hdir]].
    cbn [fst snd]. apply list_elem_of_fmap. exists filename. split; [done|].
    by apply list_elem_of_filter.
Qed.

(** The documents of the saved matters of an area, matter after matter. *)
Lemma main_saved_documents pdf_files tree :
  ∃ fin, main pdf_files tree = Some fin ∧
    ∀ area,
      concat (saved_in area (saved fin)).*2
      = take AREA_CAPACITY (classified_into area pdf_files)
      ∧ (saved_in area (saved fin)).*1 = seq 1 (length (saved_in area (saved fin)))
      ∧ length (saved_in area (saved fin)) ≤ TARGET_MATTERS_PER_AREA.
Proof.
  destruct (main_run pdf_files tree)
    as (st & fin & flushed & _ & _ & Hmain & _ & Hsaved & _ & _ & Hout & Hin).
  destruct Hmain as [-> | Hmain].
  { eexists. split; [apply main_empty|]. intros area. cbn. split; [done|].
    split; [done|lia]. }
  exists fin. split; [done|]. intros area.
  destruct (decide (area ∈ AREAS)) as [Harea|Harea].
  - destruct (Hin area Harea) as (full & partial & Hok & _ & Hflushed).
    rewrite (saved_in_run _ _ _ _ _ _ _ Hsaved Hok Hflushed).
    rewrite numbered_values, numbered_keys, concat_app, open_bucket_concat.
    split; [exact (ok_allocated _ _ _ _ _ Hok)|].
    assert (length (numbered 1 (full ++ open_bucket partial))
            = length (full ++ open_bucket partial)) as ->.
    { by rewrite <-(length_fmap snd), numbered_values. }
    split; [done|]. rewrite length_app.
    pose proof (ok_target _ _ _ _ _ Hok) as Htarget.
    pose proof (ok_closed _ _ _ _ _ Hok) as Hclosed.
    destruct (decide (length full = TARGET_MATTERS_PER_AREA)) as [Heq|Hne].
    + rewrite (Hclosed Heq). simpl. lia.
    + destruct partial; simpl; lia.
  - rewrite (Hout area Harea), (classified_into_outside _ _ Harea). cbn.
    split; [done|]. split; [done|lia].
Qed.

Lemma elem_of_concat (doc : string) (buckets : list (list string)) :
  doc ∈ concat buckets ↔ ∃ bucket, doc ∈ bucket ∧ bucket ∈ buckets.
Proof.
  induction buckets as [|b buckets IH]; simpl.
  - split; [by intros ?%elem_of_nil|]. by intros (? & _ & ?%elem_of_nil).
  - rewrite elem_of_app, IH. split.
    + intros [Hb|(bucket & Hdoc & Hin)]; [exists b; split; [done|by left]|].
      exists bucket. split; [done|by right].
    + intros (bucket & Hdoc & [->|Hin]%elem_of_cons); [by left|].
      right. by exists bucket.
Qed.

Lemma saved_documents_NoDup (calls : list (string * nat * list string)) :
  (∀ area, NoDup (concat (saved_in area calls).*2)) →
  (∀ call doc, call ∈ calls → doc ∈ call.2 →
               classify_by_filename (basename doc) = call.1.1) →
  NoDup (mjoin calls.*2).
Proof.
  induction calls as [|[[area n] docs] calls IH]; intros Harea Hclass;
    [apply NoDup_nil_2|].
  rewrite fmap_cons. cbn [mjoin list_join snd].
  pose proof (Harea area) as Hhere. cbn [saved_in omap list_omap fst snd] in Hhere.
  rewrite decide_True in Hhere by done. fold (saved_in area calls) in Hhere.
  rewrite fmap_cons in Hhere. cbn [concat snd] in Hhere.
  apply NoDup_app in Hhere as (Hdocs & Hfresh & _).
  apply NoDup_app. split; [done|]. split.
  - intros doc Hdoc (docs' & Hdoc' & (call' & -> & Hcall')%list_elem_of_fmap)%list_elem_of_join.
    apply (Hfresh doc Hdoc).
    assert (call'.1.1 = area) as Hsame.
    { trans (classify_by_filename (basename doc)).
      - symmetry. apply Hclass; [by right|done].
      - apply (Hclass (area, n, docs)); [by left|done]. }
    apply elem_of_saved_in in Hcall'. rewrite Hsame in Hcall'.
    apply elem_of_concat. exists call'.2. split; [done|].
    apply list_elem_of_fmap. by eexists (_, _).
  - apply IH.
    + intros a. specialize (Harea a). cbn [saved_in omap list_omap fst snd] in Harea.
      fold (saved_in a calls) in Harea.
      destruct (decide (area = a)); [|done].
      rewrite fmap_cons in Harea. cbn [concat snd] in Harea.
      by apply NoDup_app in Harea as (_ & _ & ?).
    + intros call doc Hcall. apply Hclass. by right.
Qed.

Lemma saved_document_classified pdf_files (fin : alloc) :
  (∀ area, concat (saved_in area (saved fin)).*2
           = take AREA_CAPACITY (classified_into area pdf_files)) →
  ∀ call doc, call ∈ saved fin → doc ∈ call.2 →
    classify_by_filename (basename doc) = call.1.1 ∧ doc ∈ pdf_files.
Proof.
  intros Hsaved call doc Hcall Hdoc.
  assert (doc ∈ take AREA_CAPACITY (classified_into call.1.1 pdf_files)) as Hin.
  { rewrite <-Hsaved. apply elem_of_concat. exists call.2. split; [done|].
    apply list_elem_of_fmap. exists (call.1.2, call.2). split; [done|].
    by apply elem_of_saved_in. }
  apply elem_of_take in Hin as (i & Hin%list_elem_of_lookup_2 & _).
  by apply list_elem_of_filter in Hin.
Qed.

(** X2: when the paths of the PDF files are distinct, as those that
    [find_files] returns are, no document is handed to [save_matter] twice,
    be it in one matter or in two, and every saved document is one of the
    input. *)
Theorem no_document_saved_twice (pdf_files : list string) (tree : gmap string string) :
  NoDup pdf_files →
  ∃ fin, main pdf_files tree = Some fin ∧
         NoDup (mjoin (saved fin).*2) ∧
         ∀ doc, doc ∈ mjoin (saved fin).*2 → doc ∈ pdf_files.
Proof.
  intros Hnd. destruct (main_saved_documents pdf_files tree) as (fin & Hmain & Hsaved).
  exists fin. split; [done|].
  pose proof (saved_document_classified pdf_files fin (λ a, proj1 (Hsaved a))) as Hclass.
  split.
  - apply saved_documents_NoDup.
    + intros area. rewrite (proj1 (Hsaved area)).
      eapply sublist_NoDup; [exact Hnd|].
      etrans; [apply sublist_take|apply sublist_filter].
    + intros call doc Hcall Hdoc. by apply Hclass.
  - intros doc (docs & Hdoc & (call & -> & Hcall)%list_elem_of_fmap)%list_elem_of_join.
    by apply (Hclass call).
Qed.

Lemma no_document_saved_twice_witness :
  NoDup three_documents ∧
  ∃ fin, main three_documents ∅ = Some fin ∧
         NoDup (mjoin (saved fin).*2) ∧
         ∀ doc, doc ∈ mjoin (saved fin).*2 → doc ∈ three_documents.
Proof.
  split; [by apply (bool_decide_unpack _)|].
  apply (no_document_saved_twice three_documents ∅).
  by apply (bool_decide_unpack _).
Defined.

(** X3: the saved matters of a practice area are numbered 1, 2, ... without
    a gap, there are at most [TARGET_MATTERS_PER_AREA] of them, and at the
    end [matter_counts] holds their number for every area. *)
Theorem matters_numbered_up_to_target (pdf_files : list string)
    (tree : gmap string string) (area : string) :
  ∃ fin, main pdf_files tree = Some fin ∧
         (saved_in area (saved fin)).*1 = seq 1 (length (saved_in area (saved fin))) ∧
         length (saved_in area (saved fin)) ≤ TARGET_MATTERS_PER_AREA ∧
         (pdf_files ≠ [] → area ∈ AREAS →
          PyDict.get area (matter_counts fin)
          = Some (length (saved_in area (saved fin)))).
Proof.
  destruct (main_saved_documents pdf_files tree) as (fin & Hmain & Hsaved).
  exists fin. split; [done|]. destruct (Hsaved area) as (_ & Hkeys & Hlen).
  do 2 (split; [done|]). intros Hne Harea.
  destruct (main_run pdf_files tree)
    as (st & fin' & flushed & _ & _ & Hmain' & _ & Hsaved' & _ & _ & _ & Hin).
  destruct Hmain' as [-> | Hmain']; [done|].
  rewrite Hmain in Hmain'. injection Hmain' as <-.
  destruct (Hin area Harea) as (full & partial & Hok & -> & Hflushed).
  rewrite (saved_in_run _ _ _ _ _ _ _ Hsaved' Hok Hflushed).
  by rewrite <-(length_fmap snd (numbered _ _)), numbered_values.
Qed.

(** *** The summary *)

Lemma flush_area_counts_keys area area_items : ∀ st st',
  flush_area area area_items st = Some st' →
  PyDict.keys (matter_counts st') = PyDict.keys (matter_counts st).
Proof.
  induction area_items as [|[matter_num docs] area_items IH]; intros st st'.
  - by intros [= ->].
  - cbn [flush_area]. destruct (bool_decide (docs = [])); [apply IH|].
    destruct (PyDict.get area (matter_counts st)) as [count|] eqn:Hcount; [|done].
    cbn [mbind option_bind]. destruct (count <? matter_num); [|apply IH].
    intros Hrun%IH. rewrite Hrun. cbn [matter_counts].
    apply keys_set. by eexists.
Qed.

Lemma flush_areas_counts_keys areas : ∀ st st',
  flush_areas areas st = Some st' →
  PyDict.keys (matter_counts st') = PyDict.keys (matter_counts st).
Proof.
  induction areas as [|area areas IH]; intros st st'.
  - by intros [= ->].
  - cbn [flush_areas].
    destruct (PyDict.get area (matter_docs st)) as [area_docs|]; [|done].
    cbn [mbind option_bind].
    destruct (flush_area area (PyDict.items area_docs) st) as [st1|] eqn:Hflush; [|done].
    cbn [mbind option_bind]. intros Hrun%IH.
    by rewrite Hrun, (flush_area_counts_keys _ _ _ _ Hflush).
Qed.

Lemma summary_total_spec (documents : string → nat) (st : alloc) counts : ∀ total_docs,
  Forall (λ item,
            ∃ area_docs,
              PyDict.get item.1 (matter_docs st) = Some area_docs ∧
              sum_list (length <$> PyDict.values area_docs) = documents item.1 ∧
              (item.2 = 0 → documents item.1 = 0)) counts →
  summary_total counts st total_docs
  = Some (total_docs + sum_list (documents <$> counts.*1)).
Proof.
  induction counts as [|[area count] counts IH]; intros total_docs Hall.
  - simpl. by rewrite Nat.add_0_r.
  - apply Forall_cons_1 in Hall as [(area_docs & Hdocs & Hsum & Hzero) Hall].
    cbn [summary_total]. rewrite !fmap_cons. cbn [fst snd] in *.
    change (sum_list (documents area :: (documents <$> counts.*1)))
      with (documents area + sum_list (documents <$> counts.*1)).
    destruct (0 <? count) eqn:Hcount.
    + rewrite Hdocs. cbn [mbind option_bind]. rewrite IH by done.
      rewrite Hsum. f_equal. lia.
    + apply Nat.ltb_ge in Hcount. rewrite IH by done.
      rewrite Hzero by lia. done.
Qed.

Lemma sum_list_at (area : string) (k : nat) (rest : string → nat) areas :
  NoDup areas → area ∈ areas →
  sum_list ((λ a, (if decide (area = a) then k else 0) + rest a) <$> areas)
  = k + sum_list (rest <$> areas).
Proof.
  induction areas as [|a areas IH]; intros Hnd Hin; [by apply elem_of_nil in Hin|].
  apply NoDup_cons in Hnd as [Hfresh Hnd]. rewrite !fmap_cons.
  change (sum_list (?x :: ?l)) with (x + sum_list l).
  destruct (decide (area = a)) as [->|Hne].
  - assert (sum_list ((λ a0, (if decide (a = a0) then k else 0) + rest a0) <$> areas)
            = sum_list (rest <$> areas)) as ->; [|lia].
    f_equal. apply list_fmap_ext. intros i a0 Ha0%list_elem_of_lookup_2.
    rewrite decide_False; [done|]. by intros <-.
  - apply elem_of_cons in Hin as [?|Hin]; [done|]. rewrite IH by done. lia.
Qed.

(** The documents of all calls, counted area by area. *)
Lemma documents_by_area areas (calls : list (string * nat * list string)) :
  NoDup areas →
  Forall (λ call, call.1.1 ∈ areas) calls →
  sum_list ((λ a, length (concat (saved_in a calls).*2)) <$> areas)
  = length (mjoin calls.*2).
Proof.
  intros Hnd. induction 1 as [|[[area n] docs] calls Harea _ IH].
  - cbn. induction areas as [|a areas IHa]; [done|].
    rewrite fmap_cons. change (sum_list (?x :: ?l)) with (x + sum_list l).
    apply NoDup_cons in Hnd as [_ Hnd]. by rewrite IHa.
  - rewrite fmap_cons. cbn [snd fst] in *.
    change (mjoin (docs :: calls.*2)) with (docs ++ mjoin calls.*2).
    rewrite length_app, <-IH, <-(sum_list_at area (length docs)) by done.
    f_equal. apply list_fmap_ext. intros i a _.
    cbn [saved_in omap list_omap fst snd]. fold (saved_in a calls).
    destruct (decide (area = a)); [|done].
    rewrite fmap_cons. cbn [concat snd]. by rewrite length_app.
Qed.

(** X4: the "Total documents" that [main] adds up at the end, over the
    areas whose count is positive, is the number of documents handed to
    [save_matter] in the run. *)
Theorem summary_counts_saved_documents (pdf_files : list string)
    (tree : gmap string string) :
  pdf_files ≠ [] →
  ∃ fin, main pdf_files tree = Some fin ∧
         total_documents fin = Some (length (mjoin (saved fin).*2)).
Proof.
  intros Hne.
  destruct (main_run pdf_files tree)
    as (st & fin & flushed & _ & Hflush & Hmain & Hdocs & Hsaved & Hk1 & Hk2 & Hout & Hin).
  destruct Hmain as [-> | Hmain]; [done|]. exists fin. split; [done|].
  assert (PyDict.keys (matter_counts fin) = AREAS) as Hkeys.
  { rewrite <-Hk1. by apply (flush_areas_counts_keys _ _ _ Hflush). }
  unfold total_documents, PyDict.items.
  rewrite (summary_total_spec (λ a, length (concat (saved_in a (saved fin)).*2))).
  - cbn [Nat.add]. f_equal. unfold PyDict.keys in Hkeys. rewrite Hkeys.
    apply documents_by_area; [apply NoDup_AREAS|].
    apply Forall_forall. intros call Hcall.
    destruct (decide (call.1.1 ∈ AREAS)) as [Harea|Harea]; [done|].
    apply elem_of_saved_in in Hcall. rewrite (Hout _ Harea) in Hcall.
    by apply elem_of_nil in Hcall.
  - apply Forall_forall. intros [area count] Hitem. cbn [fst snd].
    assert (area ∈ AREAS) as Harea.
    { rewrite <-Hkeys. apply list_elem_of_fmap. by exists (area, count). }
    destruct (Hin area Harea) as (full & partial & Hok & Hcount & Hflushed).
    apply get_item in Hitem; [|rewrite Hkeys; apply NoDup_AREAS].
    rewrite Hcount in Hitem. injection Hitem as <-.
    exists (numbered 1 (full ++ open_bucket partial)).
    rewrite Hdocs, (ok_docs _ _ _ _ _ Hok).
    rewrite (saved_in_run _ _ _ _ _ _ _ Hsaved Hok Hflushed).
    unfold PyDict.values. rewrite numbered_values, sum_lengths_concat.
    split; [done|]. split; [done|].
    intros Hzero%length_zero_iff_nil. by rewrite Hzero.
Qed.

Lemma summary_counts_saved_documents_witness :
  three_documents ≠ [] ∧
  ∃ fin, main three_documents ∅ = Some fin ∧
         total_documents fin = Some (length (mjoin (saved fin).*2)).
Proof.
  split; [done|]. by apply (summary_counts_saved_documents three_documents ∅).
Defined.

End cuad_files.

(** ** The output tree of [download_cuad_contracts.py] *)
Section cuad_tree.
Import PyStr Cuad Allocator CuadFiles.

Lemma startswith_app p s : startswith (p +:+ s) p = true.
Proof. induction p as [|a p IH]; simpl; [by destruct s|]. by rewrite decide_True. Qed.

Lemma startswith_app_l p1 p2 : ∀ path,
  startswith path (p1 +:+ p2) = true → startswith path p1 = true.
Proof.
  induction p1 as [|a p1 IH]; intros path; [by destruct path|].
  destruct path as [|b path]; simpl; [done|].
  destruct (decide (a = b)); [apply IH|done].
Qed.

Lemma rfind_negative a s : (rfind a s < 0)%Z → has_char a s = false.
Proof.
  induction s as [|c s IH]; simpl; [done|].
  destruct (0 <=? rfind a s)%Z eqn:Hr.
  - apply Z.leb_le in Hr. lia.
  - apply Z.leb_gt in Hr. destruct (decide (c = a)); [lia|]. intros _. by apply IH.
Qed.

Lemma basename_no_slash p : has_char "/" (basename p) = false.
Proof.
  unfold basename. induction p as [|c p IH]; [done|]. cbn [rfind].
  destruct (0 <=? rfind "/" p)%Z eqn:Hr.
  - apply Z.leb_le in Hr.
    replace (Z.to_nat (rfind "/" p + 1 + 1)) with (S (Z.to_nat (rfind "/" p + 1))) by lia.
    exact IH.
  - apply Z.leb_gt in Hr. apply rfind_negative in Hr.
    destruct (decide (c = "/"%char)) as [->|Hne]; simpl.
    + done.
    + by rewrite decide_False.
Qed.

Lemma no_slash_startswith s : has_char "/" s = false → startswith s "/" = false.
Proof.
  destruct s as [|c s]; simpl; [done|].
  destruct (decide (c = "/"%char)) as [->|Hne]; [done|].
  intros _. rewrite decide_False; [done|]. by intros <-.
Qed.

Lemma no_slash_take_app n s rest :
  has_char "/" s = false → startswith rest "/" = false →
  startswith (str_take n s +:+ rest) "/" = false.
Proof.
  intros Hs Hrest. destruct n as [|n], s as [|c s]; simpl; try done.
  simpl in Hs. destruct (decide (c = "/"%char)) as [->|Hne]; [done|].
  rewrite decide_False; [done|]. by intros <-.
Qed.

Lemma no_slash_app s rest :
  has_char "/" s = false → startswith rest "/" = false →
  startswith (s +:+ rest) "/" = false.
Proof.
  intros Hs Hrest. destruct s as [|c s]; simpl; [done|].
  simpl in Hs. destruct (decide (c = "/"%char)) as [->|Hne]; [done|].
  rewrite decide_False; [done|]. by intros <-.
Qed.

Lemma splitext_base_no_slash filename rest :
  has_char "/" filename = false → startswith rest "/" = false →
  startswith ((splitext filename).1 +:+ rest) "/" = false.
Proof.
  intros Hs Hrest. unfold splitext. cbn zeta. destruct (_ && _); cbn [fst].
  - by apply no_slash_take_app.
  - by apply no_slash_app.
Qed.

Lemma path_join_prefix a b :
  startswith b "/" = false → startswith (path_join a b) a = true.
Proof.
  intros Hb. unfold path_join. rewrite Hb. destruct (_ || _); apply startswith_app.
Qed.

(** The two names under which [save_doc] may write a document. *)
Lemma save_doc_writes save_path i src_path (tree : gmap string string) :
  ∃ filename, startswith filename "/" = false ∧
              save_doc save_path i src_path tree
              = <[path_join save_path filename := src_path]> tree.
Proof.
  unfold save_doc. pose proof (basename_no_slash src_path) as Hbase.
  destruct (bool_decide _).
  - destruct (splitext (basename src_path)) as [base ext] eqn:Hsplit.
    exists (base +:+ "_" +:+ pretty i +:+ ext). split; [|done].
    change base with (base, ext).1. rewrite <-Hsplit.
    by apply splitext_base_no_slash.
  - exists (basename src_path). split; [|done]. by apply no_slash_startswith.
Qed.

Lemma save_docs_outside save_path doc_paths path : ∀ i (tree : gmap string string),
  startswith path save_path = false →
  save_docs save_path i doc_paths tree !! path = tree !! path.
Proof.
  induction doc_paths as [|src_path doc_paths IH]; intros i tree Hout; [done|].
  cbn [save_docs]. rewrite IH by done.
  destruct (save_doc_writes save_path i src_path tree) as (filename & Hname & ->).
  apply lookup_insert_ne. intros <-. by rewrite path_join_prefix in Hout.
Qed.

Lemma save_docs_keeps save_path doc_paths path : ∀ i (tree : gmap string string),
  is_Some (tree !! path) → is_Some (save_docs save_path i doc_paths tree !! path).
Proof.
  induction doc_paths as [|src_path doc_paths IH]; intros i tree Hpath; [done|].
  cbn [save_docs]. apply IH.
  destruct (save_doc_writes save_path i src_path tree) as (filename & _ & ->).
  destruct (decide (path_join save_path filename = path)) as [->|Hne].
  - rewrite lookup_insert_eq. by eexists.
  - by rewrite lookup_insert_ne.
Qed.

Lemma matter_folder area (n : nat) :
  startswith area "/" = false →
  path_join OUTPUT_PATH (area +:+ "_" +:+ pretty n)
  = "./cuad_matters/" +:+ (area +:+ "_" +:+ pretty n).
Proof.
  intros Harea. unfold path_join.
  assert (startswith (area +:+ "_" +:+ pretty n) "/" = false) as ->; [|done].
  destruct area as [|c area]; [done|]. simpl in *.
  destruct (decide _); [|done]. by destruct area.
Qed.

Lemma save_matter_outside area (n : nat) doc_paths (tree : gmap string string) path :
  startswith area "/" = false →
  startswith path "./cuad_matters/" = false →
  save_matter area n doc_paths OUTPUT_PATH tree !! path = tree !! path.
Proof.
  intros Harea Hout. unfold save_matter. cbn zeta. apply save_docs_outside.
  rewrite matter_folder by done.
  apply not_true_is_false. intros Hin%startswith_app_l. congruence.
Qed.

(** The tree of the state is the tree that the recorded calls produce. *)
Lemma main_loop_replay pdf_files : ∀ st st',
  main_loop pdf_files st = Some st' →
  ∃ calls, saved st' = saved st ++ calls ∧ out_tree st' = replay calls (out_tree st).
Proof.
  induction pdf_files as [|pdf_path pdf_files IH]; intros st st'.
  - intros [= ->]. exists []. by rewrite app_nil_r.
  - cbn [main_loop]. destruct (all_targets_reached _).
    { intros [= <-]. exists []. by rewrite app_nil_r. }
    destruct (PyDict.get _ (matter_counts st)) as [count|]; [|done].
    cbn [mbind option_bind]. destruct (_ <=? count).
    { intros (calls & Hsaved & Htree)%IH. by exists calls. }
    destruct (PyDict.get _ (matter_docs st)) as [area_docs|]; [|done].
    cbn [mbind option_bind].
    destruct (PyDict.get _ _) as [docs|]; [|done]. cbn [mbind option_bind].
    destruct (_ <=? _).
    + intros (calls & Hsaved & Htree)%IH. cbn [saved out_tree] in *.
      eexists (_ :: calls). split; [by rewrite Hsaved, <-app_assoc|].
      by rewrite Htree.
    + intros (calls & Hsaved & Htree)%IH. by exists calls.
Qed.

Lemma flush_area_replay area area_items : ∀ st st',
  flush_area area area_items st = Some st' →
  ∃ calls, saved st' = saved st ++ calls ∧ out_tree st' = replay calls (out_tree st).
Proof.
  induction area_items as [|[matter_num docs] area_items IH]; intros st st'.
  - intros [= ->]. exists []. by rewrite app_nil_r.
  - cbn [flush_area]. destruct (bool_decide _); [apply IH|].
    destruct (PyDict.get _ _) as [count|]; [|done]. cbn [mbind option_bind].
    destruct (count <? matter_num); [|apply IH].
    intros (calls & Hsaved & Htree)%IH. cbn [saved out_tree] in *.
    eexists (_ :: calls). split; [by rewrite Hsaved, <-app_assoc|]. by rewrite Htree.
Qed.

Lemma replay_app calls1 calls2 (tree : gmap string string) :
  replay (calls1 ++ calls2) tree = replay calls2 (replay calls1 tree).
Proof. apply foldl_app. Qed.

Lemma flush_areas_replay areas : ∀ st st',
  flush_areas areas st = Some st' →
  ∃ calls, saved st' = saved st ++ calls ∧ out_tree st' = replay calls (out_tree st).
Proof.
  induction areas as [|area areas IH]; intros st st'.
  - intros [= ->]. exists []. by rewrite app_nil_r.
  - cbn [flush_areas]. destruct (PyDict.get _ _) as [area_docs|]; [|done].
    cbn [mbind option_bind].
    destruct (flush_area _ _ _) as [st1|] eqn:Hflush; [|done]. cbn [mbind option_bind].
    apply flush_area_replay in Hflush as (calls1 & Hsaved1 & Htree1).
    intros (calls2 & Hsaved2 & Htree2)%IH.
    exists (calls1 ++ calls2). split; [by rewrite Hsaved2, Hsaved1, <-app_assoc|].
    by rewrite replay_app, <-Htree1.
Qed.

Lemma main_replay pdf_files tree fin :
  main pdf_files tree = Some fin → out_tree fin = replay (saved fin) tree.
Proof.
  unfold main. destruct (bool_decide _); [by intros [= <-]|].
  destruct (main_loop _ _) as [st|] eqn:Hloop; [|done]. cbn [mbind option_bind].
  apply main_loop_replay in Hloop as (calls1 & Hsaved1 & Htree1).
  intros (calls2 & Hsaved2 & Htree2)%flush_areas_replay.
  cbn [init_alloc saved out_tree app] in *.
  by rewrite Htree2, Hsaved2, Hsaved1, Htree1, replay_app.
Qed.

Lemma main_saved_areas pdf_files tree fin :
  main pdf_files tree = Some fin →
  Forall (λ call : string * nat * list string, call.1.1 ∈ AREAS) (saved fin).
Proof.
  intros Hmain.
  destruct (main_run pdf_files tree)
    as (st & fin' & flushed & _ & _ & Hmain' & _ & _ & _ & _ & Hout & _).
  destruct Hmain' as [-> | Hmain'].
  { rewrite main_empty in Hmain. injection Hmain as <-. apply Forall_nil_2. }
  rewrite Hmain in Hmain'. injection Hmain' as <-.
  apply Forall_forall. intros call Hcall.
  destruct (decide (call.1.1 ∈ AREAS)) as [Harea|Harea]; [done|].
  apply elem_of_saved_in in Hcall. rewrite (Hout _ Harea) in Hcall.
  by apply elem_of_nil in Hcall.
Qed.

(** X5: the output tree after [main] is the one the [save_matter] calls
    produce in their order; [main] leaves every path outside
    [./cuad_matters/] as it was and removes no file. *)
Theorem main_writes_below_output_path (pdf_files : list string)
    (tree : gmap string string) :
  ∃ fin, main pdf_files tree = Some fin ∧
         out_tree fin = replay (saved fin) tree ∧
         (∀ path, startswith path "./cuad_matters/" = false →
                  out_tree fin !! path = tree !! path) ∧
         (∀ path, is_Some (tree !! path) → is_Some (out_tree fin !! path)).
Proof.
  destruct (main_saved_documents pdf_files tree) as (fin & Hmain & Hsaved).
  exists fin. split; [done|]. pose proof (main_replay _ _ _ Hmain) as Hreplay.
  split; [done|]. rewrite Hreplay.
  pose proof (main_saved_areas _ _ _ Hmain) as Hareas.
  clear Hsaved Hmain Hreplay. revert tree. unfold replay.
  induction Hareas as [|call calls Harea _ IH]; intros tree; [done|].
  cbn [foldl]. split.
  - intros path Hout. rewrite (proj1 (IH _)) by done.
    apply save_matter_outside; [|done].
    revert Harea. generalize (call.1.1). apply Forall_forall.
    by apply (bool_decide_unpack _).
  - intros path Hpath. apply (proj2 (IH _)). by apply save_docs_keeps.
Qed.

Lemma path_join_inj a b1 b2 :
  startswith b1 "/" = false → startswith b2 "/" = false →
  path_join a b1 = path_join a b2 → b1 = b2.
Proof.
  intros H1 H2. unfold path_join. rewrite H1, H2.
  destruct (_ || _); intros Heq.
  - by apply (inj (String.app a)) in Heq.
  - apply (inj (String.app a)) in Heq. by apply (inj (String.app "/")) in Heq.
Qed.

Lemma save_docs_fresh save_path doc_paths : ∀ i (tree : gmap string string),
  NoDup (basename <$> doc_paths) →
  (∀ doc, doc ∈ doc_paths → tree !! path_join save_path (basename doc) = None) →
  (∀ doc, doc ∈ doc_paths →
     save_docs save_path i doc_paths tree !! path_join save_path (basename doc)
     = Some doc)
  ∧ (∀ path, (∀ doc, doc ∈ doc_paths → path ≠ path_join save_path (basename doc)) →
             save_docs save_path i doc_paths tree !! path = tree !! path)
  ∧ size (save_docs save_path i doc_paths tree) = size tree + length doc_paths.
Proof.
  induction doc_paths as [|d doc_paths IH]; intros i tree Hnd Hfresh.
  - simpl. split; [by intros doc ?%elem_of_nil|]. split; [done|lia].
  - rewrite fmap_cons in Hnd. apply NoDup_cons in Hnd as [Hd Hnd].
    cbn [save_docs].
    assert (save_doc save_path i d tree
            = <[path_join save_path (basename d) := d]> tree) as ->.
    { unfold save_doc. cbn zeta. rewrite bool_decide_false; [done|].
      rewrite Hfresh by (by left). by intros [? ?]. }
    assert (∀ doc, doc ∈ doc_paths →
              path_join save_path (basename d) ≠ path_join save_path (basename doc))
      as Hother.
    { intros doc Hdoc Heq. apply Hd.
      apply path_join_inj in Heq;
        [|apply no_slash_startswith, basename_no_slash..].
      rewrite Heq. apply list_elem_of_fmap. by exists doc. }
    destruct (IH (S i) (<[path_join save_path (basename d) := d]> tree) Hnd)
      as (Hcopied & Hrest & Hsize).
    { intros doc Hdoc. rewrite lookup_insert_ne by by apply Hother.
      apply Hfresh. by right. }
    split; [|split].
    + intros doc [->|Hdoc]%elem_of_cons; [|by apply Hcopied].
      rewrite Hrest by (intros doc Hdoc; by apply Hother).
      apply lookup_insert_eq.
    + intros path Hpath. rewrite Hrest by (intros doc Hdoc; apply Hpath; by right).
      apply lookup_insert_ne. intros <-. by apply (Hpath d); [left|].
    + rewrite Hsize, map_size_insert_None by (apply Hfresh; by left).
      simpl. lia.
Qed.

(** X6: when the documents of a matter have distinct file names and none of
    these names exists in the folder of the matter, [save_matter] copies
    every document under its own name, changes no other path and the tree
    grows by one file per document. *)
Theorem save_matter_fresh_folder (practice_area : string) (matter_num : nat)
    (doc_paths : list string) (output_path : string) (tree : gmap string string) :
  let save_path := path_join output_path (practice_area +:+ "_" +:+ pretty matter_num) in
  let saved := save_matter practice_area matter_num doc_paths output_path tree in
  NoDup (basename <$> doc_paths) →
  (∀ doc, doc ∈ doc_paths → tree !! path_join save_path (basename doc) = None) →
  (∀ doc, doc ∈ doc_paths → saved !! path_join save_path (basename doc) = Some doc)
  ∧ (∀ path, (∀ doc, doc ∈ doc_paths → path ≠ path_join save_path (basename doc)) →
             saved !! path = tree !! path)
  ∧ size saved = size tree + length doc_paths.
Proof. intros save_path saved. apply save_docs_fresh. Qed.

Lemma save_matter_fresh_folder_witness :
  NoDup (basename <$> three_documents)
  ∧ (∀ doc, doc ∈ three_documents →
       (∅ : gmap string string)
         !! path_join (path_join "./cuad_matters" ("Finance" +:+ "_" +:+ pretty 1))
              (basename doc) = None)
  ∧ size (save_matter "Finance" 1 three_documents "./cuad_matters" ∅)
    = size (∅ : gmap string string) + length three_documents.
Proof.
  assert (NoDup (basename <$> three_documents)) as Hnd.
  { apply (bool_decide_unpack _). vm_compute. exact I. }
  assert (∀ doc, doc ∈ three_documents →
            (∅ : gmap string string)
              !! path_join (path_join "./cuad_matters" ("Finance" +:+ "_" +:+ pretty 1))
                   (basename doc) = None) as Hfresh.
  { intros doc _. apply lookup_empty. }
  split; [exact Hnd|]. split; [exact Hfresh|].
  exact (proj2 (proj2 (save_matter_fresh_folder "Finance" 1 three_documents
                         "./cuad_matters" ∅ Hnd Hfresh))).
Defined.

(** *** [sanitize_filename] *)

Lemma str_all_rev_app (P : ascii → bool) s : ∀ acc,
  str_all P (String.rev_app s acc) = str_all P s && str_all P acc.
Proof.
  induction s as [|c s IH]; intros acc; simpl; [done|].
  rewrite IH. simpl. destruct (P c), (str_all P s); simpl; try done.
Qed.

Lemma str_all_rev (P : ascii → bool) s : str_all P (String.rev s) = str_all P s.
Proof. unfold String.rev. rewrite str_all_rev_app. simpl. by rewrite andb_true_r. Qed.

Lemma str_all_lstrip (P : ascii → bool) a s :
  str_all P s = true → str_all P (lstrip_char a s) = true.
Proof.
  induction s as [|c s IH]; [done|]. cbn [lstrip_char].
  destruct (decide (c = a)); [|done]. simpl. intros [_ ?]%andb_true_iff. by apply IH.
Qed.

Lemma str_all_take (P : ascii → bool) n : ∀ s,
  str_all P s = true → str_all P (str_take n s) = true.
Proof.
  induction n as [|n IH]; intros [|c s]; simpl; try done.
  intros [-> ?]%andb_true_iff. by apply IH.
Qed.

Lemma length_str_take n : ∀ s, String.length (str_take n s) ≤ n.
Proof.
  induction n as [|n IH]; intros [|c s]; simpl; try lia.
  specialize (IH s). lia.
Qed.

Lemma str_all_remove_forbidden s :
  str_all (λ c, negb (is_forbidden c)) (remove_chars is_forbidden s) = true.
Proof.
  induction s as [|c s IH]; [done|]. cbn [remove_chars].
  destruct (is_forbidden c) eqn:Hc; [done|]. simpl. by rewrite Hc.
Qed.

Lemma str_all_collapse s : ∀ in_run,
  str_all (λ c, negb (is_forbidden c)) s = true →
  str_all (λ c, negb (is_forbidden c) && negb (is_space c)) (collapse_spaces in_run s)
  = true.
Proof.
  induction s as [|c s IH]; intros in_run; [done|]. simpl.
  intros [Hc Hs]%andb_true_iff. destruct (is_space c) eqn:Hspace.
  - destruct in_run; [by apply IH|]. simpl. by apply IH.
  - simpl. rewrite Hc, Hspace. by apply IH.
Qed.

(** X7: for every name [sanitize_filename] returns a name that is not
    empty, has at most 80 characters, and has no white space and none of
    the characters that the first substitution removes. *)
Theorem sanitize_filename_safe (name : string) :
  sanitize_filename name ≠ ""
  ∧ String.length (sanitize_filename name) ≤ 80
  ∧ str_all (λ c, negb (is_forbidden c) && negb (is_space c)) (sanitize_filename name)
    = true.
Proof.
  unfold sanitize_filename. cbn zeta.
  set (safe := strip_char "_" (collapse_spaces false (remove_chars is_forbidden name))).
  assert (str_all (λ c, negb (is_forbidden c) && negb (is_space c)) safe = true) as Hsafe.
  { unfold safe, strip_char. rewrite str_all_rev. apply str_all_lstrip.
    rewrite str_all_rev. apply str_all_lstrip, str_all_collapse, str_all_remove_forbidden. }
  destruct (bool_decide (safe = "")) eqn:Hempty.
  - split; [done|]. split; [simpl; lia|done].
  - apply bool_decide_eq_false in Hempty. split; [|split].
    + by destruct safe.
    + apply length_str_take.
    + by apply str_all_take.
Qed.

End cuad_tree.

(** ** More of [download_fund_sec_filings.py]: the counters and the copies *)
Section fund_filings_copies.
Import PyStr Walk FundFilings Rerun.

Lemma sum_values_set (k : string) (n : nat) (d : list (string * nat)) :
  PyDict.get k d = Some n →
  sum_list (PyDict.values (PyDict.set k (n + 1) d)) = S (sum_list (PyDict.values d)).
Proof.
  unfold PyDict.values. induction d as [|[k' n'] d IH]; [done|]. cbn [PyDict.get PyDict.set].
  destruct (decide (k' = k)) as [->|Hne].
  - intros [= ->]. rewrite !fmap_cons. cbn [snd].
    change (sum_list (?x :: ?l)) with (x + sum_list l). lia.
  - intros Hk. rewrite !fmap_cons. cbn [snd].
    change (sum_list (?x :: ?l)) with (x + sum_list l). rewrite IH by done. lia.
Qed.

(** What the run keeps true of its state: the counters are those of the
    five document types, the one of [ppm] is 0, and together they count the
    files added to the tree [tree0] of the start. *)
Lemma copy_fund_docs_counts (tree0 : gmap string string) ticker accession fund_docs :
  ∀ st,
  PyDict.keys (total_found st) = PyDict.keys init_total_found →
  PyDict.get "ppm" (total_found st) = Some 0 →
  sum_list (PyDict.values (total_found st)) + size tree0 = size (out_tree st) →
  let st' := (copy_fund_docs ticker accession fund_docs st).1 in
  PyDict.keys (total_found st') = PyDict.keys init_total_found ∧
  PyDict.get "ppm" (total_found st') = Some 0 ∧
  sum_list (PyDict.values (total_found st')) + size tree0 = size (out_tree st').
Proof.
  induction fund_docs as [|[[filepath doc_type] filename] fund_docs IH];
    intros st Hkeys Hppm Hsum; [done|].
  cbn [copy_fund_docs].
  destruct (out_folder_of doc_type) as [out_folder|] eqn:Hroute; [|by apply IH].
  destruct (bool_decide _) eqn:Hexists; [by apply IH|].
  apply bool_decide_eq_false in Hexists.
  destruct (routed_doc_type_counted _ _ _ Hroute Hkeys) as [n Hn]. rewrite Hn.
  apply IH; cbn [total_found out_tree].
  - rewrite keys_set by by eexists. done.
  - rewrite get_set_ne; [done|]. by intros ->.
  - rewrite sum_values_set by done.
    rewrite map_size_insert_None; [lia|].
    by apply eq_None_not_Some.
Qed.

Lemma process_accessions_counts (tree0 : gmap string string) ticker accessions : ∀ st,
  PyDict.keys (total_found st) = PyDict.keys init_total_found →
  PyDict.get "ppm" (total_found st) = Some 0 →
  sum_list (PyDict.values (total_found st)) + size tree0 = size (out_tree st) →
  let st' := (process_accessions ticker accessions st).1 in
  PyDict.keys (total_found st') = PyDict.keys init_total_found ∧
  PyDict.get "ppm" (total_found st') = Some 0 ∧
  sum_list (PyDict.values (total_found st')) + size tree0 = size (out_tree st').
Proof.
  induction accessions as [|[accession [filing|]] accessions IH];
    intros st Hkeys Hppm Hsum; [done| |by apply IH].
  cbn [process_accessions].
  pose proof (copy_fund_docs_counts tree0 ticker accession
                (find_fund_docs_in_filing filing) st Hkeys Hppm Hsum) as Hcopy.
  destruct (copy_fund_docs _ _ _ st) as [st1 raised]. cbn [fst] in Hcopy.
  destruct Hcopy as (Hkeys1 & Hppm1 & Hsum1).
  destruct raised; [done|]. by apply IH.
Qed.

Lemma run_counts disk (tree : gmap string string) :
  let fin := download_and_extract_fund_docs disk tree in
  PyDict.keys (total_found fin) = PyDict.keys init_total_found ∧
  PyDict.get "ppm" (total_found fin) = Some 0 ∧
  sum_list (PyDict.values (total_found fin)) + size tree = size (out_tree fin).
Proof.
  unfold download_and_extract_fund_docs.
  assert (∀ st,
    (PyDict.keys (total_found st) = PyDict.keys init_total_found ∧
     PyDict.get "ppm" (total_found st) = Some 0 ∧
     sum_list (PyDict.values (total_found st)) + size tree = size (out_tree st)) →
    ∀ ticker filing_type,
      let st' := process_filing_type disk ticker filing_type st in
      PyDict.keys (total_found st') = PyDict.keys init_total_found ∧
      PyDict.get "ppm" (total_found st') = Some 0 ∧
      sum_list (PyDict.values (total_found st')) + size tree = size (out_tree st'))
    as Hstep.
  { intros st (Hkeys & Hppm & Hsum) ticker filing_type. unfold process_filing_type.
    destruct (disk ticker filing_type); [done..|].
    by apply process_accessions_counts. }
  generalize INVESTMENT_COMPANIES as tickers.
  intros tickers.
  assert (PyDict.keys (total_found {| out_tree := tree; total_found := init_total_found |})
          = PyDict.keys init_total_found ∧
          PyDict.get "ppm" (total_found {| out_tree := tree;
                                           total_found := init_total_found |}) = Some 0 ∧
          sum_list (PyDict.values (total_found {| out_tree := tree;
                                                 total_found := init_total_found |}))
          + size tree
          = size (out_tree {| out_tree := tree; total_found := init_total_found |}))
    as Hinit by done.
  revert Hinit. generalize {| out_tree := tree; total_found := init_total_found |}.
  induction tickers as [|ticker tickers IH]; intros st Hst; [done|].
  cbn [foldl]. apply IH. unfold process_ticker.
  generalize FILING_TYPES as filing_types. intros filing_types. revert st Hst.
  induction filing_types as [|filing_type filing_types IHf]; intros st Hst; [done|].
  cbn [foldl]. by apply IHf, Hstep.
Qed.

(** X8: at the end of a run the counters of [total_found] add up to the
    number of files that the run added to the output tree; the counter of
    [ppm] is 0, for a document of that type is found but has no folder and
    is never copied. *)
Theorem counters_count_copied_files (disk : string → string → listing)
    (tree : gmap string string) :
  let fin := download_and_extract_fund_docs disk tree in
  size (out_tree fin) = size tree + sum_list (PyDict.values (total_found fin))
  ∧ PyDict.get "ppm" (total_found fin) = Some 0
  ∧ PyDict.keys (total_found fin)
    = ["side_letter"; "lpa"; "subscription"; "ppm"; "investment_mgmt"].
Proof.
  intros fin. destruct (run_counts disk tree) as (Hkeys & Hppm & Hsum).
  fold fin in Hkeys, Hppm, Hsum. split; [lia|]. by split.
Qed.

Lemma gated_copy_same (tree : gmap string string) op path data :
  tree !! path = Some data → gated_copy tree op !! path = Some data.
Proof.
  intros Hpath. unfold gated_copy. destruct (bool_decide _) eqn:Hexists; [done|].
  apply bool_decide_eq_false in Hexists. rewrite lookup_insert_ne; [done|].
  intros Heq. apply Hexists. rewrite Heq. by eexists.
Qed.

Lemma gated_copies_same ops : ∀ (tree : gmap string string) path data,
  tree !! path = Some data → foldl gated_copy tree ops !! path = Some data.
Proof.
  induction ops as [|op ops IH]; intros tree path data Hpath; [done|].
  simpl. by apply IH, gated_copy_same.
Qed.

Lemma gated_copies_origin ops : ∀ (tree : gmap string string) path src,
  foldl gated_copy tree ops !! path = Some src →
  tree !! path = Some src ∨ (path, src) ∈ ops.
Proof.
  induction ops as [|[dest source] ops IH]; intros tree path src; [by left|].
  simpl. intros [Hold|Hnew]%IH; [|right; by right].
  unfold gated_copy in Hold. cbn [fst snd] in Hold.
  destruct (bool_decide _); [by left|].
  destruct (decide (dest = path)) as [->|Hne].
  - rewrite lookup_insert_eq in Hold. injection Hold as ->. right. by left.
  - rewrite lookup_insert_ne in Hold by done. by left.
Qed.

(** The copies a run asks for, read off the disk. *)
Lemma elem_of_planned disk path src :
  (path, src) ∈ planned disk ↔
  ∃ ticker filing_type accessions accession filing doc_type filename out_folder,
    ticker ∈ INVESTMENT_COMPANIES ∧ filing_type ∈ FILING_TYPES ∧
    disk ticker filing_type = Accessions accessions ∧
    (accession, Some filing) ∈ accessions ∧
    (src, doc_type, filename) ∈ find_fund_docs_in_filing filing ∧
    out_folder_of doc_type = Some out_folder ∧
    path = out_path_of ticker accession out_folder filename.
Proof.
  unfold planned. rewrite list_elem_of_join. split.
  - intros (ops & Hop & (ticker & -> & Hticker)%list_elem_of_fmap).
    apply list_elem_of_join in Hop
      as (ops & Hop & (filing_type & -> & Htype)%list_elem_of_fmap).
    unfold planned_filing_type in Hop.
    destruct (disk ticker filing_type) as [| |accessions] eqn:Hdisk;
      [by apply elem_of_nil in Hop..|].
    unfold planned_accessions in Hop.
    apply list_elem_of_join in Hop
      as (ops & Hop & ([accession [filing|]] & -> & Hacc)%list_elem_of_fmap);
      cbn [fst snd] in Hop; [|by apply elem_of_nil in Hop].
    unfold planned_docs in Hop.
    apply list_elem_of_omap in Hop as ([[filepath doc_type] filename] & Hdoc & Hop).
    cbn [fst snd] in Hop.
    destruct (out_folder_of doc_type) as [out_folder|] eqn:Hroute; [|done].
    injection Hop as <- <-.
    by exists ticker, filing_type, accessions, accession, filing, doc_type, filename,
              out_folder.
  - intros (ticker & filing_type & accessions & accession & filing & doc_type & filename
            & out_folder & Hticker & Htype & Hdisk & Hacc & Hdoc & Hroute & ->).
    eexists. split; [|apply list_elem_of_fmap; by exists ticker].
    apply list_elem_of_join. eexists.
    split; [|apply list_elem_of_fmap; by exists filing_type].
    unfold planned_filing_type. rewrite Hdisk. unfold planned_accessions.
    apply list_elem_of_join. eexists.
    split; [|apply list_elem_of_fmap; by exists (accession, Some filing)].
    cbn [fst snd]. unfold planned_docs. apply list_elem_of_omap.
    exists (src, doc_type, filename). split; [done|]. cbn [fst snd].
    by rewrite Hroute.
Qed.

(** X9: a run of the extractor never changes a file that exists in the
    output tree; a file that it adds is the copy of a document found in a
    filing of one of the tickers, under
    [<ticker>_<accession[:10]>_<filename>] in the folder of its document
    type; and every found document with a folder has a file at that path
    afterwards. *)
Theorem extractor_copies_found_documents (disk : string → string → listing)
    (tree : gmap string string) :
  let fin := download_and_extract_fund_docs disk tree in
  (∀ path data, tree !! path = Some data → out_tree fin !! path = Some data)
  ∧ (∀ path src,
       out_tree fin !! path = Some src → tree !! path = None →
       ∃ ticker filing_type accessions accession filing doc_type filename out_folder,
         ticker ∈ INVESTMENT_COMPANIES ∧ filing_type ∈ FILING_TYPES ∧
         disk ticker filing_type = Accessions accessions ∧
         (accession, Some filing) ∈ accessions ∧
         (src, doc_type, filename) ∈ find_fund_docs_in_filing filing ∧
         out_folder_of doc_type = Some out_folder ∧
         path = out_path_of ticker accession out_folder filename)
  ∧ (∀ ticker filing_type accessions accession filing src doc_type filename out_folder,
       ticker ∈ INVESTMENT_COMPANIES → filing_type ∈ FILING_TYPES →
       disk ticker filing_type = Accessions accessions →
       (accession, Some filing) ∈ accessions →
       (src, doc_type, filename) ∈ find_fund_docs_in_filing filing →
       out_folder_of doc_type = Some out_folder →
       is_Some (out_tree fin !! out_path_of ticker accession out_folder filename)).
Proof.
  intros fin.
  assert (out_tree fin = foldl gated_copy tree (planned disk)) as Htree.
  { unfold fin, download_and_extract_fund_docs.
    by destruct (run_copies disk {| out_tree := tree; total_found := init_total_found |}
                   eq_refl) as (-> & _ & _). }
  rewrite Htree. split; [|split].
  - intros path data. apply gated_copies_same.
  - intros path src [Hold|Hnew]%gated_copies_origin Hfresh; [congruence|].
    by apply elem_of_planned.
  - intros ticker filing_type accessions accession filing src doc_type filename
      out_folder Hticker Htype Hdisk Hacc Hdoc Hroute.
    assert ((out_path_of ticker accession out_folder filename, src) ∈ planned disk)
      as Hop.
    { apply elem_of_planned.
      by exists ticker, filing_type, accessions, accession, filing, doc_type, filename,
                out_folder. }
    pose proof (gated_copies_done (planned disk) tree) as Hdone.
    rewrite Forall_forall in Hdone. by apply Hdone in Hop.
Qed.

End fund_filings_copies.

(** ** More of [download_fund_sec_expanded.py]: what is found and where it goes *)
Section expanded_entries.
Import PyStr Walk FundExpanded ExpandedFolders.

Lemma expanded_scan_doc_types_type items filepath filename content filename_lower :
  ∀ fund_docs,
  ∃ found,
    scan_doc_types items filepath filename content filename_lower fund_docs
    = fund_docs ++ found ∧
    Forall (λ entry, entry.1.1 = filepath ∧ entry.2 = filename ∧
                     entry.1.2 ∈ PyDict.keys items ∧
                     (5000 < N.of_nat (String.length content))%N) found.
Proof.
  induction items as [|[doc_type kw_list] items IH]; intros fund_docs.
  - exists []. by rewrite app_nil_r.
  - cbn [scan_doc_types]. destruct (kw_list_hit _ _ _).
    + destruct (_ <? _)%N eqn:Hlen.
      * exists [(filepath, doc_type, filename)]. split; [done|].
        apply Forall_singleton. cbn. split; [done|]. split; [done|].
        split; [by left|]. by apply N.ltb_lt.
      * exists []. by rewrite app_nil_r.
    + destruct (IH fund_docs) as (found & -> & Hfound). exists found. split; [done|].
      eapply Forall_impl; [exact Hfound|]. intros entry (? & ? & Hkey & ?).
      do 2 (split; [done|]). split; [by right|done].
Qed.

Lemma expanded_scan_files_found (filing : walk) root all_files files : ∀ fund_docs,
  (root, all_files) ∈ filing → files ⊆ all_files →
  Forall (found_in filing) fund_docs →
  Forall (found_in filing) (scan_files root files fund_docs).
Proof.
  induction files as [|[filename data] files IH]; intros fund_docs Hdir Hsub Hacc; [done|].
  assert (files ⊆ all_files) as Hsub'.
  { intros file Hfile. apply Hsub. by right. }
  cbn [scan_files]. destruct (negb _) eqn:Hext; [by apply IH|].
  destruct (_ || _) eqn:Hname; [by apply IH|].
  destruct data as [text|]; [|by apply IH].
  destruct (expanded_scan_doc_types_type FUND_DOC_KEYWORDS (path_join root filename)
              filename (lower (read 100000 text)) (lower filename) fund_docs)
    as (found & -> & Hfound).
  apply IH; [done..|]. apply Forall_app. split; [done|].
  eapply Forall_impl; [exact Hfound|].
  intros [[filepath doc_type] name] (Hpath & Hfile & Hkey & Hlen). cbn [fst snd] in *.
  subst filepath name. exists root, all_files, text. cbn [fst snd].
  apply negb_false_iff in Hext. apply orb_false_iff in Hname as [Hindex Hdot].
  split; [done|]. split; [apply Hsub; by left|]. done.
Qed.

Lemma expanded_scan_walk_found (filing : walk) w : ∀ fund_docs,
  w ⊆ filing →
  Forall (found_in filing) fund_docs →
  Forall (found_in filing) (scan_walk w fund_docs).
Proof.
  induction w as [|[root files] w IH]; intros fund_docs Hsub Hacc; [done|].
  cbn [scan_walk]. apply IH.
  - intros dir Hdir. apply Hsub. by right.
  - apply (expanded_scan_files_found filing root files); [apply Hsub; by left|done..].
Qed.

(** X10: every entry that the expanded [find_fund_docs_in_filing] returns
    stems from a file of the directory that could be read, whose name has
    one of the four extensions, does not contain [index] and does not start
    with a dot, and of which more than 5000 characters were read; its
    document type is one of the six keys, so [get_output_folder] sends it
    to the folder of that type and never to [Other_Fund_Docs]. *)
Theorem expanded_entries_have_folder (filing : walk) :
  Forall (λ entry, found_in filing entry ∧
                   PyDict.get entry.1.2 mapping = Some (get_output_folder entry.1.2) ∧
                   get_output_folder entry.1.2 ≠ "Other_Fund_Docs")
         (find_fund_docs_in_filing filing).
Proof.
  unfold find_fund_docs_in_filing.
  eapply Forall_impl; [by apply (expanded_scan_walk_found filing filing [])|].
  intros entry Hfound. split; [done|].
  destruct Hfound as (root & files & text & _ & _ & _ & _ & _ & _ & _ & Hkey).
  assert (Forall (λ doc_type,
                    PyDict.get doc_type mapping = Some (get_output_folder doc_type) ∧
                    get_output_folder doc_type ≠ "Other_Fund_Docs")
                 (PyDict.keys FUND_DOC_KEYWORDS)) as Hall.
  { apply (bool_decide_unpack _). vm_compute. exact I. }
  rewrite Forall_forall in Hall. by apply Hall.
Qed.

End expanded_entries.

(** ** The downloads of [download_fund_formation.py] *)
Section formation_runs.
Import PyStr Net FundFormation Retry FormationRuns.

Lemma download_file_outcome net url dest_path st :
  let result := download_file net url dest_path st in
  let c := clock st in
  match net c with
  | Body data0 => result.1 = true ∧ clock result.2 = S c
                  ∧ tree result.2 = <[dest_path := data0]> (tree st)
  | RequestException _ =>
      match net (S c) with
      | Body data1 => result.1 = true ∧ clock result.2 = S (S c)
                      ∧ tree result.2 = <[dest_path := data1]> (tree st)
      | RequestException _ =>
          match net (S (S c)) with
          | Body data2 => result.1 = true ∧ clock result.2 = S (S (S c))
                          ∧ tree result.2 = <[dest_path := data2]> (tree st)
          | RequestException _ =>
              result.1 = false ∧ clock result.2 = S (S (S c))
              ∧ tree result.2
                = written dest_path (net (S (S c)))
                    (written dest_path (net (S c))
                       (written dest_path (net c) (tree st)))
          end
      end
  end.
Proof.
  intros result c. pose proof (eq_refl result) as Hrun. unfold result at 2 in Hrun.
  clearbody result. unfold download_file in Hrun. cbn [seq] in Hrun.
  rewrite download_attempts_quoted in Hrun.
  pose proof (quote_spaces_idemp url) as Hquoted.
  rewrite (download_attempts_step _ _ _ _ _ _ _ Hquoted) in Hrun.
  unfold fetch in Hrun. fold c in Hrun.
  destruct (net c) as [data0|written0] eqn:H0.
  { by subst result. }
  cbn [Nat.ltb Nat.leb Nat.sub] in Hrun.
  rewrite (download_attempts_step _ _ _ _ _ _ _ Hquoted) in Hrun.
  unfold fetch in Hrun. cbn [sleep clock trace tree] in Hrun.
  destruct (net (S c)) as [data1|written1] eqn:H1.
  { subst result. cbn [fst snd clock tree]. split; [done|]. split; [done|].
    destruct written0; [apply insert_insert_eq|done]. }
  cbn [Nat.ltb Nat.leb Nat.sub] in Hrun.
  rewrite (download_attempts_step _ _ _ _ _ _ _ Hquoted) in Hrun.
  unfold fetch in Hrun. cbn [sleep clock trace tree] in Hrun.
  destruct (net (S (S c))) as [data2|written2] eqn:H2.
  { subst result. cbn [fst snd clock tree]. split; [done|]. split; [done|].
    destruct written0, written1; rewrite ?insert_insert_eq; done. }
  cbn [Nat.ltb Nat.leb Nat.sub] in Hrun. subst result. cbn [fst snd clock tree].
  split; [done|]. split; [done|]. unfold written.
  by destruct written0, written1, written2.
Qed.

Lemma written_is_Some dest_path answer (tree : gmap string string) path :
  is_Some (tree !! path) → is_Some (written dest_path answer tree !! path).
Proof.
  intros Hpath. destruct answer as [data|[data|]]; cbn [written]; try done.
  destruct (decide (path = dest_path)) as [->|Hne].
  - rewrite lookup_insert_eq. by eexists.
  - by rewrite lookup_insert_ne.
Qed.

Lemma insert_is_Some_mono (tree : gmap string string) dest_path data path :
  is_Some (tree !! path) → is_Some (<[dest_path := data]> tree !! path).
Proof.
  intros Hpath. destruct (decide (path = dest_path)) as [->|Hne].
  - rewrite lookup_insert_eq. by eexists.
  - by rewrite lookup_insert_ne.
Qed.

Lemma download_file_bounds net url dest_path st :
  let result := download_file net url dest_path st in
  (clock st ≤ clock result.2 ≤ clock st + 3)
  ∧ (∀ path, is_Some (tree st !! path) → is_Some (tree result.2 !! path))
  ∧ (result.1 = true → is_Some (tree result.2 !! dest_path)).
Proof.
  intros result. pose proof (download_file_outcome net url dest_path st) as Hout.
  cbn zeta in Hout. fold result in Hout.
  assert (∀ data, is_Some (<[dest_path := data]> (tree st) !! dest_path)) as Hdest.
  { intros data. rewrite lookup_insert_eq. by eexists. }
  destruct (net (clock st)) as [data0|written0].
  { destruct Hout as (Hok & -> & ->). split; [lia|].
    split; [intros path; apply insert_is_Some_mono|done]. }
  destruct (net (S (clock st))) as [data1|written1].
  { destruct Hout as (Hok & -> & ->). split; [lia|].
    split; [intros path; apply insert_is_Some_mono|done]. }
  destruct (net (S (S (clock st)))) as [data2|written2].
  { destruct Hout as (Hok & -> & ->). split; [lia|].
    split; [intros path; apply insert_is_Some_mono|done]. }
  destruct Hout as (Hok & -> & ->). split; [lia|]. split.
  - intros path Hpath. by do 3 apply written_is_Some.
  - by rewrite Hok.
Qed.

Lemma download_job_exists net job acc :
  is_Some (tree acc.2 !! job.2) → download_job net job acc = (acc.1 + 1, acc.2).
Proof. intros Hexists. unfold download_job. by rewrite bool_decide_true. Qed.

Lemma on_disk_cons (tree : gmap string string) job jobs :
  length (on_disk tree (job :: jobs))
  = (if bool_decide (is_Some (tree !! job.2)) then 1 else 0)
    + length (on_disk tree jobs).
Proof.
  unfold on_disk. rewrite filter_cons.
  destruct (decide (is_Some (tree !! job.2))) as [Hyes|Hno].
  - by rewrite bool_decide_true.
  - by rewrite bool_decide_false.
Qed.

Lemma missing_cons (tree : gmap string string) job jobs :
  length (missing tree (job :: jobs))
  = (if bool_decide (is_Some (tree !! job.2)) then 0 else 1)
    + length (missing tree jobs).
Proof.
  unfold missing. rewrite filter_cons.
  destruct (decide (tree !! job.2 = None)) as [Hno|Hyes].
  - rewrite bool_decide_false; [done|]. rewrite Hno. by intros [? ?].
  - rewrite bool_decide_true; [done|]. by apply not_eq_None_Some.
Qed.

Lemma download_job_bounds net job acc :
  let acc' := download_job net job acc in
  acc.1 ≤ acc'.1
  ∧ acc'.1 ≤ acc.1 + length (on_disk (tree acc'.2) [job])
  ∧ clock acc.2 ≤ clock acc'.2
  ∧ clock acc'.2 ≤ clock acc.2 + 3 * length (missing (tree acc.2) [job])
  ∧ (∀ path, is_Some (tree acc.2 !! path) → is_Some (tree acc'.2 !! path))
  ∧ (∀ path data, tree acc.2 !! path = Some data → tree acc'.2 !! path = Some data).
Proof.
  cbn zeta. rewrite on_disk_cons, missing_cons. unfold download_job.
  destruct (bool_decide (is_Some (tree acc.2 !! job.2))) eqn:Hexists.
  - cbn [fst snd]. rewrite Hexists. cbn [on_disk missing filter list_filter length].
    repeat split; try done; lia.
  - apply bool_decide_eq_false in Hexists.
    pose proof (download_file_bounds net job.1.2 job.2 acc.2) as (Hclock & Hmono & Hok).
    cbn zeta in Hclock, Hmono, Hok.
    cbn [fst snd sleep clock tree on_disk missing filter list_filter length].
    split; [destruct (download_file _ _ _ _).1; lia|]. split.
    { destruct (download_file _ _ _ _).1 eqn:Hflag; [|lia].
      rewrite bool_decide_true by by apply Hok. lia. }
    split; [lia|]. split; [lia|]. split; [exact Hmono|].
    intros path data Hpath. unfold download_file.
    rewrite download_attempts_other_path; [done|].
    intros ->. apply Hexists. by eexists.
Qed.

Lemma on_disk_mono (tree tree' : gmap string string) jobs :
  (∀ path, is_Some (tree !! path) → is_Some (tree' !! path)) →
  length (on_disk tree jobs) ≤ length (on_disk tree' jobs).
Proof.
  intros Hmono. induction jobs as [|job jobs IH]; [done|].
  rewrite !on_disk_cons. specialize (Hmono job.2).
  repeat case_bool_decide; try lia. tauto.
Qed.

Lemma missing_mono (tree tree' : gmap string string) jobs :
  (∀ path, is_Some (tree !! path) → is_Some (tree' !! path)) →
  length (missing tree' jobs) ≤ length (missing tree jobs).
Proof.
  intros Hmono. induction jobs as [|job jobs IH]; [done|].
  rewrite !missing_cons. specialize (Hmono job.2).
  repeat case_bool_decide; try lia. tauto.
Qed.

Lemma run_jobs_bounds net jobs acc :
  let acc' := run_jobs net jobs acc in
  acc.1 ≤ acc'.1
  ∧ acc'.1 ≤ acc.1 + length (on_disk (tree acc'.2) jobs)
  ∧ clock acc.2 ≤ clock acc'.2
  ∧ clock acc'.2 ≤ clock acc.2 + 3 * length (missing (tree acc.2) jobs)
  ∧ (∀ path, is_Some (tree acc.2 !! path) → is_Some (tree acc'.2 !! path))
  ∧ (∀ path data, tree acc.2 !! path = Some data → tree acc'.2 !! path = Some data).
Proof.
  cbn zeta. revert acc. induction jobs as [|job jobs IH]; intros acc.
  { cbn [run_jobs foldl on_disk missing filter list_filter length].
    repeat split; try done; lia. }
  unfold run_jobs. cbn [foldl]. fold (run_jobs net jobs (download_job net job acc)).
  pose proof (download_job_bounds net job acc) as (Hc1 & Hc2 & Hk1 & Hk2 & Hmono & Hkeep).
  cbn zeta in Hc1, Hc2, Hk1, Hk2, Hmono, Hkeep.
  destruct (IH (download_job net job acc)) as (Ic1 & Ic2 & Ik1 & Ik2 & Imono & Ikeep).
  pose proof (on_disk_mono _ _ [job] Imono) as Hon.
  pose proof (missing_mono _ _ jobs Hmono) as Hmiss.
  rewrite (on_disk_cons _ job jobs), (missing_cons _ job jobs).
  rewrite !on_disk_cons in Hon. rewrite on_disk_cons in Hc2.
  rewrite missing_cons in Hk2.
  cbn [on_disk missing filter list_filter length] in Hon, Hc2, Hk2.
  split; [lia|]. split; [lia|]. split; [lia|]. split; [lia|].
  split; [intros path Hpath; by apply Imono, Hmono|].
  intros path data Hpath. by apply Ikeep, Hkeep.
Qed.

Lemma run_jobs_all_exist net jobs acc :
  Forall (λ job, is_Some (tree acc.2 !! job.2)) jobs →
  run_jobs net jobs acc = (acc.1 + length jobs, acc.2).
Proof.
  revert acc. induction jobs as [|job jobs IH]; intros acc Hall.
  { cbn [run_jobs foldl length]. rewrite Nat.add_0_r. by destruct acc. }
  apply Forall_cons in Hall as [Hjob Hall].
  unfold run_jobs. cbn [foldl]. fold (run_jobs net jobs (download_job net job acc)).
  rewrite (download_job_exists _ _ _ Hjob), IH by done.
  cbn [fst snd length]. f_equal. lia.
Qed.

Lemma run_jobs_count net jobs total st :
  run_jobs net jobs (total, st)
  = (total + (run_jobs net jobs (0, st)).1, (run_jobs net jobs (0, st)).2).
Proof.
  revert total st. induction jobs as [|job jobs IH]; intros total st.
  { cbn [run_jobs foldl fst snd]. by rewrite Nat.add_0_r. }
  unfold run_jobs. cbn [foldl].
  fold (run_jobs net jobs (download_job net job (total, st))).
  fold (run_jobs net jobs (download_job net job (0, st))).
  unfold download_job. cbn [fst snd].
  destruct (bool_decide _).
  - rewrite (IH (total + 1)), (IH (0 + 1)). cbn [fst snd]. f_equal. lia.
  - destruct (download_file _ _ _ _).1.
    + rewrite (IH (total + 1)), (IH (0 + 1)). cbn [fst snd]. f_equal. lia.
    + rewrite (IH total), (IH 0). cbn [fst snd]. f_equal.
Qed.

Lemma run_jobs_app net jobs jobs' acc :
  run_jobs net (jobs ++ jobs') acc = run_jobs net jobs' (run_jobs net jobs acc).
Proof. apply foldl_app. Qed.

Lemma download_documents_jobs net table st :
  download_documents net table st = run_jobs net (uva_jobs table) (0, st).
Proof.
  unfold download_documents. generalize (0, st).
  induction table as [|[doc_type documents] table IH]; intros acc; [done|].
  cbn [foldl]. rewrite IH. unfold uva_jobs. rewrite fmap_cons.
  change (mjoin (?l :: ?ls)) with (l ++ mjoin ls). rewrite run_jobs_app.
  f_equal. cbn [fst snd]. clear IH. revert acc.
  induction documents as [|[name path] documents IHd]; intros acc; [done|].
  cbn [foldl fmap list_fmap]. unfold run_jobs in *. cbn [foldl]. rewrite IHd.
  f_equal. destruct acc as [total acc_st].
  unfold download_uva_document, download_job. cbn [fst snd].
  destruct (bool_decide _); [done|]. by destruct (download_file _ _ _ _).
Qed.

Lemma download_sec_documents_jobs net st :
  download_sec_documents net st = run_jobs net (sec_jobs SEC_EDGAR_DOCUMENTS) (0, st).
Proof.
  unfold download_sec_documents. generalize (0, st). generalize SEC_EDGAR_DOCUMENTS.
  intros table.
  induction table as [|[doc_type documents] table IH]; intros acc; [done|].
  cbn [foldl]. rewrite IH. unfold sec_jobs. rewrite fmap_cons.
  change (mjoin (?l :: ?ls)) with (l ++ mjoin ls). rewrite run_jobs_app.
  f_equal. cbn [fst snd]. clear IH.
  assert (foldl (λ acc document,
                   download_sec_document net (path_join OUTPUT_PATH doc_type) document acc)
                acc documents
          = run_jobs net
              ((λ document,
                  (1000, document.2,
                   path_join (path_join OUTPUT_PATH doc_type)
                     (document.1 +:+
                        (if endswith document.2 ".pdf"
                            && negb (endswith document.2 ".htm"
                                     || endswith document.2 ".html")
                         then ".pdf" else ".html")))) <$> documents) acc) as <-.
  { revert acc.
    induction documents as [|[name url] documents IHd]; intros acc; [done|].
    cbn [foldl fmap list_fmap]. unfold run_jobs in *. cbn [foldl]. rewrite IHd.
    f_equal. destruct acc as [total acc_st].
    unfold download_sec_document, download_job. cbn [fst snd].
    assert ((if endswith url ".htm" || endswith url ".html" then ".html"
             else if endswith url ".pdf" then ".pdf" else ".html")
            = (if endswith url ".pdf"
                  && negb (endswith url ".htm" || endswith url ".html")
               then ".pdf" else ".html")) as ->.
    { by destruct (endswith url ".htm"), (endswith url ".html"),
           (endswith url ".pdf"). }
    destruct (bool_decide _); [done|]. by destruct (download_file _ _ _ _). }
  destruct (bool_decide _) eqn:Hempty; [|done].
  apply bool_decide_eq_true in Hempty. by rewrite Hempty.
Qed.

Lemma download_ilpa_documents_jobs net st :
  download_ilpa_documents net st = run_jobs net (ilpa_jobs ILPA_DOCUMENTS) (0, st).
Proof.
  unfold download_ilpa_documents. generalize (0, st). generalize ILPA_DOCUMENTS.
  intros table.
  induction table as [|[doc_type documents] table IH]; intros acc; [done|].
  cbn [foldl]. rewrite IH. unfold ilpa_jobs. rewrite fmap_cons.
  change (mjoin (?l :: ?ls)) with (l ++ mjoin ls). rewrite run_jobs_app.
  f_equal. cbn [fst snd]. clear IH. revert acc.
  induction documents as [|[name url] documents IHd]; intros acc; [done|].
  cbn [foldl fmap list_fmap]. unfold run_jobs in *. cbn [foldl]. rewrite IHd.
  f_equal. destruct acc as [total acc_st].
  unfold download_ilpa_document, download_job. cbn [fst snd].
  destruct (bool_decide _); [done|]. by destruct (download_file _ _ _ _).
Qed.

Lemma main_jobs net st : main net st = run_jobs net all_jobs (0, st).
Proof.
  unfold main, download_uva_documents, all_jobs.
  rewrite download_documents_jobs, !run_jobs_app.
  destruct (run_jobs net (uva_jobs UVA_DOCUMENTS) (0, st)) as [uva_count st1].
  rewrite download_sec_documents_jobs.
  rewrite (run_jobs_count _ (sec_jobs _) uva_count).
  destruct (run_jobs net (sec_jobs SEC_EDGAR_DOCUMENTS) (0, st1)) as [sec_count st2].
  rewrite download_ilpa_documents_jobs. cbn [fst snd].
  rewrite (run_jobs_count _ (ilpa_jobs _) (uva_count + sec_count)).
  by destruct (run_jobs net (ilpa_jobs ILPA_DOCUMENTS) (0, st2)) as [ilpa_count st3].
Qed.

(** X11: what [download_file] leaves on the disk.  When it returns [True]
    the destination holds the body of the first answer that succeeded, the
    bytes of the failed attempts before it are overwritten.  When it returns
    [False] every one of the three answers was an exception, and the
    destination holds what the failed attempts wrote, the last write on top:
    a partial file is not removed.  No other path is touched. *)
Theorem download_file_writes_destination (net : nat → response)
    (url dest_path : string) (st : disk) :
  let result := download_file net url dest_path st in
  (result.1 = true →
     ∃ failed data,
       first_success net (clock st) 3 = Some failed
       ∧ net (clock st + failed) = Body data
       ∧ tree result.2 = <[dest_path := data]> (tree st))
  ∧ (result.1 = false →
       first_success net (clock st) 3 = None
       ∧ tree result.2
         = foldl (λ tree attempt, written dest_path (net (clock st + attempt)) tree)
                 (tree st) (seq 0 3))
  ∧ (∀ path, path ≠ dest_path → tree result.2 !! path = tree st !! path).
Proof.
  intros result. pose proof (download_file_outcome net url dest_path st) as Hout.
  cbn zeta in Hout. fold result in Hout.
  split; [|split].
  - intros Hok. cbn [first_success].
    destruct (net (clock st)) as [data0|written0] eqn:H0; cbn [is_body].
    { exists 0, data0. rewrite Nat.add_0_r. by destruct Hout as (_ & _ & ->). }
    destruct (net (S (clock st))) as [data1|written1] eqn:H1; cbn [is_body].
    { exists 1, data1. rewrite Nat.add_1_r. by destruct Hout as (_ & _ & ->). }
    destruct (net (S (S (clock st)))) as [data2|written2] eqn:H2; cbn [is_body].
    { exists 2, data2. replace (clock st + 2) with (S (S (clock st))) by lia.
      by destruct Hout as (_ & _ & ->). }
    destruct Hout as (Hfalse & _). congruence.
  - intros Hfail. cbn [first_success seq foldl].
    rewrite Nat.add_0_r, Nat.add_1_r.
    replace (clock st + 2) with (S (S (clock st))) by lia.
    destruct (net (clock st)) as [data0|written0] eqn:H0; cbn [is_body].
    { destruct Hout as (Htrue & _). congruence. }
    destruct (net (S (clock st))) as [data1|written1] eqn:H1; cbn [is_body].
    { destruct Hout as (Htrue & _). congruence. }
    destruct (net (S (S (clock st)))) as [data2|written2] eqn:H2; cbn [is_body].
    { destruct Hout as (Htrue & _). congruence. }
    by destruct Hout as (_ & _ & ->).
  - intros path Hne. unfold result, download_file.
    by apply download_attempts_other_path.
Qed.

(** X12: a download that fails after bytes were written is reported as
    failed, and counted as downloaded by the next pass over the same
    document: the partial file is there, so the pass skips the document
    without a request, whatever the network would answer. *)
Theorem failed_download_counted_on_next_pass (net net' : nat → response)
    (folder_path name path : string) (total_downloaded : nat) (st : disk)
    (failed : nat) (data : string) :
  tree st !! path_join folder_path (name +:+ (splitext path).2) = None →
  first_success net (clock st) 3 = None →
  failed < 3 →
  net (clock st + failed) = RequestException (Some data) →
  let first := download_uva_document net folder_path (name, path)
                 (total_downloaded, st) in
  first.1 = total_downloaded
  ∧ is_Some (tree first.2 !! path_join folder_path (name +:+ (splitext path).2))
  ∧ download_uva_document net' folder_path (name, path) first
    = (total_downloaded + 1, first.2).
Proof.
  intros Hnone Hfail Hfailed Hwritten first.
  assert (first.1 = total_downloaded
          ∧ is_Some (tree first.2
                       !! path_join folder_path (name +:+ (splitext path).2)))
    as [Hcount Hthere].
  { unfold first, download_uva_document.
    rewrite bool_decide_false by (rewrite Hnone; by intros [? ?]).
    pose proof (download_file_outcome net (UVA_BASE_URL +:+ "/" +:+ path)
                  (path_join folder_path (name +:+ (splitext path).2)) st) as Hout.
    cbn zeta in Hout. cbn [first_success] in Hfail.
    destruct (download_file _ _ _ _) as [ok st'] eqn:Hrun. cbn [fst snd] in Hout.
    cbn [fst snd sleep tree].
    assert (∀ tree : gmap string string,
              is_Some (<[path_join folder_path (name +:+ (splitext path).2) := data]>
                         tree
                       !! path_join folder_path (name +:+ (splitext path).2)))
      as Hdest.
    { intros tree. rewrite lookup_insert_eq. by eexists. }
    destruct (net (clock st)) as [data0|written0] eqn:H0; [done|].
    destruct (net (S (clock st))) as [data1|written1] eqn:H1; [done|].
    destruct (net (S (S (clock st)))) as [data2|written2] eqn:H2; [done|].
    destruct Hout as (-> & _ & ->). split; [done|].
    destruct failed as [|[|[|failed]]]; [| | |lia].
    - rewrite Nat.add_0_r, H0 in Hwritten. injection Hwritten as ->.
      do 2 apply written_is_Some. apply Hdest.
    - rewrite Nat.add_1_r, H1 in Hwritten. injection Hwritten as ->.
      apply written_is_Some. apply Hdest.
    - replace (clock st + 2) with (S (S (clock st))) in Hwritten by lia.
      rewrite H2 in Hwritten. injection Hwritten as ->. apply Hdest. }
  split; [done|]. split; [done|].
  destruct first as [total' st']. cbn [fst snd] in Hcount, Hthere. subst total'.
  unfold download_uva_document. by rewrite bool_decide_true.
Qed.

Lemma failed_download_counted_on_next_pass_witness :
  let net := λ _ : nat, RequestException (Some "%PDF-1.4 tru") in
  let first := download_uva_document net "./fund_formation_matters/LPAs"
                 ("Ada_Investment_LPA_2008", "lpa/Ada_Investment_Fund.pdf")
                 (0, Disk ∅ 0 []) in
  first.1 = 0
  ∧ is_Some (tree first.2
               !! path_join "./fund_formation_matters/LPAs"
                    ("Ada_Investment_LPA_2008"
                     +:+ (splitext "lpa/Ada_Investment_Fund.pdf").2))
  ∧ download_uva_document (λ _, Body "%PDF-1.4 whole") "./fund_formation_matters/LPAs"
      ("Ada_Investment_LPA_2008", "lpa/Ada_Investment_Fund.pdf") first
    = (0 + 1, first.2).
Proof.
  apply (failed_download_counted_on_next_pass
           (λ _, RequestException (Some "%PDF-1.4 tru")) (λ _, Body "%PDF-1.4 whole")
           "./fund_formation_matters/LPAs" "Ada_Investment_LPA_2008"
           "lpa/Ada_Investment_Fund.pdf" 0 (Disk ∅ 0 []) 2 "%PDF-1.4 tru").
  - apply lookup_empty.
  - reflexivity.
  - lia.
  - reflexivity.
Defined.

(** X13: the total that [main] prints counts only listed documents whose
    destination exists when the run ends, so it is at most 62; a run makes
    at most three requests for each listed document that was missing when
    it started, and none else; and it leaves every file that was there as
    it was. *)
Theorem main_counts_documents_on_disk (net : nat → response) (st : disk) :
  let result := main net st in
  result.1 ≤ length (on_disk (tree result.2) all_jobs)
  ∧ length (on_disk (tree result.2) all_jobs) ≤ 62
  ∧ clock st ≤ clock result.2
  ∧ clock result.2 ≤ clock st + 3 * length (missing (tree st) all_jobs)
  ∧ (∀ path data, tree st !! path = Some data → tree result.2 !! path = Some data).
Proof.
  cbn zeta. rewrite main_jobs.
  pose proof (run_jobs_bounds net all_jobs (0, st)) as (_ & Hc & Hk1 & Hk2 & _ & Hkeep).
  cbn zeta in Hc, Hk1, Hk2, Hkeep. cbn [fst snd] in Hc, Hk1, Hk2, Hkeep.
  split; [lia|]. split; [|split; [lia|split; [lia|exact Hkeep]]].
  unfold on_disk. etrans; [apply length_filter|].
  apply (bool_decide_unpack _). vm_compute. exact I.
Qed.

(** X14: when every listed document is there, [main] makes no request,
    writes nothing, sleeps never, and reports all 62 documents. *)
Theorem main_complete_disk_no_request (net : nat → response) (st : disk) :
  Forall (λ job, is_Some (tree st !! job.2)) all_jobs →
  main net st = (62, st).
Proof.
  intros Hall. rewrite main_jobs. rewrite (run_jobs_all_exist net all_jobs (0, st) Hall).
  cbn [fst snd]. f_equal.
Qed.

Lemma main_complete_disk_no_request_witness :
  main (λ _, RequestException None) complete_disk = (62, complete_disk).
Proof.
  apply (main_complete_disk_no_request (λ _, RequestException None) complete_disk).
  apply (bool_decide_unpack _). vm_compute. exact I.
Defined.

End formation_runs.

(** ** The searches and downloads of [download_sec_side_letters.py] *)
Section edgar.
Import PyStr Net SideLetters CuadFiles Retry Edgar.

Lemma collect_hits_spec hits : ∀ results,
  collect_hits hits results = results ++ omap result_of_hit (hits_read hits).
Proof.
  induction hits as [|[file form names] hits IH]; intros results.
  { cbn. by rewrite app_nil_r. }
  cbn [collect_hits hits_read file_url hit_form display_names].
  destruct names as [[|company names]|]; cbn [default from_option id].
  - rewrite (bool_decide_true (Some [] = Some [])) by done. cbn.
    by rewrite app_nil_r.
  - rewrite (bool_decide_false (Some (company :: names) = Some [])) by done.
    rewrite IH. cbn [omap list_omap]. unfold result_of_hit at 2.
    destruct file as [file|];
      cbn [file_url hit_form display_names default from_option id hd].
    + destruct (bool_decide (file = EmptyString)); cbn [from_option]; [done|].
      by rewrite <-app_assoc.
    + by rewrite bool_decide_true.
  - rewrite (bool_decide_false (None = Some [])) by done.
    rewrite IH. cbn [omap list_omap]. unfold result_of_hit at 2.
    destruct file as [file|];
      cbn [file_url hit_form display_names default from_option id hd].
    + destruct (bool_decide (file = EmptyString)); cbn [from_option]; [done|].
      by rewrite <-app_assoc.
    + by rewrite bool_decide_true.
Qed.

Lemma hits_read_stops hits bad hits' :
  display_names bad = Some [] → hits_read (hits ++ bad :: hits') = hits_read hits.
Proof.
  intros Hbad. induction hits as [|hit hits IH].
  - cbn [app hits_read]. by rewrite bool_decide_true.
  - cbn [app hits_read]. destruct (bool_decide _); [done|]. by rewrite IH.
Qed.

Lemma result_of_hit_url hit r :
  result_of_hit hit = Some r →
  ∃ file, file ≠ EmptyString ∧ file_url hit = Some file
          ∧ url r = "https://www.sec.gov" +:+ file.
Proof.
  unfold result_of_hit. destruct (file_url hit) as [file|]; [|done].
  destruct (bool_decide (file = EmptyString)) eqn:Hfile; [done|].
  apply bool_decide_eq_false in Hfile. intros [= <-]. by exists file.
Qed.

Lemma search_edgar_fulltext_disk search query st :
  tree (search_edgar_fulltext search query st).2 = tree st
  ∧ clock (search_edgar_fulltext search query st).2 = S (clock st).
Proof.
  unfold search_edgar_fulltext.
  destruct (search (clock st)) as [|status_code hits]; [done|].
  by destruct (bool_decide (status_code = 200)).
Qed.

(** X15: a search makes one request and writes nothing; it returns no
    result when the request or the decoding raises or the status is not
    200, and otherwise one result for every hit with a non-empty
    [file_url] among the hits read, in their order, each URL made of the
    SEC host and that [file_url].  A hit whose [display_names] is the empty
    list ends the reading: the results of the hits before it are returned,
    the hits after it are dropped. *)
Theorem search_edgar_fulltext_reads_hits (search : nat → search_answer)
    (query : string) (st : disk) :
  let out := search_edgar_fulltext search query st in
  clock out.2 = S (clock st)
  ∧ tree out.2 = tree st
  ∧ out.1 = match search (clock st) with
            | SearchStatus status_code hits =>
                if bool_decide (status_code = 200)
                then omap result_of_hit (hits_read hits) else []
            | SearchRaises => []
            end
  ∧ Forall (λ r, ∃ file, file ≠ EmptyString
                         ∧ url r = "https://www.sec.gov" +:+ file) out.1
  ∧ (∀ hits bad hits',
       display_names bad = Some [] →
       search (clock st) = SearchStatus 200 (hits ++ bad :: hits') →
       out.1 = omap result_of_hit (hits_read hits)).
Proof.
  intros out.
  assert (out.1 = match search (clock st) with
                  | SearchStatus status_code hits =>
                      if bool_decide (status_code = 200)
                      then omap result_of_hit (hits_read hits) else []
                  | SearchRaises => []
                  end) as Hout.
  { unfold out, search_edgar_fulltext.
    destruct (search (clock st)) as [|status_code hits]; [done|].
    destruct (bool_decide (status_code = 200)); [|done].
    cbn [fst]. by rewrite collect_hits_spec. }
  split; [|split; [|split; [exact Hout|split]]].
  - unfold out, search_edgar_fulltext.
    destruct (search (clock st)) as [|status_code hits]; [done|].
    by destruct (bool_decide (status_code = 200)).
  - unfold out, search_edgar_fulltext.
    destruct (search (clock st)) as [|status_code hits]; [done|].
    by destruct (bool_decide (status_code = 200)).
  - rewrite Hout. destruct (search (clock st)) as [|status_code hits]; [done|].
    destruct (bool_decide (status_code = 200)); [|done].
    apply Forall_forall. intros r (hit & _ & Hr)%list_elem_of_omap.
    apply result_of_hit_url in Hr as (file & Hne & _ & Hurl). by exists file.
  - intros hits bad hits' Hbad Hsearch. rewrite Hout, Hsearch.
    rewrite bool_decide_true by done. by rewrite hits_read_stops.
Qed.

Lemma search_queries_disk search queries st :
  tree (search_queries search queries st).2 = tree st
  ∧ clock (search_queries search queries st).2 = clock st + length queries.
Proof.
  unfold search_queries.
  assert (∀ acc : list result * disk,
            let out := foldl (λ acc query,
                                let '(results, st') :=
                                  search_edgar_fulltext search query acc.2 in
                                (acc.1 ++ results, sleep 1000 st')) acc queries in
            tree out.2 = tree acc.2 ∧ clock out.2 = clock acc.2 + length queries)
    as Hloop.
  { induction queries as [|query queries IH]; intros acc.
    { cbn [foldl length]. split; [done|lia]. }
    cbn [foldl length]. cbn zeta in IH. destruct (IH
      (let '(results, st') := search_edgar_fulltext search query acc.2 in
       (acc.1 ++ results, sleep 1000 st'))) as [-> ->].
    pose proof (search_edgar_fulltext_disk search query acc.2) as [Htree Hclock].
    destruct (search_edgar_fulltext search query acc.2) as [results st'].
    cbn [fst snd sleep tree clock] in *. split; [done|lia]. }
  apply (Hloop ([], st)).
Qed.

Lemma length_string_app (x y : string) :
  String.length (x +:+ y) = String.length x + String.length y.
Proof. induction x as [|a x IH]; simpl; [done|]. by rewrite IH. Qed.

Lemma string_app_inv_tail x : ∀ y s, x +:+ s = y +:+ s → x = y.
Proof.
  induction x as [|a x IH]; intros [|b y] s Heq; [done| | |].
  - exfalso. apply (f_equal String.length) in Heq.
    rewrite !length_string_app in Heq. simpl in Heq. lia.
  - exfalso. apply (f_equal String.length) in Heq.
    rewrite !length_string_app in Heq. simpl in Heq. lia.
  - simpl in Heq. injection Heq as -> Heq. f_equal. by apply (IH y s).
Qed.

Lemma has_char_app a x y : has_char a (x +:+ y) = has_char a x || has_char a y.
Proof.
  induction x as [|c x IH]; simpl; [done|].
  destruct (decide (c = a)); [done|exact IH].
Qed.

(** What follows the last separator of a string is determined by it. *)
Lemma last_separator sep (x1 x2 t1 t2 : string) :
  has_char sep t1 = false → has_char sep t2 = false →
  x1 +:+ String sep t1 = x2 +:+ String sep t2 → x1 = x2 ∧ t1 = t2.
Proof.
  intros H1 H2. revert x2.
  induction x1 as [|a x1 IH]; intros [|b x2] Heq; simpl in Heq.
  - by injection Heq.
  - injection Heq as <- Heq. rewrite Heq, has_char_app in H1. simpl in H1.
    rewrite decide_True in H1 by done. by rewrite orb_true_r in H1.
  - injection Heq as -> Heq. rewrite <-Heq, has_char_app in H2. simpl in H2.
    rewrite decide_True in H2 by done. by rewrite orb_true_r in H2.
  - injection Heq as -> Heq. by destruct (IH _ Heq) as [-> ->].
Qed.

Lemma pretty_N_go_no_underscore x : ∀ s,
  has_char "_" s = false → has_char "_" (pretty_N_go x s) = false.
Proof.
  induction (N.lt_wf_0 x) as [x _ IH]; intros s Hs.
  assert (x = 0 ∨ 0 < x)%N as [->|?] by lia.
  - by rewrite pretty_N_go_0.
  - rewrite pretty_N_go_step by done. apply IH; [by apply N.div_lt|].
    cbn [has_char]. rewrite decide_False; [done|].
    unfold pretty_N_char. by repeat case_match.
Qed.

Lemma pretty_nat_no_underscore (n : nat) : has_char "_" (pretty n) = false.
Proof.
  unfold pretty, pretty_nat, pretty, pretty_N.
  case_decide; [done|]. by apply pretty_N_go_no_underscore.
Qed.

Lemma remove_chars_no_char class a s :
  class a = true → has_char a (remove_chars class s) = false.
Proof.
  intros Ha. induction s as [|c s IH]; cbn [remove_chars has_char]; [done|].
  destruct (class c) eqn:Hc; [done|]. cbn [has_char].
  rewrite decide_False; [done|]. intros ->. congruence.
Qed.

Lemma clean_company_no_slash company : has_char "/" (clean_company company) = false.
Proof. unfold clean_company. by apply remove_chars_no_char. Qed.

Lemma filename_startswith prefix company1 company2 rest1 rest2 :
  startswith (prefix +:+ clean_company company1 +:+ String "_" rest1) "/"
  = startswith (prefix +:+ clean_company company2 +:+ String "_" rest2) "/".
Proof.
  destruct prefix as [|c prefix].
  - change (EmptyString +:+ ?x) with x.
    by rewrite 2!no_slash_app by (apply clean_company_no_slash || done).
  - assert (∀ s, startswith s EmptyString = true) as Hempty by (by intros [|? ?]).
    simpl. destruct (decide ("/"%char = c)); [|done]. by rewrite !Hempty.
Qed.

Lemma path_join_inj_same a b1 b2 :
  startswith b1 "/" = startswith b2 "/" →
  path_join a b1 = path_join a b2 → b1 = b2.
Proof.
  intros Hsame. unfold path_join. rewrite <-Hsame.
  destruct (startswith b1 "/"); [done|].
  destruct (_ || _); intros Heq.
  - by apply (inj (String.app a)) in Heq.
  - apply (inj (String.app a)) in Heq. by apply (inj (String.app "/")) in Heq.
Qed.

(** The number in the file name keeps the destinations of one run apart. *)
Lemma dest_of_inj folder prefix i j r r' :
  dest_of folder prefix i r = dest_of folder prefix j r' → i = j.
Proof.
  unfold dest_of. intros Heq.
  apply path_join_inj_same in Heq; [|apply filename_startswith].
  apply (inj (String.app prefix)) in Heq.
  apply last_separator in Heq as [_ Heq];
    [|by rewrite has_char_app, pretty_nat_no_underscore..].
  apply string_app_inv_tail in Heq. apply (inj pretty) in Heq. lia.
Qed.

Lemma answered_le net n : ∀ request, answered net request n ≤ n.
Proof.
  induction n as [|n IH]; intros request; cbn [answered]; [done|].
  specialize (IH (S request)). destruct (is_body _); lia.
Qed.

Lemma download_results_spec net folder prefix results : ∀ start acc,
  let out := foldl (download_result net (path_join OUTPUT_PATH folder) prefix) acc
               (enumerate start results) in
  clock out.2 = clock acc.2 + length results
  ∧ out.1 = acc.1 + answered net (clock acc.2) (length results)
  ∧ (∀ path,
       (∀ i r, results !! i = Some r → path ≠ dest_of folder prefix (start + i) r) →
       tree out.2 !! path = tree acc.2 !! path)
  ∧ (∀ i r, results !! i = Some r →
       tree out.2 !! dest_of folder prefix (start + i) r
       = match net (clock acc.2 + i) with
         | Body data => Some data
         | RequestException _ => tree acc.2 !! dest_of folder prefix (start + i) r
         end).
Proof.
  induction results as [|r0 results IH]; intros start acc; cbn zeta.
  { cbn [enumerate foldl length answered]. split; [lia|]. split; [lia|].
    split; [done|]. intros i r Hi. by rewrite lookup_nil in Hi. }
  cbn [enumerate foldl length answered].
  set (acc1 := download_result net (path_join OUTPUT_PATH folder) prefix acc (start, r0)).
  destruct (IH (S start) acc1) as (Hclock & Hcount & Hother & Hdest).
  assert (clock acc1.2 = S (clock acc.2)
          ∧ acc1.1 = acc.1 + (if is_body (net (clock acc.2)) then 1 else 0)
          ∧ tree acc1.2
            = match net (clock acc.2) with
              | Body data => <[dest_of folder prefix start r0 := data]> (tree acc.2)
              | RequestException _ => tree acc.2
              end) as (Hclock1 & Hcount1 & Htree1).
  { unfold acc1, download_result, download_with_sec_headers, dest_of.
    destruct acc as [downloaded st]. cbn [fst snd].
    destruct (net (clock st)); cbn [fst snd sleep clock tree is_body];
      (split; [done|split; [lia|done]]). }
  assert (∀ path, path ≠ dest_of folder prefix start r0 →
                  tree acc1.2 !! path = tree acc.2 !! path) as Hstep.
  { intros path Hne. rewrite Htree1. destruct (net (clock acc.2)); [|done].
    by rewrite lookup_insert_ne. }
  split; [lia|]. split; [rewrite Hcount, Hclock1, Hcount1; lia|]. split.
  - intros path Hpath. rewrite Hother.
    + apply Hstep. rewrite <-(Nat.add_0_r start). by apply Hpath.
    + intros i r Hi. replace (S start + i) with (start + S i) by lia.
      by apply Hpath.
  - intros [|i] r Hi.
    + injection Hi as <-. rewrite !Nat.add_0_r. rewrite Hother.
      * rewrite Htree1. destruct (net (clock acc.2)); [|done].
        by rewrite lookup_insert_eq.
      * intros j r' _ Heq%dest_of_inj. lia.
    + cbn [lookup list_lookup] in Hi.
      replace (start + S i) with (S start + i) by lia. rewrite (Hdest i r Hi).
      rewrite Hclock1. replace (S (clock acc.2) + i) with (clock acc.2 + S i) by lia.
      destruct (net (clock acc.2 + S i)); [done|]. apply Hstep.
      intros Heq%dest_of_inj. lia.
Qed.

Lemma to_download_NoDup search queries top st :
  NoDup (url <$> to_download search queries top st).
Proof.
  unfold to_download. rewrite dedupe_first_occurrences.
  eapply sublist_NoDup; [apply first_occurrences_NoDup|].
  apply fmap_sublist, sublist_take.
Qed.

Lemma search_and_download_spec search net folder prefix queries top st :
  let results := to_download search queries top st in
  let request := clock st + length queries in
  let out := search_and_download search net folder prefix queries top st in
  clock out.2 = request + length results
  ∧ out.1 = answered net request (length results)
  ∧ (∀ path,
       (∀ i r, results !! i = Some r → path ≠ dest_of folder prefix i r) →
       tree out.2 !! path = tree st !! path)
  ∧ (∀ i r, results !! i = Some r →
       tree out.2 !! dest_of folder prefix i r
       = match net (request + i) with
         | Body data => Some data
         | RequestException _ => tree st !! dest_of folder prefix i r
         end).
Proof.
  cbn zeta. unfold search_and_download, to_download.
  pose proof (search_queries_disk search queries st) as [Htree Hclock].
  destruct (search_queries search queries st) as [all_results st1].
  cbn [fst snd] in Htree, Hclock |- *.
  pose proof (download_results_spec net folder prefix
                (take top (dedupe all_results)) 0 (0, st1)) as Hspec.
  cbn zeta in Hspec. cbn [fst snd] in Hspec. rewrite Htree, Hclock in Hspec.
  exact Hspec.
Qed.

(** X16: each of [search_and_download_side_letters], [..._lpas] and
    [..._subscription_docs] downloads the first [top] distinct URLs that its
    searches found, one request each, no URL twice; the numbered file names
    keep the destinations apart, so the file of a result that was fetched
    holds its body when the run ends, a result whose request failed leaves
    its destination as it was, and no other path is touched; the returned
    number counts the requests that were answered. *)
Theorem search_and_download_one_file_per_result (search : nat → search_answer)
    (net : nat → response) (folder prefix : string) (queries : list string)
    (top : nat) (st : disk) :
  let results := to_download search queries top st in
  let request := clock st + length queries in
  let out := search_and_download search net folder prefix queries top st in
  length results ≤ top
  ∧ NoDup (url <$> results)
  ∧ NoDup (imap (dest_of folder prefix) results)
  ∧ clock out.2 = request + length results
  ∧ out.1 = answered net request (length results)
  ∧ out.1 ≤ length results
  ∧ (∀ i r, results !! i = Some r →
       tree out.2 !! dest_of folder prefix i r
       = match net (request + i) with
         | Body data => Some data
         | RequestException _ => tree st !! dest_of folder prefix i r
         end)
  ∧ (∀ path,
       (∀ i r, results !! i = Some r → path ≠ dest_of folder prefix i r) →
       tree out.2 !! path = tree st !! path).
Proof.
  intros results request out.
  destruct (search_and_download_spec search net folder prefix queries top st)
    as (Hclock & Hcount & Hother & Hdest).
  split; [unfold results, to_download; rewrite length_take; lia|].
  split; [apply to_download_NoDup|]. split.
  { apply NoDup_alt. intros i j path.
    rewrite !list_lookup_imap.
    intros (r & Hr & ->)%fmap_Some (r' & Hr' & Heq)%fmap_Some.
    by apply dest_of_inj in Heq. }
  split; [exact Hclock|]. split; [exact Hcount|].
  split; [unfold out; rewrite Hcount; apply answered_le|].
  split; [exact Hdest|exact Hother].
Qed.

(** X17: [main] makes the eight searches and then at most 20, 20 and 15
    downloads: its total is at most 55, never more than the requests made
    after the searches, and a run makes at most 63 requests. *)
Theorem main_downloads_at_most_55 (search : nat → search_answer)
    (net : nat → response) (st : disk) :
  let out := main search net st in
  out.1 ≤ 55
  ∧ clock st + 8 + out.1 ≤ clock out.2
  ∧ clock out.2 ≤ clock st + 63.
Proof.
  cbn zeta. unfold main, search_and_download_side_letters, search_and_download_lpas,
    search_and_download_subscription_docs.
  set (queries1 := [_; _; _]). set (queries2 := [_; _; _]). set (queries3 := [_; _]).
  pose proof (search_and_download_spec search net "Side_Letters" "Side_Letter_"
                queries1 20 st) as (Hclock1 & Hcount1 & _).
  pose proof (answered_le net (length (to_download search queries1 20 st))
                (clock st + length queries1)) as Hle1.
  assert (length (to_download search queries1 20 st) ≤ 20) as Htop1.
  { unfold to_download. rewrite length_take. lia. }
  destruct (search_and_download search net "Side_Letters" _ queries1 20 st)
    as [side_letters st1].
  pose proof (search_and_download_spec search net "LPAs" "LPA_"
                queries2 20 st1) as (Hclock2 & Hcount2 & _).
  pose proof (answered_le net (length (to_download search queries2 20 st1))
                (clock st1 + length queries2)) as Hle2.
  assert (length (to_download search queries2 20 st1) ≤ 20) as Htop2.
  { unfold to_download. rewrite length_take. lia. }
  destruct (search_and_download search net "LPAs" _ queries2 20 st1) as [lpas st2].
  pose proof (search_and_download_spec search net "Subscription_Agreements"
                "Subscription_" queries3 15 st2) as (Hclock3 & Hcount3 & _).
  pose proof (answered_le net (length (to_download search queries3 15 st2))
                (clock st2 + length queries3)) as Hle3.
  assert (length (to_download search queries3 15 st2) ≤ 15) as Htop3.
  { unfold to_download. rewrite length_take. lia. }
  destruct (search_and_download search net "Subscription_Agreements" _ queries3 15 st2)
    as [subscriptions st3].
  cbn [fst snd] in *. subst queries1 queries2 queries3. cbn [length] in *. lia.
Qed.

End edgar.

(** ** The expanded extractor *)
Section expanded_run.
Import PyStr Walk FundExpanded ExpandedFolders CuadFiles ExpandedRun.

Lemma replace_chars_no_char class r a s :
  class a = true → has_char a r = false →
  has_char a (replace_chars class r s) = false.
Proof.
  intros Ha Hr. induction s as [|c s IH]; cbn [replace_chars]; [done|].
  destruct (class c) eqn:Hc.
  - by rewrite has_char_app, Hr, IH.
  - cbn [has_char]. rewrite decide_False; [done|]. intros ->. congruence.
Qed.

Lemma out_path_in_folder ticker filing_type accession doc_type filename :
  doc_type ∈ PyDict.keys FUND_DOC_KEYWORDS →
  in_folder (out_path_of ticker filing_type accession (get_output_folder doc_type)
               filename).
Proof.
  intros Hkey. eexists (get_output_folder doc_type), _.
  split; [|split; [|reflexivity]].
  - assert (Forall (λ doc_type, get_output_folder doc_type ∈ mapping.*2)
                   (PyDict.keys FUND_DOC_KEYWORDS)) as Hall.
    { apply (bool_decide_unpack _). vm_compute. exact I. }
    rewrite Forall_forall in Hall. by apply Hall.
  - by apply replace_chars_no_char.
Qed.

Lemma expanded_types filing :
  Forall (λ entry, entry.1.2 ∈ PyDict.keys FUND_DOC_KEYWORDS)
         (find_fund_docs_in_filing filing).
Proof.
  unfold find_fund_docs_in_filing.
  eapply Forall_impl; [by apply (expanded_scan_walk_found filing filing [])|].
  by intros entry (root & files & text & _ & _ & _ & _ & _ & _ & _ & Hkey).
Qed.

Lemma copy_fund_docs_inv tree0 ticker filing_type accession fund_docs : ∀ st,
  Forall (λ entry, entry.1.2 ∈ PyDict.keys FUND_DOC_KEYWORDS) fund_docs →
  run_inv tree0 st →
  run_inv tree0 (copy_fund_docs ticker filing_type accession fund_docs st).1
  ∧ (copy_fund_docs ticker filing_type accession fund_docs st).2 = false.
Proof.
  induction fund_docs as [|[[filepath doc_type] filename] fund_docs IH];
    intros st Htypes Hinv; [done|].
  apply Forall_cons in Htypes as [Hkey Htypes]. cbn [fst snd] in Hkey.
  cbn [copy_fund_docs].
  destruct (bool_decide _) eqn:Hexists; [by apply IH|].
  apply bool_decide_eq_false in Hexists.
  destruct Hinv as (Hkeys & Hsum & Hkeep & Hnew).
  assert (is_Some (PyDict.get doc_type (FundFilings.total_found st))) as [n Hn].
  { apply get_is_Some. by rewrite Hkeys. }
  rewrite Hn. apply IH; [done|].
  assert (FundFilings.out_tree st
            !! out_path_of ticker filing_type accession (get_output_folder doc_type)
                 filename = None) as Hfree by by apply eq_None_not_Some.
  split; [|split; [|split]]; cbn [FundFilings.total_found FundFilings.out_tree].
  - rewrite keys_set by by eexists. done.
  - rewrite sum_values_set by done. rewrite map_size_insert_None by done. lia.
  - intros path data Hpath. rewrite lookup_insert_ne; [by apply Hkeep|].
    intros <-. apply Hkeep in Hpath. congruence.
  - intros path Hpath Hnone.
    destruct (decide (out_path_of ticker filing_type accession
                        (get_output_folder doc_type) filename = path)) as [<-|Hne].
    + by apply out_path_in_folder.
    + rewrite lookup_insert_ne in Hpath by done. by apply Hnew.
Qed.

Lemma process_accessions_inv tree0 ticker filing_type accessions : ∀ st,
  run_inv tree0 st →
  run_inv tree0 (process_accessions ticker filing_type accessions st).1
  ∧ (process_accessions ticker filing_type accessions st).2 = false.
Proof.
  induction accessions as [|[accession [filing|]] accessions IH];
    intros st Hinv; [done| |by apply IH].
  cbn [process_accessions].
  pose proof (copy_fund_docs_inv tree0 ticker filing_type accession
                (find_fund_docs_in_filing filing) st (expanded_types filing) Hinv)
    as [Hinv1 Hraised].
  destruct (copy_fund_docs _ _ _ _ st) as [st1 raised]. cbn [fst snd] in Hinv1, Hraised.
  subst raised. by apply IH.
Qed.

Lemma download_and_extract_inv disk (tree : gmap string string) :
  run_inv tree (download_and_extract disk tree).
Proof.
  unfold download_and_extract.
  assert (run_inv tree {| FundFilings.out_tree := tree;
                          FundFilings.total_found := init_total_found |}) as Hinit.
  { split; [by vm_compute|]. split; [by vm_compute|]. split; [done|].
    cbn [FundFilings.out_tree]. intros path [data Hpath] Hnone. congruence. }
  revert Hinit. generalize {| FundFilings.out_tree := tree;
                              FundFilings.total_found := init_total_found |}.
  generalize INVESTMENT_COMPANIES as categories.
  induction categories as [|[category tickers] categories IH]; intros st Hst; [done|].
  cbn [foldl snd]. apply IH. clear IH. revert st Hst.
  induction tickers as [|ticker tickers IHt]; intros st Hst; [done|].
  cbn [foldl]. apply IHt. unfold process_ticker.
  generalize FILING_TYPES as filing_types. intros filing_types. revert st Hst.
  induction filing_types as [|filing_type filing_types IHf]; intros st Hst; [done|].
  cbn [foldl]. apply IHf. unfold process_filing_type.
  destruct (disk ticker filing_type); [done..|].
  by apply process_accessions_inv.
Qed.

(** X18: a run of the expanded extractor never changes a file that
    exists; every file it adds lies directly inside one of the six folders
    of the mapping, under a name in which every character that the pattern
    forbids is replaced, a slash among them; the counters, one for each key
    of [FUND_DOC_KEYWORDS], add up to the number of files added; and the
    subscript [total_found[doc_type]] is defined for every document found,
    so no filing type is cut short by a [KeyError]. *)
Theorem expanded_extractor_fills_folders (disk : string → string → FundFilings.listing)
    (tree : gmap string string) :
  let fin := download_and_extract disk tree in
  (∀ path data, tree !! path = Some data →
                FundFilings.out_tree fin !! path = Some data)
  ∧ (∀ path, is_Some (FundFilings.out_tree fin !! path) → tree !! path = None →
             in_folder path)
  ∧ size (FundFilings.out_tree fin)
    = size tree + sum_list (PyDict.values (FundFilings.total_found fin))
  ∧ PyDict.keys (FundFilings.total_found fin) = PyDict.keys FUND_DOC_KEYWORDS
  ∧ (∀ tree0 st ticker filing_type accessions,
       run_inv tree0 st →
       (process_accessions ticker filing_type accessions st).2 = false).
Proof.
  intros fin. destruct (download_and_extract_inv disk tree)
    as (Hkeys & Hsum & Hkeep & Hnew). fold fin in Hkeys, Hsum, Hkeep, Hnew.
  split; [exact Hkeep|]. split; [exact Hnew|]. split; [lia|]. split; [exact Hkeys|].
  intros tree0 st ticker filing_type accessions Hinv.
  by apply (process_accessions_inv tree0).
Qed.

End expanded_run.
